(** * Time Machine display: coordinator, wormhole and chime engines

    A shallow embedding of [js/app.js] (class TimeMachine), of the
    wormhole manager (class WormholeManager), of the chimes manager
    (class ChimesManager) and of the parts of [js/slideshow.js] the
    coordinator calls; then of the clock text, of the slideshow manager
    in full (class SlideshowManager) and of the text scramble of
    [js/glitch.js] (class GlitchManager).

    The browser runs every callback to completion on one thread.  An
    [async] method is therefore modelled by the state change it performs
    up to its next [await] on a timer, an animation or a media promise,
    together with the continuation it leaves suspended; the environment
    decides, through the inputs of the step functions, which key is
    pressed, which clock value is read and which suspended continuation
    is resumed next.  An [await] on a promise that is already settled
    only yields to the microtask queue, where no handler of this page
    can interleave, and is modelled as sequential composition. *)

From Stdlib Require Import ZArith List String Ascii Bool Lia DecimalString.
From stdpp Require Import gmap strings list fin_maps.
Import ListNotations.

Local Open Scope Z_scope.

(** ** The hourly chimes manager (class ChimesManager) *)

Module Chimes.

(** The [<audio id="audio-bell">] element, as far as [chime] and
    [playBell] read it: its [src] and whether its [error] is set. *)
Record AudioElement := {
  src : string;
  error : bool
}.

(** What a chime sequence does to the outside, in the order it does it. *)
Inductive Effect :=
| Strike                      (* playBell() is entered *)
| FilePlay                    (* this.audioBell.play() *)
| SynthBell                   (* this.playSynthBell() *)
| Wait (ms : Z)               (* this.wait(ms) *)
| ShowIndicator (count : Z)   (* this.showChimeIndicator(count) *)
| HideIndicator.              (* this.hideChimeIndicator() *)

(** The points where a call of [chime(count)] is suspended, with the
    loop variable [i] and the argument [count] it will proceed with. *)
Inductive Pending :=
| AwaitPlay (i count : Z)     (* audioBell.play() has not settled yet *)
| AwaitRing (i count : Z)     (* setTimeout(resolve, 1000) of playBell *)
| AwaitDelay (i count : Z).   (* this.wait(this.bellDelay) *)

Record ChimesManager := {
  audioBell : option AudioElement;
  lastChimeHour : Z;
  isChiming : bool;
  bellDelay : Z;
  running : list Pending;     (* the suspended calls of chime() *)
  log : list Effect           (* oldest first *)
}.

(** [new ChimesManager()] on a page whose bell element is [bell]. *)
Definition newChimes (bell : option AudioElement) : ChimesManager :=
  {| audioBell := bell; lastChimeHour := -1; isChiming := false;
     bellDelay := 1920; running := []; log := [] |}.

Definition set_isChiming (b : bool) (m : ChimesManager) : ChimesManager :=
  {| audioBell := audioBell m; lastChimeHour := lastChimeHour m;
     isChiming := b; bellDelay := bellDelay m; running := running m;
     log := log m |}.

Definition set_lastChimeHour (h : Z) (m : ChimesManager) : ChimesManager :=
  {| audioBell := audioBell m; lastChimeHour := h;
     isChiming := isChiming m; bellDelay := bellDelay m;
     running := running m; log := log m |}.

Definition set_running (r : list Pending) (m : ChimesManager) : ChimesManager :=
  {| audioBell := audioBell m; lastChimeHour := lastChimeHour m;
     isChiming := isChiming m; bellDelay := bellDelay m; running := r;
     log := log m |}.

Definition note (es : list Effect) (m : ChimesManager) : ChimesManager :=
  {| audioBell := audioBell m; lastChimeHour := lastChimeHour m;
     isChiming := isChiming m; bellDelay := bellDelay m;
     running := running m; log := log m ++ es |}.

(** [getChimeCount(hour24)]; [%] is the truncating remainder of JS. *)
Definition getChimeCount (hour24 : Z) : Z :=
  let hour12 := Z.rem hour24 12 in
  if hour12 =? 0 then 12 else hour12.

(** [this.audioBell && this.audioBell.src && !this.audioBell.error] *)
Definition fileUsable (bell : option AudioElement) : bool :=
  match bell with
  | Some a => negb (String.eqb (src a) "") && negb (error a)
  | None => false
  end.

(** Truthiness of [this.audioBell]: the element exists. *)
Definition present (bell : option AudioElement) : bool :=
  match bell with Some _ => true | None => false end.

(** [playBell()] up to the point where its promise is pending. *)
Definition playBell (i count : Z) (m : ChimesManager) : ChimesManager * Pending :=
  if fileUsable (audioBell m)
  then (note [Strike; FilePlay] m, AwaitPlay i count)
  else (note [Strike; SynthBell] m, AwaitRing i count).

(** The head of [for (let i = 0; i < count; i++)] at loop variable [i],
    followed by the body up to its first [await], or by the two
    statements after the loop. *)
Definition loopHead (i count : Z) (m : ChimesManager) : ChimesManager * option Pending :=
  if i <? count
  then let (m', p) := playBell i count m in (m', Some p)
  else (note [HideIndicator] (set_isChiming false m), None).

(** [chime(count)] up to its first [await]; the callers pass whole
    numbers for [count]. *)
Definition chime (count : Z) (m : ChimesManager) : ChimesManager * option Pending :=
  if isChiming m || negb (present (audioBell m))
  then (m, None)
  else loopHead 0 count (note [ShowIndicator count] (set_isChiming true m)).

(** The continuation of a suspended [chime].  [ok] tells whether the
    promise of [audioBell.play()] was fulfilled ([.then]) or rejected
    ([.catch]); timers always fire. *)
Definition proceed (p : Pending) (ok : bool) (m : ChimesManager) : ChimesManager * option Pending :=
  match p with
  | AwaitPlay i count =>
      if ok then (m, Some (AwaitRing i count))
      else (note [SynthBell] m, Some (AwaitRing i count))
  | AwaitRing i count =>
      if i <? count - 1
      then (note [Wait (bellDelay m)] m, Some (AwaitDelay i count))
      else loopHead (i + 1) count m
  | AwaitDelay i count => loopHead (i + 1) count m
  end.

(** A new suspended call joins the others. *)
Definition suspend (r : ChimesManager * option Pending) : ChimesManager :=
  match r with
  | (m, Some p) => set_running (running m ++ [p]) m
  | (m, None) => m
  end.

(** [testChime(count)] *)
Definition testChime (count : Z) (m : ChimesManager) : ChimesManager :=
  suspend (chime count m).

(** [checkTime()], with the hour and minute [new Date()] shows. *)
Definition checkTime (hours minutes : Z) (m : ChimesManager) : ChimesManager :=
  if (minutes =? 0) && negb (hours =? lastChimeHour m) && negb (isChiming m)
  then suspend (chime (getChimeCount hours) (set_lastChimeHour hours m))
  else m.

(** The promise awaited by the [n]-th suspended call settles. *)
Definition settle (n : nat) (ok : bool) (m : ChimesManager) : ChimesManager :=
  match running m !! n with
  | Some p =>
      match proceed p ok (set_running (delete n (running m)) m) with
      | (m', Some p') => set_running (take n (running m') ++ p' :: drop n (running m')) m'
      | (m', None) => m'
      end
  | None => m
  end.

Inductive Signal :=
| CheckTime (hours minutes : Z)   (* the 30 s interval of start() *)
| TestChime (count : Z)           (* the manual test trigger *)
| Settle (n : nat) (ok : bool).

Definition handle (m : ChimesManager) (e : Signal) : ChimesManager :=
  match e with
  | CheckTime h mi => checkTime h mi m
  | TestChime c => testChime c m
  | Settle n ok => settle n ok m
  end.

Definition handleAll (es : list Signal) (m : ChimesManager) : ChimesManager :=
  fold_left handle es m.

(** The loop variable a suspended call holds. *)
Definition index (p : Pending) : Z :=
  match p with AwaitPlay i _ | AwaitRing i _ | AwaitDelay i _ => i end.

(** Lets the first suspended call proceed, settlement after settlement,
    until no call is left; [plays i] tells whether [audioBell.play()]
    is fulfilled in iteration [i]. *)
Fixpoint drain (fuel : nat) (plays : Z -> bool) (m : ChimesManager) : ChimesManager :=
  match fuel with
  | O => m
  | S fuel' =>
      match running m with
      | [] => m
      | p :: _ => drain fuel' plays (settle 0 (plays (index p)) m)
      end
  end.

(** Readings of a log. *)
Definition strikes (l : list Effect) : nat :=
  length (List.filter (fun e => match e with Strike => true | _ => false end) l).

Definition waits (l : list Effect) : nat :=
  length (List.filter (fun e => match e with Wait _ => true | _ => false end) l).

(** Every wait in the log lasts [d]. *)
Definition waitsAre (d : Z) (l : list Effect) : bool :=
  forallb (fun e => match e with Wait ms => ms =? d | _ => true end) l.

(** The number of waits after the last strike of the log. *)
Definition waitsSinceStrike (l : list Effect) : nat :=
  fold_left (fun acc e => match e with
                          | Strike => O
                          | Wait _ => S acc
                          | _ => acc
                          end) l O.

(** Where a log stands within the chime sequences it records: between
    two sequences, or inside one of [count], after [struck] strikes, a
    wait having followed the last of them or not. *)
Inductive SeqPhase :=
| Silent
| Struck (count struck : Z) (waited : bool).

(** The logs in which every sequence runs alone from [ShowIndicator] to
    [HideIndicator]: a strike only while strikes are missing, the first
    at once and each later one after a wait; a wait of [d] only after a
    strike that is not the last; the end only after the last strike. *)
Definition seqStep (d : Z) (acc : option SeqPhase) (e : Effect) : option SeqPhase :=
  match acc with
  | None => None
  | Some Silent =>
      match e with
      | ShowIndicator c => Some (Struck c 0 false)
      | _ => None
      end
  | Some (Struck c n w) =>
      match e with
      | Strike =>
          if (n <? c) && ((n =? 0) || w) then Some (Struck c (n + 1) false)
          else None
      | FilePlay | SynthBell =>
          if (0 <? n) && negb w then Some (Struck c n w) else None
      | Wait ms =>
          if (ms =? d) && negb w && (0 <? n) && (n <? c)
          then Some (Struck c n true) else None
      | HideIndicator =>
          if negb w && (n =? Z.max 0 c) then Some Silent else None
      | ShowIndicator _ => None
      end
  end.

Definition seqTrack (d : Z) (l : list Effect) : option SeqPhase :=
  fold_left (seqStep d) l (Some Silent).

(** The log and the suspended call agree: what the call awaits is what
    the log's sequence is due next. *)
Definition sequenced (m : ChimesManager) : Prop :=
  bellDelay m = 1920
  /\ match running m with
     | [] => isChiming m = false /\ seqTrack 1920 (log m) = Some Silent
     | [AwaitPlay i c] | [AwaitRing i c] =>
         isChiming m = true /\ 0 <= i < c
         /\ seqTrack 1920 (log m) = Some (Struck c (i + 1) false)
     | [AwaitDelay i c] =>
         isChiming m = true /\ 0 <= i /\ i + 1 < c
         /\ seqTrack 1920 (log m) = Some (Struck c (i + 1) true)
     | _ => False
     end.

(** A suspended call that the loop of [chime] can have left behind. *)
Definition inLoop (p : Pending) : Prop :=
  match p with
  | AwaitPlay i count | AwaitRing i count => i < count
  | AwaitDelay i count => i + 1 < count
  end.

(** A bound on the resumptions a suspended call still needs. *)
Definition stepsLeft (p : Pending) : nat :=
  match p with
  | AwaitPlay i count => 3 * Z.to_nat (count - i)
  | AwaitRing i count => 3 * Z.to_nat (count - i) - 1
  | AwaitDelay i count => 3 * Z.to_nat (count - i) - 2
  end.

(** How [m'] relates to [m] when the call suspended at [p] in [m] has
    handleAll to its end: [pre ++ cur] is the log of [m], [cur] the part of
    it that belongs to the sequence. *)
Record finished (m m' : ChimesManager) (pre cur : list Effect) (p : Pending) : Prop := {
  fin_running : running m' = [];
  fin_isChiming : isChiming m' = false;
  fin_lastChimeHour : lastChimeHour m' = lastChimeHour m;
  fin_audioBell : audioBell m' = audioBell m;
  fin_bellDelay : bellDelay m' = bellDelay m;
  fin_log : exists seq,
    log m' = pre ++ cur ++ seq
    /\ strikes seq = Z.to_nat (match p with AwaitPlay i c | AwaitRing i c | AwaitDelay i c => c - i - 1 end)
    /\ waits seq = Z.to_nat (match p with AwaitPlay i c | AwaitRing i c => c - i - 1 | AwaitDelay i c => c - i - 2 end)
    /\ waitsAre (bellDelay m) seq = true
    /\ waitsSinceStrike (cur ++ seq) = O
}.

End Chimes.

(** ** Strings of the page *)

Module JsString.

(** A JS string is a sequence of UTF-16 code units. *)
Definition ofAscii (s : string) : list N :=
  map N_of_ascii (list_ascii_of_string s).

(** WhiteSpace and LineTerminator of ECMAScript, what [trim] strips. *)
Definition isWhiteSpace (c : N) : bool :=
  ((9 <=? c) && (c <=? 13) || (c =? 32) || (c =? 160) || (c =? 5760)
   || (8192 <=? c) && (c <=? 8202) || (c =? 8232) || (c =? 8233)
   || (c =? 8239) || (c =? 8287) || (c =? 12288) || (c =? 65279))%N.

Fixpoint trimStart (s : list N) : list N :=
  match s with
  | c :: s' => if isWhiteSpace c then trimStart s' else s
  | [] => []
  end.

(** [s.trim()] *)
Definition trim (s : list N) : list N :=
  rev (trimStart (rev (trimStart s))).

(** [s.split(sep)] for a separator of one code unit. *)
Fixpoint split (sep : N) (s : list N) : list (list N) :=
  match s with
  | [] => [[]]
  | c :: s' =>
      if (c =? sep)%N then [] :: split sep s'
      else match split sep s' with
           | piece :: pieces => (c :: piece) :: pieces
           | [] => [[c]]
           end
  end.

(** [l.join(sep)] *)
Definition join (sep : list N) (l : list (list N)) : list N :=
  match l with
  | [] => []
  | x :: xs => x ++ flat_map (fun y => sep ++ y) xs
  end.

End JsString.

(** ** The facts of a period and their ticker *)

Module Facts.
Import JsString.

(** What [fetch(url)] followed by [response.text()] gives: a rejection,
    which lands in the [catch], or the text of the body. *)
Inductive Response :=
| Rejected
| Text (text : list N).

Definition folders : list string := ["2025"; "1969"; "1751"; "423bce"; "2026"]%string.

Definition unavailable : list N := ofAscii "Temporal data unavailable for this era.".
Definition noData : list N := ofAscii "No data available.".

(** The lines kept of a fetched text:
    [text.split('\n').map(line => line.trim()).filter(line => line.length > 0)] *)
Definition factLines (text : list N) : list (list N) :=
  List.filter (fun line => (0 <? length line)%nat) (map trim (split 10%N text)).

(** [loadAllFacts()], starting from the facts object [facts]. *)
Definition loadAllFacts (fetch : string -> Response)
    (facts : gmap string (list (list N))) : gmap string (list (list N)) :=
  fold_left (fun facts folder =>
               match fetch ("facts/" ++ folder ++ ".txt")%string with
               | Text text => <[folder := factLines text]> facts
               | Rejected => <[folder := [unavailable]]> facts
               end) folders facts.

(** [shuffleArray(array)]: Fisher-Yates from the last index down to 1;
    [rnd i] stands for the value [Math.random()] gives in the round of
    index [i], so that [j] ranges over [0..i]. *)
Definition swap {A} (i j : nat) (l : list A) : list A :=
  match l !! i, l !! j with
  | Some x, Some y => <[j := x]> (<[i := y]> l)
  | _, _ => l
  end.

Fixpoint shuffleFrom {A} (n : nat) (rnd : nat -> nat) (l : list A) : list A :=
  match n with
  | O => l
  | S i =>
      match i with
      | O => l
      | S _ => shuffleFrom i rnd (swap i (rnd i mod (i + 1))%nat l)
      end
  end.

Definition shuffleArray {A} (rnd : nat -> nat) (l : list A) : list A :=
  shuffleFrom (length l) rnd l.

(** The ticker [startFactsRotation] renders: the text of its two spans
    and the animation duration [contentWidth / scrollSpeed] in seconds,
    kept as the fraction [durationNum / durationDen]. *)
Record Ticker := {
  spans : list (list N);
  durationNum : Z;
  durationDen : Z
}.

Definition separator : list N := [32; 9670; 32]%N.

(** The fact set the ticker is rendered from:
    [this.facts[folder] || ['No data available.']]; an array, even an
    empty one, is truthy. *)
Definition tickerFacts (facts : gmap string (list (list N))) (folder : string) : list (list N) :=
  match facts !! folder with
  | Some l => l
  | None => [noData]
  end.

(** [startFactsRotation(folder)] *)
Definition startFactsRotation (rnd : nat -> nat)
    (facts : gmap string (list (list N))) (folder : string) : Ticker :=
  let shuffledFacts := shuffleArray rnd (tickerFacts facts folder) in
  let allFacts := join separator shuffledFacts ++ separator in
  let charWidth := 10 in
  let contentWidth := Z.of_nat (length allFacts) * charWidth in
  let scrollSpeed := 150 in
  {| spans := [allFacts; allFacts];
     durationNum := contentWidth; durationDen := scrollSpeed |}.

End Facts.

(** ** What the page shows and plays, in the order it happens *)

Inductive Event :=
| SlideshowPaused                       (* slideshow.pause() *)
| WormholeShown (yearDisplay : string)  (* start(): tunnel, sound and particles on *)
| EffectsHalted                         (* stop(): rotation, particles and loop sound off *)
| ArrivalSound                          (* playArrivalSound() *)
| FlashBegun                            (* arrivalFlash(): the animation starts *)
| FlashSettled                          (* onfinish: the promise of arrivalFlash resolves *)
| WormholeHidden                        (* stop(): container hidden, isActive = false *)
| Commit (yearKey : Z) (animate : bool)
                                        (* goToYear(yearKey, animate):
                                           this.currentYearKey = yearKey *)
| LoadYear (folder : string) (mediaList : list string)   (* slideshow.loadYear(..) *)
| TickerBuilt (folder : string) (factSet : list (list N))
                                        (* startFactsRotation(folder), with the
                                           facts it shuffles and renders *)
| ScheduledTravel (currentHour scheduledYearKey : Z)
                                        (* checkScheduledTravel: "Scheduled time travel triggered" *)
| Glitch.                               (* glitchManager.triggerRandomGlitch() *)

(** ** The wormhole manager (class WormholeManager) *)

Module Wormhole.

Record WormholeManager := {
  isActive : bool;
  targetYear : option string
}.

(** [new WormholeManager()] *)
Definition newWormhole : WormholeManager :=
  {| isActive := false; targetYear := None |}.

(** [isRunning()] *)
Definition isRunning (wh : WormholeManager) : bool := isActive wh.

(** [start(yearDisplay)] *)
Definition start (yearDisplay : string) (wh : WormholeManager) : WormholeManager * list Event :=
  if isActive wh then (wh, [])
  else ({| isActive := true; targetYear := Some yearDisplay |},
        [WormholeShown yearDisplay]).

(** [stop()] up to [await this.arrivalFlash()].  The boolean tells
    whether the call is suspended there; [false] is the early return of
    an inactive wormhole. *)
Definition stopBegin (wh : WormholeManager) : WormholeManager * list Event * bool :=
  if negb (isActive wh) then (wh, [], false)
  else (wh, [EffectsHalted; ArrivalSound; FlashBegun], true).

(** [stop()] from the moment the flash animation has finished. *)
Definition stopFinish (wh : WormholeManager) : WormholeManager * list Event :=
  ({| isActive := false; targetYear := targetYear wh |},
   [FlashSettled; WormholeHidden]).

End Wormhole.

(** ** The slideshow manager, as the coordinator drives it *)

Module Slideshow.

(** The auto-advance timer and the loaded period; the media elements
    themselves are outside the model. *)
Record SlideshowManager := {
  intervalId : bool;              (* an auto-advance interval is set *)
  currentYear : option string;
  mediaCount : nat
}.

Definition newSlideshow : SlideshowManager :=
  {| intervalId := false; currentYear := None; mediaCount := O |}.

(** [pause()] *)
Definition pause (s : SlideshowManager) : SlideshowManager :=
  {| intervalId := false; currentYear := currentYear s;
     mediaCount := mediaCount s |}.

(** [loadYear(yearKey, manifest)] *)
Definition loadYear (yearKey : string) (mediaList : list string) (s : SlideshowManager) : SlideshowManager :=
  {| intervalId := negb (Nat.eqb (length mediaList) O);
     currentYear := Some yearKey;
     mediaCount := length mediaList |}.

End Slideshow.

(** ** The coordinator (class TimeMachine) *)

Module App.

Record Year := {
  year : string;
  era : string;
  folder : string;
  display : string
}.

(** [this.years] and [this.schedule]: assigned by the constructor and
    never written again. *)
Definition years : gmap Z Year :=
  <[1 := {| year := "2025"; era := "CE"; folder := "2025"; display := "2025 CE" |}]>
  (<[2 := {| year := "1969"; era := "CE"; folder := "1969"; display := "1969 CE" |}]>
  (<[3 := {| year := "1751"; era := "CE"; folder := "1751"; display := "1751 CE" |}]>
  (<[4 := {| year := "423"; era := "BCE"; folder := "423bce"; display := "423 BCE" |}]>
  (<[5 := {| year := "2026"; era := "CE"; folder := "2026"; display := "2026 CE" |}]>
  ∅)))).

Definition schedule : gmap Z Z :=
  <[20 := 1]> (<[21 := 2]> (<[22 := 3]> (<[23 := 4]> (<[0 := 5]> (<[12 := 4]> ∅))))).

Record TimeMachine := {
  currentYearKey : Z;
  manifest : gmap string (list string);
  facts : gmap string (list (list N));
  lastScheduledHour : option Z;   (* null is None *)
  pendingYearKey : option Z       (* undefined and null are None *)
}.

(** The calls of the coordinator's [async] methods that are suspended. *)
Inductive Task :=
| AutoHold (yearKey : Z)
    (* initiateAutomaticTimeTravel at [await this.wait(4000)] *)
| Arriving (manual : bool) (yearKey : Z)
    (* completeTimeTravel ([manual]) or initiateAutomaticTimeTravel at
       [await wormholeManager.stop()], itself at [await this.arrivalFlash()] *)
| FadeOut (yearKey : Z) (yearConfig : Year).
    (* goToYear(yearKey, true) at [await this.wait(200)] *)

Record World := {
  tm : TimeMachine;
  wormhole : Wormhole.WormholeManager;
  slideshow : Slideshow.SlideshowManager;
  chimes : Chimes.ChimesManager;
  tasks : list Task;
  trace : list Event              (* oldest first *)
}.

(** The page after the constructors have run. *)
Definition fresh (bell : option Chimes.AudioElement) : World :=
  {| tm := {| currentYearKey := 1; manifest := ∅; facts := ∅;
              lastScheduledHour := None; pendingYearKey := None |};
     wormhole := Wormhole.newWormhole;
     slideshow := Slideshow.newSlideshow;
     chimes := Chimes.newChimes bell;
     tasks := [];
     trace := [] |}.

Definition set_tm (t : TimeMachine) (w : World) : World :=
  {| tm := t; wormhole := wormhole w; slideshow := slideshow w;
     chimes := chimes w; tasks := tasks w; trace := trace w |}.

Definition set_wormhole (wh : Wormhole.WormholeManager) (w : World) : World :=
  {| tm := tm w; wormhole := wh; slideshow := slideshow w;
     chimes := chimes w; tasks := tasks w; trace := trace w |}.

Definition set_slideshow (s : Slideshow.SlideshowManager) (w : World) : World :=
  {| tm := tm w; wormhole := wormhole w; slideshow := s;
     chimes := chimes w; tasks := tasks w; trace := trace w |}.

Definition set_chimes (c : Chimes.ChimesManager) (w : World) : World :=
  {| tm := tm w; wormhole := wormhole w; slideshow := slideshow w;
     chimes := c; tasks := tasks w; trace := trace w |}.

Definition set_tasks (ts : list Task) (w : World) : World :=
  {| tm := tm w; wormhole := wormhole w; slideshow := slideshow w;
     chimes := chimes w; tasks := ts; trace := trace w |}.

Definition emit (es : list Event) (w : World) : World :=
  {| tm := tm w; wormhole := wormhole w; slideshow := slideshow w;
     chimes := chimes w; tasks := tasks w; trace := trace w ++ es |}.

Definition spawn (t : Task) (w : World) : World :=
  set_tasks (tasks w ++ [t]) w.

Definition set_currentYearKey (k : Z) (w : World) : World :=
  set_tm {| currentYearKey := k; manifest := manifest (tm w);
            facts := facts (tm w);
            lastScheduledHour := lastScheduledHour (tm w);
            pendingYearKey := pendingYearKey (tm w) |} w.

Definition set_lastScheduledHour (h : option Z) (w : World) : World :=
  set_tm {| currentYearKey := currentYearKey (tm w);
            manifest := manifest (tm w); facts := facts (tm w);
            lastScheduledHour := h;
            pendingYearKey := pendingYearKey (tm w) |} w.

Definition set_pendingYearKey (k : option Z) (w : World) : World :=
  set_tm {| currentYearKey := currentYearKey (tm w);
            manifest := manifest (tm w); facts := facts (tm w);
            lastScheduledHour := lastScheduledHour (tm w);
            pendingYearKey := k |} w.

Definition set_manifest (m : gmap string (list string)) (w : World) : World :=
  set_tm {| currentYearKey := currentYearKey (tm w); manifest := m;
            facts := facts (tm w);
            lastScheduledHour := lastScheduledHour (tm w);
            pendingYearKey := pendingYearKey (tm w) |} w.

Definition set_facts (f : gmap string (list (list N))) (w : World) : World :=
  set_tm {| currentYearKey := currentYearKey (tm w);
            manifest := manifest (tm w); facts := f;
            lastScheduledHour := lastScheduledHour (tm w);
            pendingYearKey := pendingYearKey (tm w) |} w.

(** [loadManifest()]; [fetched] is the object [response.json()] gives,
    or [None] when the fetch or the parse fails. *)
Definition loadManifest (fetched : option (gmap string (list string))) (w : World) : World :=
  match fetched with
  | Some m => set_manifest m w
  | None =>
      set_manifest
        (<["2025"%string := []]> (<["1969"%string := []]> (<["1751"%string := []]>
         (<["423bce"%string := []]> (<["2026"%string := []]> ∅))))) w
  end.

(** [slideshow.pause()] *)
Definition pauseSlideshow (w : World) : World :=
  emit [SlideshowPaused] (set_slideshow (Slideshow.pause (slideshow w)) w).

(** [wormholeManager.start(yearDisplay)] *)
Definition startWormhole (yearDisplay : string) (w : World) : World :=
  let (wh, es) := Wormhole.start yearDisplay (wormhole w) in
  emit es (set_wormhole wh w).

(** [goToYear] from [slideshow.loadYear] on, after the fade if any:
    [this.manifest[yearConfig.folder] || []] is loaded and the ticker
    of the folder is rebuilt. *)
Definition showYear (yearConfig : Year) (w : World) : World :=
  let mediaList := default [] (manifest (tm w) !! folder yearConfig) in
  emit [LoadYear (folder yearConfig) mediaList;
        TickerBuilt (folder yearConfig)
          (Facts.tickerFacts (facts (tm w)) (folder yearConfig))]
       (set_slideshow (Slideshow.loadYear (folder yearConfig) mediaList (slideshow w)) w).

(** [goToYear(yearKey, animate)] up to [await this.wait(200)]. *)
Definition goToYear (yearKey : Z) (animate : bool) (w : World) : World :=
  match years !! yearKey with
  | None => w
  | Some yearConfig =>
      let w1 := emit [Commit yearKey animate] (set_currentYearKey yearKey w) in
      if animate then spawn (FadeOut yearKey yearConfig) w1
      else showYear yearConfig w1
  end.

(** [await wormholeManager.stop(); await this.goToYear(yearKey, true)],
    the common tail of both completion paths. *)
Definition stopThenGo (manual : bool) (yearKey : Z) (w : World) : World :=
  match Wormhole.stopBegin (wormhole w) with
  | (wh, es, true) => spawn (Arriving manual yearKey) (emit es (set_wormhole wh w))
  | (wh, es, false) => goToYear yearKey true (emit es (set_wormhole wh w))
  end.

(** [initiateTimeTravel(yearKey)].  Reading [destination.display] of a
    key that [this.years] lacks throws, and the call ends there. *)
Definition initiateTimeTravel (yearKey : Z) (w : World) : World :=
  if Wormhole.isRunning (wormhole w) then w
  else match years !! yearKey with
       | None => w
       | Some destination =>
           startWormhole (display destination)
             (set_pendingYearKey (Some yearKey) (pauseSlideshow w))
       end.

(** [!this.pendingYearKey] *)
Definition noPending (p : option Z) : bool :=
  match p with
  | Some k => k =? 0
  | None => true
  end.

(** [completeTimeTravel()] up to its first suspension. *)
Definition completeTimeTravel (w : World) : World :=
  if noPending (pendingYearKey (tm w)) then w
  else match pendingYearKey (tm w) with
       | Some yearKey => stopThenGo true yearKey (set_pendingYearKey None w)
       | None => w
       end.

(** [initiateAutomaticTimeTravel(yearKey)] up to [await this.wait(4000)]. *)
Definition initiateAutomaticTimeTravel (yearKey : Z) (w : World) : World :=
  match years !! yearKey with
  | None => w
  | Some destination =>
      spawn (AutoHold yearKey)
        (startWormhole (display destination) (pauseSlideshow w))
  end.

(** [checkScheduledTravel(currentHour)] *)
Definition checkScheduledTravel (currentHour : Z) (w : World) : World :=
  if Wormhole.isRunning (wormhole w) then w
  else match schedule !! currentHour with
       | None => set_lastScheduledHour None w
       | Some scheduledYearKey =>
           if bool_decide (lastScheduledHour (tm w) = Some currentHour) then w
           else if currentYearKey (tm w) =? scheduledYearKey
                then set_lastScheduledHour (Some currentHour) w
                else initiateAutomaticTimeTravel scheduledYearKey
                       (set_lastScheduledHour (Some currentHour)
                          (emit [ScheduledTravel currentHour scheduledYearKey] w))
       end.

(** [updateClock()]: of what it does, the call of
    [checkScheduledTravel(now.getHours())] changes the coordinator. *)
Definition updateClock (hours : Z) (w : World) : World :=
  checkScheduledTravel hours w.

(** A [keydown] event, as the listener reads it. *)
Record KeyboardEvent := {
  key : string;
  code : string
}.

(** [parseInt(s)] of a string that starts with a decimal digit, which is
    all the listener passes: the value of its longest prefix of digits. *)
Definition digitValue (c : ascii) : option Z :=
  let n := Z.of_N (N_of_ascii c) in
  if (48 <=? n) && (n <=? 57) then Some (n - 48) else None.

Fixpoint parseDigits (s : string) (acc : Z) : Z :=
  match s with
  | String c s' =>
      match digitValue c with
      | Some d => parseDigits s' (10 * acc + d)
      | None => acc
      end
  | EmptyString => acc
  end.

Definition parseInt (s : string) : Z := parseDigits s 0.

(** The [keydown] listener of [setupKeyboardControls]; [hours] is what
    [new Date().getHours()] gives when the event is handled. *)
Definition onKeyDown (e : KeyboardEvent) (hours : Z) (w : World) : World :=
  let w1 :=
    if String.leb "1" (key e) && String.leb (key e) "5" then
      let yearKey := parseInt (key e) in
      if bool_decide (is_Some (years !! yearKey))
         && negb (yearKey =? currentYearKey (tm w))
      then initiateTimeTravel yearKey w else w
    else w in
  let w2 :=
    if String.eqb (key e) " " || String.eqb (code e) "Space" then
      if Wormhole.isRunning (wormhole w1) then completeTimeTravel w1 else w1
    else w1 in
  let w3 :=
    if String.eqb (key e) "t" || String.eqb (key e) "T" then
      set_chimes (Chimes.testChime 3 (chimes w2)) w2
    else w2 in
  let w4 :=
    if String.eqb (key e) "b" || String.eqb (key e) "B" then
      let hour := if Z.rem hours 12 =? 0 then 12 else Z.rem hours 12 in
      set_chimes (Chimes.testChime hour (chimes w3)) w3
    else w3 in
  if String.eqb (key e) "g" || String.eqb (key e) "G" then emit [Glitch] w4
  else w4.

(** What the page finds when it loads: its bell element, the results of
    its fetches, and the time its two clocks first read. *)
Record Boot := {
  bell : option Chimes.AudioElement;
  fetchedManifest : option (gmap string (list string));
  fetchFacts : string -> Facts.Response;
  chimeHours : Z;
  chimeMinutes : Z;
  clockHours : Z
}.

(** [init()].  The listeners and intervals of the page are installed
    only after the two loads, so nothing interleaves with it:
    [chimesManager.start()] checks the time at once, [startClock()]
    updates the clock at once, then [goToYear(1, false)] runs without
    suspension. *)
Definition init (b : Boot) (w : World) : World :=
  let w1 := loadManifest (fetchedManifest b) w in
  let w2 := set_facts (Facts.loadAllFacts (fetchFacts b) (facts (tm w1))) w1 in
  let w3 := set_chimes (Chimes.checkTime (chimeHours b) (chimeMinutes b) (chimes w2)) w2 in
  let w4 := updateClock (clockHours b) w3 in
  goToYear 1 false w4.

(** The page once [init()] has run. *)
Definition booted (b : Boot) : World := init b (fresh (bell b)).

(** A suspended call resumes: its timer fired or the flash finished. *)
Definition resume (t : Task) (w : World) : World :=
  match t with
  | AutoHold yearKey => stopThenGo false yearKey w
  | Arriving _ yearKey =>
      let (wh, es) := Wormhole.stopFinish (wormhole w) in
      goToYear yearKey true (emit es (set_wormhole wh w))
  | FadeOut _ yearConfig => showYear yearConfig w
  end.

Inductive Input :=
| KeyDown (e : KeyboardEvent) (hours : Z)
| ClockTick (hours : Z)             (* the 1 s interval of startClock() *)
| TimerFires (n : nat)              (* what the n-th suspended call awaits *)
| ChimeInput (c : Chimes.Signal).    (* the chime interval and its promises *)

Definition step (w : World) (i : Input) : World :=
  match i with
  | KeyDown e hours => onKeyDown e hours w
  | ClockTick hours => updateClock hours w
  | TimerFires n =>
      match tasks w !! n with
      | Some t => resume t (set_tasks (delete n (tasks w)) w)
      | None => w
      end
  | ChimeInput c => set_chimes (Chimes.handle (chimes w) c) w
  end.

Definition run (inputs : list Input) (w : World) : World :=
  fold_left step inputs w.

(** *** Readings of a world and of its trace *)

(** The suspended calls that keep a transition episode open. *)
Definition holdsEpisode (t : Task) : bool :=
  match t with
  | AutoHold _ | Arriving _ _ => true
  | FadeOut _ _ => false
  end.

Definition episodes (ts : list Task) : nat :=
  length (List.filter holdsEpisode ts).

Definition fades (ts : list Task) : nat :=
  length (List.filter (fun t => negb (holdsEpisode t)) ts).

(** The wormhole is active exactly while an episode is open: either a
    manual one that waits for the space bar, its destination pending,
    or one whose timer or flash is awaited, nothing pending. *)
Definition coherent (w : World) : Prop :=
  if Wormhole.isActive (wormhole w)
  then (is_Some (pendingYearKey (tm w) ≫= (years !!.)) /\ episodes (tasks w) = O)
       \/ (pendingYearKey (tm w) = None /\ episodes (tasks w) = 1%nat)
  else pendingYearKey (tm w) = None /\ episodes (tasks w) = O.

(** Where a trace stands with respect to the arrival flash: just after
    [FlashSettled], just after [FlashSettled; WormholeHidden], or
    elsewhere.  A [Commit] of [goToYear(_, true)], the call that ends a
    transition, is admitted only in the second position. *)
Inductive FlashPhase := Elsewhere | Settled | Hidden.

Definition flashStep (acc : option FlashPhase) (e : Event) : option FlashPhase :=
  match acc with
  | None => None
  | Some ph =>
      match e with
      | FlashSettled => Some Settled
      | WormholeHidden =>
          Some (match ph with Settled => Hidden | _ => Elsewhere end)
      | Commit _ true =>
          match ph with Hidden => Some Elsewhere | _ => None end
      | _ => Some Elsewhere
      end
  end.

Definition flashTrack (tr : list Event) : option FlashPhase :=
  fold_left flashStep tr (Some Elsewhere).

(** The commits of a trace whose media reload has not begun yet; a
    [LoadYear] is admitted only when one is owed. *)
Definition owedStep (acc : option nat) (e : Event) : option nat :=
  match acc with
  | None => None
  | Some n =>
      match e with
      | Commit _ _ => Some (S n)
      | LoadYear _ _ => match n with O => None | S n' => Some n' end
      | _ => Some n
      end
  end.

Definition owed (tr : list Event) : option nat :=
  fold_left owedStep tr (Some O).

Definition commits (tr : list Event) : nat :=
  length (List.filter (fun e => match e with Commit _ _ => true | _ => false end) tr).

Definition loads (tr : list Event) : nat :=
  length (List.filter (fun e => match e with LoadYear _ _ => true | _ => false end) tr).

Definition scheduledTravels (tr : list Event) : nat :=
  length (List.filter (fun e => match e with ScheduledTravel _ _ => true | _ => false end) tr).

(** The key of the last [Commit] of a trace; the constructor's 1 when
    there is none. *)
Definition lastCommitted (tr : list Event) : Z :=
  fold_left (fun acc e => match e with Commit k _ => k | _ => acc end) tr 1.

(** What holds of every world the page can reach. *)
Record sound (w : World) : Prop := {
  sound_coherent : coherent w;
  sound_flash : flashTrack (trace w) <> None;
  sound_owed : owed (trace w) = Some (fades (tasks w));
  sound_current : currentYearKey (tm w) = lastCommitted (trace w)
}.

(** The [key] of the digit [P], for [P] from 0 to 9. *)
Definition digitKey (P : Z) : string :=
  String (ascii_of_N (Z.to_N (48 + P))) EmptyString.

(** A page that finds nothing: no bell element, no manifest, no facts,
    at half past one in the afternoon, an hour without schedule entry. *)
Definition bareBoot : Boot :=
  {| bell := None; fetchedManifest := None;
     fetchFacts := fun _ => Facts.Rejected;
     chimeHours := 13; chimeMinutes := 30; clockHours := 13 |}.

(** The events of the key 3 and of the space bar. *)
Definition digit3 : KeyboardEvent := {| key := "3"; code := "Digit3" |}.
Definition spaceBar : KeyboardEvent := {| key := " "; code := "Space" |}.

(** The events that neither commit a period nor reload media. *)
Definition neutral (e : Event) : bool :=
  match e with
  | Commit _ _ | LoadYear _ _ => false
  | _ => true
  end.

(** The schedule cursor and the count of scheduled travels triggered
    are the same in [w'] as in [w]. *)
Definition sameSchedule (w w' : World) : Prop :=
  lastScheduledHour (tm w') = lastScheduledHour (tm w)
  /\ scheduledTravels (trace w') = scheduledTravels (trace w).

(** Every clock tick among the inputs shows the hour [h]. *)
Definition ticksAt (h : Z) (inputs : list Input) : Prop :=
  forall h', In (ClockTick h') inputs -> h' = h.

End App.

(** ** The clock of the page (updateClock and updateStatusText) *)

Module Clock.

(** What [new Date()] shows: [getHours()], [getMinutes()], [getSeconds()]. *)
Record Moment := {
  hours : Z;
  minutes : Z;
  seconds : Z
}.

(** [n.toString()] of a whole number. *)
Definition toString (n : Z) : string :=
  DecimalString.NilZero.string_of_int (Z.to_int n).

Fixpoint replicate (n : nat) (c : ascii) : string :=
  match n with
  | O => EmptyString
  | S n' => String c (replicate n' c)
  end.

(** [s.padStart(targetLength, c)] for a pad string of one character. *)
Definition padStart (targetLength : nat) (c : ascii) (s : string) : string :=
  (replicate (targetLength - String.length s) c ++ s)%string.

(** The clock element after [updateClock()]: its text and whether its
    container carries the class [countdown-mode]. *)
Record ClockFace := {
  clockTime : string;
  countdownMode : bool
}.

(** [updateClock()], the part that writes the clock element. *)
Definition clockFace (now : Moment) : ClockFace :=
  let currentMinutes := minutes now in
  let currentSeconds := seconds now in
  let isCountdownMode := 50 <=? currentMinutes in
  if isCountdownMode then
    let minutesRemaining := 59 - currentMinutes in
    let secondsRemaining := 60 - currentSeconds in
    let displayMinutes :=
      if secondsRemaining =? 60 then minutesRemaining + 1 else minutesRemaining in
    let displaySeconds :=
      if secondsRemaining =? 60 then 0 else secondsRemaining in
    {| clockTime := ("00:" ++ padStart 2 "0" (toString displayMinutes)
                     ++ ":" ++ padStart 2 "0" (toString displaySeconds))%string;
       countdownMode := true |}
  else
    let hours := padStart 2 "0" (toString (hours now)) in
    let minutes := padStart 2 "0" (toString currentMinutes) in
    let seconds := padStart 2 "0" (toString currentSeconds) in
    {| clockTime := (hours ++ ":" ++ minutes ++ ":" ++ seconds)%string;
       countdownMode := false |}.

(** [updateStatusText(currentMinutes)] on a status element whose text
    is [statusText]: the text it has afterwards. *)
Definition updateStatusText (currentMinutes : Z) (statusText : string) : string :=
  let newStatus :=
    if currentMinutes <? 30 then "TEMPORAL CORE RECHARGING"%string
    else "TEMPORAL COORDINATES LOCKED"%string in
  if negb (String.eqb statusText newStatus) then newStatus else statusText.

(** The two-digit field of a clock text that starts at [pos], read as
    [parseInt] reads it. *)
Definition field (pos : nat) (text : string) : Z :=
  App.parseInt (substring pos 2 text).

End Clock.

(** ** The text scramble of the glitch effects (class GlitchManager) *)

Module Glitch.

(** [this.glitchChars], code unit by code unit. *)
Definition glitchChars : list N :=
  [9608; 9619; 9618; 9617; 9556; 9559; 9562; 9565; 9553; 9552; 9580; 9532;
   9508; 9500; 9524; 9516; 9474; 9472; 64; 35; 36; 37; 38; 42; 33; 63; 60;
   62; 91; 93; 123; 125]%N.

(** An element whose text is scrambled, as far as the effect and the
    coordinator read and write it. *)
Record Element := {
  textContent : list N;
  originalText : option (list N);   (* dataset.originalText; None is undefined *)
  scrambling : bool                 (* dataset.scrambling === 'true' *)
}.

(** The closure of one [setInterval] callback of [scrambleElement]. *)
Record Scramble := {
  original : list N;                (* const originalText *)
  iterations : Z;
  count : Z
}.

(** An element and the scramble intervals that run on it. *)
Record Target := {
  element : Element;
  intervals : list Scramble
}.

(** A page element before any effect touched it. *)
Definition plain (text : list N) : Target :=
  {| element := {| textContent := text; originalText := None; scrambling := false |};
     intervals := [] |}.

(** Truthiness of [element.dataset.originalText]. *)
Definition stored (o : option (list N)) : bool :=
  match o with
  | Some (_ :: _) => true
  | _ => false
  end.

(** The callback of [.map] in a frame.  [draw] is [None] when
    [Math.random() < scrambleChance] fails, and [Some k] when it holds,
    [k] standing for the value the second [Math.random()] gives. *)
Definition scrambleChar (draw : option nat) (char : N) : N :=
  if (char =? 32)%N then 32%N
  else match draw with
       | Some k => nth (k mod length glitchChars)%nat glitchChars char
       | None => char
       end.

(** [originalText.split('').map(..).join('')] *)
Definition frame (draws : nat -> option nat) (originalText : list N) : list N :=
  imap (fun i char => scrambleChar (draws i) char) originalText.

(** [scrambleElement(element)]; [duration] is what
    [randomRange(700, 3000)] gives. *)
Definition scrambleElement (duration : Z) (t : Target) : Target :=
  let e := element t in
  let e1 :=
    if negb (stored (originalText e))
    then {| textContent := textContent e; originalText := Some (textContent e);
            scrambling := scrambling e |}
    else e in
  let originalText' := default [] (originalText e1) in
  let intervalTime := 50 in
  let iterations := duration / intervalTime in
  {| element := {| textContent := textContent e1; originalText := originalText e1;
                   scrambling := true |};
     intervals := intervals t
                  ++ [{| original := originalText'; iterations := iterations;
                         count := 0 |}] |}.

(** [doTextScramble()] once this element is the target it picked. *)
Definition doTextScramble (duration : Z) (t : Target) : Target :=
  if scrambling (element t) then t else scrambleElement duration t.

(** The callback of the [n]-th interval runs once. *)
Definition tick (n : nat) (draws : nat -> option nat) (t : Target) : Target :=
  match intervals t !! n with
  | None => t
  | Some sc =>
      let e := element t in
      let count' := count sc + 1 in
      if iterations sc <=? count'
      then {| element := {| textContent := original sc;
                            originalText := originalText e;
                            scrambling := false |};
              intervals := delete n (intervals t) |}
      else {| element := {| textContent := frame draws (original sc);
                            originalText := originalText e;
                            scrambling := scrambling e |};
              intervals := <[n := {| original := original sc;
                                     iterations := iterations sc;
                                     count := count' |}]> (intervals t) |}
  end.

(** [element.textContent = text], as [goToYear] and [updateStatusText]
    write it. *)
Definition write (text : list N) (t : Target) : Target :=
  {| element := {| textContent := text;
                   originalText := originalText (element t);
                   scrambling := scrambling (element t) |};
     intervals := intervals t |}.

(** [syncYearDisplay()] on one of its two elements. *)
Definition syncYearDisplay (text : list N) (t : Target) : Target :=
  {| element := {| textContent := text; originalText := Some text;
                   scrambling := scrambling (element t) |};
     intervals := intervals t |}.

Inductive Action :=
| Pick (duration : Z)                         (* doTextScramble picks the element *)
| Tick (n : nat) (draws : nat -> option nat)  (* the n-th interval fires *)
| Write (text : list N)
| Sync (text : list N).

Definition act (t : Target) (a : Action) : Target :=
  match a with
  | Pick duration => doTextScramble duration t
  | Tick n draws => tick n draws t
  | Write text => write text t
  | Sync text => syncYearDisplay text t
  end.

Definition acts (l : list Action) (t : Target) : Target := fold_left act l t.

(** The firings of the first interval among the actions. *)
Definition firings (l : list Action) : nat :=
  length (List.filter (fun a => match a with Tick O _ => true | _ => false end) l).

End Glitch.

(** ** The slideshow manager in full (class SlideshowManager) *)

Module Media.

Record MediaItem := {
  src : string;
  isVideo : bool;
  filename : string
}.

(** What the two media elements are told to show. *)
Inductive Shown :=
| Placeholder              (* showPlaceholder() *)
| Image (src : string)     (* showImage(src) *)
| Video (src : string).    (* showVideo(src) *)

Record Player := {
  currentIndex : nat;
  mediaItems : list MediaItem;
  intervalId : bool;               (* an auto-advance interval is set *)
  currentYear : option string;
  isVideoPlaying : bool;
  shown : list Shown               (* oldest first *)
}.

(** [new SlideshowManager()] *)
Definition newPlayer : Player :=
  {| currentIndex := O; mediaItems := []; intervalId := false;
     currentYear := None; isVideoPlaying := false; shown := [] |}.

Definition set_intervalId (b : bool) (s : Player) : Player :=
  {| currentIndex := currentIndex s; mediaItems := mediaItems s;
     intervalId := b; currentYear := currentYear s;
     isVideoPlaying := isVideoPlaying s; shown := shown s |}.

Definition set_isVideoPlaying (b : bool) (s : Player) : Player :=
  {| currentIndex := currentIndex s; mediaItems := mediaItems s;
     intervalId := intervalId s; currentYear := currentYear s;
     isVideoPlaying := b; shown := shown s |}.

Definition set_currentIndex (i : nat) (s : Player) : Player :=
  {| currentIndex := i; mediaItems := mediaItems s;
     intervalId := intervalId s; currentYear := currentYear s;
     isVideoPlaying := isVideoPlaying s; shown := shown s |}.

Definition show (x : Shown) (s : Player) : Player :=
  {| currentIndex := currentIndex s; mediaItems := mediaItems s;
     intervalId := intervalId s; currentYear := currentYear s;
     isVideoPlaying := isVideoPlaying s; shown := shown s ++ [x] |}.

(** [stopAutoAdvance()] *)
Definition stopAutoAdvance (s : Player) : Player := set_intervalId false s.

(** [startAutoAdvance()] *)
Definition startAutoAdvance (s : Player) : Player :=
  set_intervalId true (stopAutoAdvance s).

(** [stop()] *)
Definition stop (s : Player) : Player :=
  set_isVideoPlaying false (stopAutoAdvance s).

(** [pause()] *)
Definition pause (s : Player) : Player := stopAutoAdvance s.

(** [resume()] *)
Definition resume (s : Player) : Player := startAutoAdvance s.

(** [showPlaceholder()] *)
Definition showPlaceholder (s : Player) : Player := show Placeholder s.

(** [showImage(src)] up to the load of the image. *)
Definition showImage (src : string) (s : Player) : Player :=
  show (Image src) (set_isVideoPlaying false s).

(** [showVideo(src)] up to the settlement of [play()]. *)
Definition showVideo (src : string) (s : Player) : Player :=
  show (Video src) (stopAutoAdvance (set_isVideoPlaying true s)).

(** [showCurrent()].  [None]: reading [item.isVideo] of an index the
    array lacks throws. *)
Definition showCurrent (s : Player) : option Player :=
  if (length (mediaItems s) =? 0)%nat then Some s
  else match mediaItems s !! currentIndex s with
       | Some item =>
           Some (if isVideo item then showVideo (src item) s
                 else showImage (src item) s)
       | None => None
       end.

(** [advance()] *)
Definition advance (s : Player) : option Player :=
  if (length (mediaItems s) =? 0)%nat then Some s
  else showCurrent
         (set_currentIndex ((currentIndex s + 1) mod length (mediaItems s))%nat s).

(** [onVideoEnded()] *)
Definition onVideoEnded (s : Player) : option Player :=
  s' ← advance (set_isVideoPlaying false s); Some (startAutoAdvance s').

(** The callback of the auto-advance interval, when one is set. *)
Definition onInterval (s : Player) : option Player :=
  if intervalId s
  then if negb (isVideoPlaying s) then advance s else Some s
  else Some s.

(** One media item of [loadYear]; [isVideoFile] is the test of the
    lower-cased extension against mp4, webm, mov and ogg. *)
Definition item (isVideoFile : string -> bool) (yearKey filename : string) : MediaItem :=
  {| src := ("images/" ++ yearKey ++ "/" ++ filename)%string;
     isVideo := isVideoFile filename;
     filename := filename |}.

(** [loadYear(yearKey, manifest)] *)
Definition loadYear (isVideoFile : string -> bool) (rnd : nat -> nat)
    (yearKey : string) (manifest : list string) (s : Player) : option Player :=
  let s1 := stop s in
  let s2 :=
    {| currentIndex := O;
       mediaItems := Facts.shuffleArray rnd (map (item isVideoFile yearKey) manifest);
       intervalId := intervalId s1; currentYear := Some yearKey;
       isVideoPlaying := isVideoPlaying s1; shown := shown s1 |} in
  if (length (mediaItems s2) =? 0)%nat then Some (showPlaceholder s2)
  else s3 ← showCurrent s2; Some (startAutoAdvance s3).

(** What happens to the slideshow. *)
Inductive Happening :=
| IntervalFires                 (* the auto-advance interval *)
| VideoEnded                    (* the [ended] event of the video element *)
| LoadFailed                    (* img.onerror, or play() rejected twice *)
| Paused                        (* pause(), from the coordinator *)
| Resumed                       (* resume() *)
| YearLoaded (rnd : nat -> nat) (yearKey : string) (manifest : list string).

Definition happen (isVideoFile : string -> bool) (s : Player) (h : Happening) : option Player :=
  match h with
  | IntervalFires => onInterval s
  | VideoEnded => onVideoEnded s
  | LoadFailed => advance s
  | Paused => Some (pause s)
  | Resumed => Some (resume s)
  | YearLoaded rnd yearKey manifest => loadYear isVideoFile rnd yearKey manifest s
  end.

(** A run stops at the first exception. *)
Fixpoint play (isVideoFile : string -> bool) (hs : list Happening) (s : Player) : option Player :=
  match hs with
  | [] => Some s
  | h :: hs' => s' ← happen isVideoFile s h; play isVideoFile hs' s'
  end.

(** What the coordinator's model keeps of a player. *)
Definition view (s : Player) : Slideshow.SlideshowManager :=
  {| Slideshow.intervalId := intervalId s;
     Slideshow.currentYear := currentYear s;
     Slideshow.mediaCount := length (mediaItems s) |}.

(** The player shows what its state says: the item at the index, a
    video playing exactly when that item is one. *)
Definition consistent (s : Player) : Prop :=
  match mediaItems s with
  | [] => currentIndex s = O /\ isVideoPlaying s = false
  | _ => exists item, mediaItems s !! currentIndex s = Some item
                      /\ isVideoPlaying s = isVideo item
  end.

End Media.

(** ** Further readings *)

Module Readings.
Import App.


(** The chime sequences a log records. *)
Definition shows (l : list Chimes.Effect) : nat :=
  length (List.filter (fun e => match e with Chimes.ShowIndicator _ => true | _ => false end) l).

(** From [w] to [w'] the loaded data are kept, and the current period
    and the schedule cursor, where they changed, changed to names the
    tables hold. *)
Definition evolves (w w' : World) : Prop :=
  manifest (tm w') = manifest (tm w)
  /\ facts (tm w') = facts (tm w)
  /\ (currentYearKey (tm w') = currentYearKey (tm w)
      \/ is_Some (years !! currentYearKey (tm w')))
  /\ (lastScheduledHour (tm w') = lastScheduledHour (tm w)
      \/ lastScheduledHour (tm w') = None
      \/ exists h, lastScheduledHour (tm w') = Some h /\ is_Some (schedule !! h)).

Definition settled (w : World) : Prop :=
  is_Some (years !! currentYearKey (tm w))
  /\ match lastScheduledHour (tm w) with
     | Some h => is_Some (schedule !! h)
     | None => True
     end.

(** No media are on show: the slideshow holds no item and no timer,
    and every load so far was of an empty list. *)
Definition mediaFree (w : World) : Prop :=
  (forall f, default [] (manifest (tm w) !! f) = [])
  /\ Slideshow.intervalId (slideshow w) = false
  /\ Slideshow.mediaCount (slideshow w) = O
  /\ forall f l, In (LoadYear f l) (trace w) -> l = [].

(** From [w] to [w'] the wormhole stayed closed, or it opened over a
    paused slideshow: the timer is off and the trace since [w] shows
    the pause right before the wormhole. *)
Definition opensPaused (w w' : World) : Prop :=
  Wormhole.isActive (wormhole w') = false
  \/ (Slideshow.intervalId (slideshow w') = false
      /\ exists pre d post,
           trace w' = trace w ++ pre ++ [SlideshowPaused; WormholeShown d] ++ post).

(** The folder of the period a key names. *)
Definition folderOf (k : Z) : option string := folder <$> years !! k.

(** The commits of a period with folder [f], the reloads of [f], and
    the suspended fades that will reload [f]. *)
Definition commitsFolder (f : string) (e : Event) : bool :=
  match e with
  | Commit k _ => bool_decide (folderOf k = Some f)
  | _ => false
  end.

Definition loadsFolder (f : string) (e : Event) : bool :=
  match e with
  | LoadYear f' _ => bool_decide (f' = f)
  | _ => false
  end.

Definition fadesFolder (f : string) (t : Task) : bool :=
  match t with
  | FadeOut _ yearConfig => bool_decide (folder yearConfig = f)
  | _ => false
  end.

Definition commitsOf (f : string) (tr : list Event) : nat :=
  length (List.filter (commitsFolder f) tr).

Definition loadsOf (f : string) (tr : list Event) : nat :=
  length (List.filter (loadsFolder f) tr).

Definition fadesOf (f : string) (ts : list Task) : nat :=
  length (List.filter (fadesFolder f) ts).

(** The commits of folder [f] in a trace whose reload has not begun
    yet; a reload of [f] is admitted only when one is owed. *)
Definition owedOfStep (f : string) (acc : option nat) (e : Event) : option nat :=
  match acc with
  | None => None
  | Some n =>
      if commitsFolder f e then Some (S n)
      else if loadsFolder f e then match n with O => None | S n' => Some n' end
      else Some n
  end.

Definition owedOf (f : string) (tr : list Event) : option nat :=
  fold_left (owedOfStep f) tr (Some O).

(** Every reload still owed is that of a suspended fade, folder by
    folder. *)
Definition reloadsOwed (w : World) : Prop :=
  forall f, owedOf f (trace w) = Some (fadesOf f (tasks w)).

End Readings.

(** * Properties of the chimes manager *)

Module ChimesProps.
Import Chimes.

(** ** The repeat count *)

(** C6: for an hour of the day h (0 to 23) the chime count is 12 when
    h mod 12 = 0, that is at hours 0 and 12, and h mod 12 otherwise; it
    always lies between 1 and 12. *)
Theorem getChimeCount_twelve_hour (h : Z) :
  0 <= h <= 23 ->
  getChimeCount h = (if h mod 12 =? 0 then 12 else h mod 12)
  /\ (h mod 12 = 0 <-> h = 0 \/ h = 12)
  /\ 1 <= getChimeCount h <= 12.
Proof.
  intros Hh. unfold getChimeCount.
  rewrite Z.rem_mod_nonneg by lia.
  pose proof (Z.mod_pos_bound h 12 ltac:(lia)) as Hb.
  split; [reflexivity|]. split.
  - split; intros H.
    + assert (h = 12 * (h / 12)) as Hd
        by (pose proof (Z.div_mod h 12 ltac:(lia)); lia).
      assert (0 <= h / 12 < 2) by (split; [apply Z.div_pos|apply Z.div_lt_upper_bound]; lia).
      lia.
    + destruct H as [->| ->]; reflexivity.
  - destruct (Z.eqb_spec (h mod 12) 0); lia.
Qed.

Lemma getChimeCount_twelve_hour_witness :
  getChimeCount 17 = 5 /\ getChimeCount 12 = 12 /\ 1 <= getChimeCount 0 <= 12.
Proof.
  pose proof (getChimeCount_twelve_hour 17 ltac:(lia)) as [H17 _].
  pose proof (getChimeCount_twelve_hour 12 ltac:(lia)) as [H12 _].
  pose proof (getChimeCount_twelve_hour 0 ltac:(lia)) as [_ [_ H0]].
  exact (conj H17 (conj H12 H0)).
Defined.

(** ** Readings of a log *)

Lemma strikes_app l1 l2 : strikes (l1 ++ l2) = (strikes l1 + strikes l2)%nat.
Proof. unfold strikes. now rewrite List.filter_app, length_app. Qed.

Lemma waits_app l1 l2 : waits (l1 ++ l2) = (waits l1 + waits l2)%nat.
Proof. unfold waits. now rewrite List.filter_app, length_app. Qed.

Lemma waitsAre_app d l1 l2 :
  waitsAre d (l1 ++ l2) = waitsAre d l1 && waitsAre d l2.
Proof. unfold waitsAre. apply forallb_app. Qed.

Lemma waitsSinceStrike_app l1 l2 :
  waitsSinceStrike l1 = O -> waitsSinceStrike (l1 ++ l2) = waitsSinceStrike l2.
Proof. unfold waitsSinceStrike. rewrite fold_left_app. now intros ->. Qed.

Lemma waitsSinceStrike_snoc_strike l tl :
  waitsSinceStrike tl = O -> waitsSinceStrike (l ++ Strike :: tl) = O.
Proof.
  unfold waitsSinceStrike. rewrite fold_left_app. simpl. auto.
Qed.

(** ** A sequence from start to end *)

Lemma settle_only p ok m :
  running m = [p] ->
  settle 0 ok m =
    match proceed p ok (set_running [] m) with
    | (m', Some p') => set_running [p'] m'
    | (m', None) => m'
    end.
Proof.
  intros Hr. unfold settle. rewrite Hr. simpl.
  destruct p; simpl; unfold loopHead, playBell;
    repeat match goal with |- context [if ?c then _ else _] => destruct c end;
    reflexivity.
Qed.

Ltac by_IH IH p' cur' :=
  match goal with
  | |- finished _ (drain _ _ ?m') ?pre _ _ =>
      destruct (IH p' m' pre cur') as [? ? ? ? ? (seq & Hlog & ? & ? & ? & Hws)];
      [reflexivity | simpl; lia | simpl; lia | simpl; now rewrite ?app_assoc | simpl | ]
  end.

Lemma drain_single plays fuel : forall p m pre cur,
  running m = [p] -> inLoop p -> (stepsLeft p <= fuel)%nat ->
  log m = pre ++ cur ->
  match p with AwaitDelay _ _ => True | _ => waitsSinceStrike cur = O end ->
  finished m (drain fuel plays m) pre cur p.
Proof.
  induction fuel as [|fuel IH]; intros p m pre cur Hr Hp Hf Hl Hw.
  { destruct p; simpl in *; lia. }
  simpl. rewrite Hr. rewrite (settle_only p _ m Hr).
  destruct m as [bell lch chm bd rn lg]; simpl in *; subst rn lg.
  destruct p as [i c|i c|i c]; simpl in *.
  - (* the play() promise settles *)
    destruct (plays i); simpl.
    + by_IH IH (AwaitRing i c) cur; [assumption|].
      split; simpl; try assumption. exists seq. auto.
    + by_IH IH (AwaitRing i c) (cur ++ [SynthBell]).
      { rewrite waitsSinceStrike_app by assumption. reflexivity. }
      split; simpl; try assumption. exists ([SynthBell] ++ seq).
      rewrite strikes_app, waits_app, waitsAre_app. simpl.
      rewrite <- app_assoc in Hlog, Hws. auto.
  - (* the strike has rung *)
    destruct (Z.ltb_spec i (c - 1)); simpl.
    + by_IH IH (AwaitDelay i c) (cur ++ [Wait bd]); [exact I|].
      split; simpl; try assumption. exists ([Wait bd] ++ seq).
      rewrite strikes_app, waits_app, waitsAre_app. simpl.
      rewrite <- app_assoc in Hlog, Hws. rewrite Z.eqb_refl.
      repeat split; auto; lia.
    + unfold loopHead. destruct (Z.ltb_spec (i + 1) c); [lia|]. simpl.
      assert (Hdone : forall m0, running m0 = [] -> drain fuel plays m0 = m0)
        by (intros m0 Hm0; destruct fuel; simpl; [|rewrite Hm0]; reflexivity).
      rewrite Hdone by reflexivity.
      split; simpl; try reflexivity.
      exists [HideIndicator]; rewrite <- app_assoc; repeat split; try reflexivity.
      all: try (replace (c - i - 1) with 0 by lia; reflexivity).
      rewrite waitsSinceStrike_app by assumption; reflexivity.
  - (* the delay is over *)
    unfold loopHead. destruct (Z.ltb_spec (i + 1) c); [|lia].
    unfold playBell. simpl. destruct (fileUsable bell); simpl.
    + by_IH IH (AwaitPlay (i + 1) c) (cur ++ [Strike; FilePlay]).
      { apply waitsSinceStrike_snoc_strike. reflexivity. }
      split; simpl; try assumption. exists ([Strike; FilePlay] ++ seq).
      rewrite strikes_app, waits_app, waitsAre_app. simpl.
      rewrite <- app_assoc in Hlog, Hws.
      repeat split; auto; lia.
    + by_IH IH (AwaitRing (i + 1) c) (cur ++ [Strike; SynthBell]).
      { apply waitsSinceStrike_snoc_strike. reflexivity. }
      split; simpl; try assumption. exists ([Strike; SynthBell] ++ seq).
      rewrite strikes_app, waits_app, waitsAre_app. simpl.
      rewrite <- app_assoc in Hlog, Hws.
      repeat split; auto; lia.
Qed.

Lemma drain_idle fuel plays m : running m = [] -> drain fuel plays m = m.
Proof. intros H. destruct fuel; simpl; [|rewrite H]; reflexivity. Qed.

(** An accepted [chime(N)], left alone, strikes N times. *)
Lemma chime_uninterrupted (m : ChimesManager) (N : Z) (plays : Z -> bool) (fuel : nat) :
  present (audioBell m) = true -> isChiming m = false -> running m = [] ->
  (3 * Z.to_nat N <= fuel)%nat ->
  let m' := drain fuel plays (suspend (chime N m)) in
  running m' = [] /\ isChiming m' = false
  /\ lastChimeHour m' = lastChimeHour m
  /\ exists seq, log m' = log m ++ seq
       /\ strikes seq = Z.to_nat N /\ waits seq = Z.to_nat (N - 1)
       /\ waitsAre (bellDelay m) seq = true /\ waitsSinceStrike seq = O.
Proof.
  intros Hb Hc Hr Hf. unfold chime. rewrite Hc, Hb. simpl.
  unfold loopHead. destruct (Z.ltb_spec 0 N) as [HN|HN].
  - destruct m as [bell lch chm bd rn lg]; simpl in *; subst rn chm.
    unfold playBell; simpl.
    assert (Hn : Z.to_nat N = S (Z.to_nat (N - 1))) by lia.
    destruct (fileUsable bell); simpl;
      match goal with
      | |- context [drain _ _ (set_running [?p] (note [Strike; ?x] ?m1))] =>
          destruct (drain_single plays fuel p
                      (set_running [p] (note [Strike; x] m1)) lg
                      [ShowIndicator N; Strike; x])
            as [? ? ? ? ? (seq & Hlog & Hs & Hw & ? & Hws)];
          [reflexivity | simpl; lia | simpl; lia
          | simpl; now rewrite <- app_assoc | reflexivity | ];
          repeat split; try assumption;
          exists ([ShowIndicator N; Strike; x] ++ seq)
      end.
    all: rewrite strikes_app, waits_app, waitsAre_app, Hs, Hw, Hn.
    all: replace (N - 0 - 1) with (N - 1) by lia.
    all: repeat split; auto.
  - rewrite drain_idle by exact Hr. simpl.
    repeat split; try reflexivity; try assumption.
    exists [ShowIndicator N; HideIndicator]. rewrite <- app_assoc.
    repeat split; try reflexivity.
    all: replace (Z.to_nat N) with O by lia; try reflexivity.
    replace (Z.to_nat (N - 1)) with O by lia. reflexivity.
Qed.

Lemma handle_frame m e :
  audioBell (handle m e) = audioBell m /\ bellDelay (handle m e) = bellDelay m.
Proof.
  destruct e as [h mi|c|n ok]; simpl.
  - unfold checkTime, chime, loopHead, playBell, suspend.
    repeat match goal with |- context [if ?c then _ else _] => destruct c; simpl end;
      auto.
  - unfold testChime, chime, loopHead, playBell, suspend.
    repeat match goal with |- context [if ?c then _ else _] => destruct c; simpl end;
      auto.
  - unfold settle. destruct (running m !! n) as [p|]; [|auto].
    destruct p; simpl; unfold loopHead, playBell;
      repeat match goal with |- context [if ?c then _ else _] => destruct c; simpl end;
      auto.
Qed.

Lemma handleAll_snoc es e m : handleAll (es ++ [e]) m = handle (handleAll es m) e.
Proof. unfold handleAll. now rewrite fold_left_app. Qed.

(** ** Every reachable manager is sequenced *)

Lemma seqTrack_snoc d l es :
  seqTrack d (l ++ es) = fold_left (seqStep d) es (seqTrack d l).
Proof. unfold seqTrack. apply fold_left_app. Qed.

Lemma seqStep_none d es : fold_left (seqStep d) es None = None.
Proof. induction es; simpl; auto. Qed.

Lemma spawn_chime_sequenced c m : sequenced m -> sequenced (suspend (chime c m)).
Proof.
  unfold chime. intros H.
  destruct (isChiming m) eqn:Hc; simpl; [exact H|].
  destruct (present (audioBell m)); simpl; [|exact H].
  destruct H as [Hd H]. unfold sequenced.
  destruct (running m) as [|p [|q r]] eqn:Hr.
  - destruct H as [_ Hl].
    unfold loopHead, playBell.
    destruct (Z.ltb_spec 0 c) as [Hlt|Hge]; [destruct (fileUsable _)|];
      simpl; rewrite ?Hr; simpl; rewrite <- ?app_assoc, seqTrack_snoc, Hl; simpl.
    + apply Z.ltb_lt in Hlt as Hlt'. rewrite Hlt'. simpl. repeat split; auto; lia.
    + apply Z.ltb_lt in Hlt as Hlt'. rewrite Hlt'. simpl. repeat split; auto; lia.
    + replace (Z.max 0 c) with 0 by lia. simpl. auto.
  - destruct p; destruct H as (H & _); congruence.
  - destruct p; contradiction.
Qed.

Lemma settle_sequenced n ok m : sequenced m -> sequenced (settle n ok m).
Proof.
  intros [Hd H]. unfold sequenced in *.
  destruct (running m) as [|p [|q r]] eqn:Hr.
  - unfold settle. rewrite Hr. simpl. rewrite Hr. auto.
  - destruct n as [|n]; [|unfold settle; rewrite Hr; simpl; rewrite Hr; auto].
    rewrite (settle_only p ok m Hr).
    destruct m as [bell lch chm bd rn lg]; simpl in *; subst rn bd.
    destruct p as [i c|i c|i c]; simpl.
    + destruct H as (Hc & Hi & Hl).
      destruct ok; simpl; rewrite ?seqTrack_snoc, ?Hl; simpl; auto.
      assert ((0 <? i + 1) = true) as -> by (apply Z.ltb_lt; lia).
      simpl. auto.
    + destruct H as (Hc & Hi & Hl).
      destruct (Z.ltb_spec i (c - 1)); simpl.
      * rewrite seqTrack_snoc, Hl. simpl.
        assert ((0 <? i + 1) = true) as -> by (apply Z.ltb_lt; lia).
        assert ((i + 1 <? c) = true) as -> by (apply Z.ltb_lt; lia).
        simpl. repeat split; auto; lia.
      * unfold loopHead. destruct (Z.ltb_spec (i + 1) c); [lia|]. simpl.
        rewrite seqTrack_snoc, Hl. simpl.
        assert ((i + 1 =? Z.max 0 c) = true) as -> by (apply Z.eqb_eq; lia).
        auto.
    + destruct H as (Hc & Hi & Hi' & Hl).
      unfold loopHead. destruct (Z.ltb_spec (i + 1) c); [|lia].
      unfold playBell. simpl.
      destruct (fileUsable bell); simpl; rewrite seqTrack_snoc, Hl; simpl.
      all: assert ((i + 1 <? c) = true) as -> by (apply Z.ltb_lt; lia).
      all: rewrite orb_true_r; simpl.
      all: assert ((0 <? i + 1 + 1) = true) as -> by (apply Z.ltb_lt; lia).
      all: simpl; repeat split; auto; lia.
  - destruct p; contradiction.
Qed.

Lemma handle_sequenced m e : sequenced m -> sequenced (handle m e).
Proof.
  intros H. destruct e as [h mi|c|n ok]; simpl.
  - unfold checkTime. destruct (_ && _); [|exact H].
    apply spawn_chime_sequenced.
    destruct H as [Hd H]. split; [exact Hd|exact H].
  - now apply spawn_chime_sequenced.
  - now apply settle_sequenced.
Qed.

Lemma handleAll_sequenced bell es : sequenced (handleAll es (newChimes bell)).
Proof.
  induction es as [|e es IH] using rev_ind.
  - split; simpl; auto.
  - rewrite handleAll_snoc. now apply handle_sequenced.
Qed.

(** What an admitted log says of the body of each of its sequences. *)
Lemma seqTrack_body d body : forall c n w acc st,
  fold_left (seqStep d) body (Some (Struck c n w)) = Some st ->
  ~ In HideIndicator body -> 0 <= n -> (acc = O <-> w = false) ->
  exists n' w',
    st = Struck c n' w'
    /\ n' = n + Z.of_nat (strikes body)
    /\ (if n' =? 0 then 0 else n' - 1 + (if w' then 1 else 0))
       = (if n =? 0 then 0 else n - 1 + (if w then 1 else 0))
         + Z.of_nat (waits body)
    /\ waitsAre d body = true
    /\ (fold_left (fun a e => match e with
                              | Strike => O
                              | Wait _ => S a
                              | _ => a
                              end) body acc = O <-> w' = false).
Proof.
  induction body as [|e body IH]; intros c n w acc st Hf Hin Hn Hacc.
  - simpl in *. injection Hf as <-. exists n, w.
    unfold strikes, waits. simpl.
    repeat split; try apply Hacc; try lia.
  - simpl in Hf.
    assert (Hin' : ~ In HideIndicator body) by (intros ?; apply Hin; now right).
    assert (He : e <> HideIndicator) by (intros ->; apply Hin; now left).
    destruct e as [| | |ms|c'|]; try congruence; simpl in Hf.
    + (* Strike *)
      destruct ((n <? c) && ((n =? 0) || w)) eqn:Hg;
        [|now rewrite seqStep_none in Hf].
      apply andb_prop in Hg as [Hg1 Hg2].
      destruct (IH c (n + 1) false O st Hf Hin' ltac:(lia) ltac:(tauto))
        as (n' & w' & -> & Hn' & Hw' & Ha & Hs).
      exists n', w'. split; [reflexivity|].
      unfold strikes, waits in *. simpl.
      destruct (Z.eqb_spec n 0), (Z.eqb_spec (n + 1) 0), w;
        try discriminate; repeat split; try apply Hs; try lia; exact Ha.
    + (* FilePlay *)
      destruct ((0 <? n) && negb w) eqn:Hg; [|now rewrite seqStep_none in Hf].
      destruct (IH c n w acc st Hf Hin' Hn Hacc)
        as (n' & w' & -> & Hn' & Hw' & Ha & Hs).
      exists n', w'. auto.
    + (* SynthBell *)
      destruct ((0 <? n) && negb w) eqn:Hg; [|now rewrite seqStep_none in Hf].
      destruct (IH c n w acc st Hf Hin' Hn Hacc)
        as (n' & w' & -> & Hn' & Hw' & Ha & Hs).
      exists n', w'. auto.
    + (* Wait *)
      destruct ((ms =? d) && negb w && (0 <? n) && (n <? c)) eqn:Hg;
        [|now rewrite seqStep_none in Hf].
      apply andb_prop in Hg as [Hg Hg4]. apply andb_prop in Hg as [Hg Hg3].
      apply andb_prop in Hg as [Hg1 Hg2].
      destruct (IH c n true (S acc) st Hf Hin' Hn ltac:(split; discriminate))
        as (n' & w' & -> & Hn' & Hw' & Ha & Hs).
      exists n', w'. split; [reflexivity|].
      unfold strikes, waits in *. simpl. rewrite Hg1, Ha.
      apply Z.ltb_lt in Hg3. destruct w; [discriminate|].
      destruct (Z.eqb_spec n 0); [lia|].
      repeat split; try apply Hs; lia.
    + now rewrite seqStep_none in Hf.
Qed.

Lemma seqTrack_sequence d pre c body post :
  seqTrack d (pre ++ ShowIndicator c :: body ++ HideIndicator :: post) <> None ->
  ~ In HideIndicator body ->
  strikes body = Z.to_nat c /\ waits body = Z.to_nat (c - 1)
  /\ waitsAre d body = true /\ waitsSinceStrike body = O.
Proof.
  intros Hf Hin. rewrite seqTrack_snoc in Hf. simpl in Hf.
  destruct (seqTrack d pre) as [[|c0 n0 w0]|]; simpl in Hf;
    try now rewrite seqStep_none in Hf.
  rewrite fold_left_app in Hf. simpl in Hf.
  destruct (fold_left (seqStep d) body (Some (Struck c 0 false))) as [st|] eqn:Hb;
    [|simpl in Hf; now rewrite seqStep_none in Hf].
  destruct (seqTrack_body d body c 0 false O st Hb Hin ltac:(lia) ltac:(tauto))
    as (n' & w' & -> & Hn' & Hw' & Ha & Hs).
  simpl in Hf.
  destruct (negb w' && (n' =? Z.max 0 c)) eqn:Hg;
    [|now rewrite seqStep_none in Hf].
  apply andb_prop in Hg as [Hg1 Hg2]. apply Z.eqb_eq in Hg2.
  destruct w'; [discriminate|].
  simpl in Hw'. unfold waitsSinceStrike.
  destruct (Z.eqb_spec n' 0); repeat split; try assumption; try tauto; lia.
Qed.

Lemma handleAll_audioBell bell es : audioBell (handleAll es (newChimes bell)) = bell.
Proof.
  induction es as [|e es IH] using rev_ind; [reflexivity|].
  rewrite handleAll_snoc. now destruct (handle_frame (handleAll es (newChimes bell)) e) as [-> _].
Qed.

Lemma sequenced_single m : sequenced m -> (length (running m) <= 1)%nat.
Proof.
  intros [_ H]. destruct (running m) as [|p [|q r]]; simpl; try lia.
  destruct p; contradiction.
Qed.

Lemma sequenced_idle m : sequenced m -> isChiming m = false -> running m = [].
Proof.
  intros [_ H] Hc. destruct (running m) as [|p [|q r]]; [reflexivity| |].
  - destruct p; destruct H as [H _]; congruence.
  - destruct p; contradiction.
Qed.

Lemma blocked_while_chiming m :
  isChiming m = true ->
  forall h mi c, checkTime h mi m = m /\ testChime c m = m.
Proof.
  intros Hc h mi c. unfold checkTime, testChime, chime. rewrite Hc.
  rewrite andb_false_r. auto.
Qed.

(** C7: in every state the page can reach, under any interleaving of
    the hourly check, the manual test trigger and the settling of
    promises, at most one chime sequence is in flight; every sequence of
    count c the log holds, from its [ShowIndicator c] to the next
    [HideIndicator], has exactly c strikes and exactly c-1 waits, each
    of the fixed bellDelay of 1920 ms, and no wait after its last
    strike; while [isChiming] is set both triggers leave the manager as
    it is; otherwise, the bell element being present, a sequence of
    count N started now and given its settlements runs to its end with
    those same numbers.  (For a count below 1 the numbers of strikes and
    of waits are both 0.) *)
Theorem chime_sequence_exclusive (bell : option AudioElement)
    (inputs : list Signal) (N : Z) (plays : Z -> bool) (spare : nat)
    (pre body post : list Effect) (c : Z) :
  let m := handleAll inputs (newChimes bell) in
  let m' := drain (3 * Z.to_nat N + spare) plays (suspend (chime N m)) in
  (length (running m) <= 1)%nat
  /\ (log m = pre ++ ShowIndicator c :: body ++ HideIndicator :: post ->
      ~ In HideIndicator body ->
      strikes body = Z.to_nat c /\ waits body = Z.to_nat (c - 1)
      /\ waitsAre 1920 body = true /\ waitsSinceStrike body = O)
  /\ (if isChiming m
      then forall h mi c', checkTime h mi m = m /\ testChime c' m = m
      else if present bell
      then running m' = [] /\ isChiming m' = false
           /\ exists seq, log m' = log m ++ seq
                /\ strikes seq = Z.to_nat N
                /\ waits seq = Z.to_nat (N - 1)
                /\ waitsAre 1920 seq = true
                /\ waitsSinceStrike seq = O
      else suspend (chime N m) = m).
Proof.
  intros m m'. pose proof (handleAll_sequenced bell inputs) as Hs.
  pose proof (handleAll_audioBell bell inputs) as Ha. fold m in Hs, Ha.
  split; [now apply sequenced_single|]. split.
  - intros Hl Hin. apply (seqTrack_sequence 1920 pre c body post); [|exact Hin].
    rewrite <- Hl. destruct Hs as [_ Hs].
    destruct (running m) as [|p [|q r]]; [| |destruct p; contradiction].
    + destruct Hs as [_ ->]. discriminate.
    + destruct p; [destruct Hs as (_ & _ & ->)|destruct Hs as (_ & _ & ->)
                  |destruct Hs as (_ & _ & _ & ->)]; discriminate.
  - destruct (isChiming m) eqn:Hc.
    + now apply blocked_while_chiming.
    + destruct (present bell) eqn:Hb.
      * destruct (chime_uninterrupted m N plays (3 * Z.to_nat N + spare))
          as (? & ? & ? & seq & ?); try assumption; try lia.
        { now rewrite Ha. }
        { now apply sequenced_idle. }
        destruct Hs as [Hd _]. rewrite Hd in *. eauto 10.
      * unfold chime. rewrite Hc, Ha, Hb. reflexivity.
Qed.

Lemma chime_sequence_exclusive_witness :
  strikes [Strike; FilePlay; Wait 1920; Strike; FilePlay] = Z.to_nat 2
  /\ waits [Strike; FilePlay; Wait 1920; Strike; FilePlay] = Z.to_nat (2 - 1)
  /\ waitsAre 1920 [Strike; FilePlay; Wait 1920; Strike; FilePlay] = true
  /\ waitsSinceStrike [Strike; FilePlay; Wait 1920; Strike; FilePlay] = O.
Proof.
  refine (proj1 (proj2 (chime_sequence_exclusive
                          (Some {| src := "audio/bell.mp3"; error := false |})
                          [TestChime 2; Settle 0 true; Settle 0 true;
                           Settle 0 true; Settle 0 true; Settle 0 true]
                          1 (fun _ => true) 0
                          [] [Strike; FilePlay; Wait 1920; Strike; FilePlay] [] 2))
            eq_refl _).
  simpl. intros [H|[H|[H|[H|[H|[]]]]]]; discriminate H.
Defined.

Lemma spawn_chime_lastChimeHour c m :
  lastChimeHour (suspend (chime c m)) = lastChimeHour m.
Proof.
  unfold chime, loopHead, playBell, suspend.
  repeat match goal with |- context [if ?c then _ else _] => destruct c; simpl end;
    reflexivity.
Qed.

Lemma settle_lastChimeHour n ok m :
  lastChimeHour (settle n ok m) = lastChimeHour m.
Proof.
  unfold settle. destruct (running m !! n) as [p|]; [|reflexivity].
  destruct p; simpl; unfold loopHead, playBell;
    repeat match goal with |- context [if ?c then _ else _] => destruct c; simpl end;
    reflexivity.
Qed.

Lemma drain_lastChimeHour plays fuel : forall m,
  lastChimeHour (drain fuel plays m) = lastChimeHour m.
Proof.
  induction fuel as [|fuel IH]; intros m; simpl; [reflexivity|].
  destruct (running m); [reflexivity|].
  now rewrite IH, settle_lastChimeHour.
Qed.

(** C9, amended: for every count N >= 0, the manual test trigger invoked
    while no sequence is chiming plays exactly N strikes when the bell
    element exists and none when it is absent, and in both cases
    [lastChimeHour] keeps its value through the whole sequence. *)
Theorem testChime_strikes_and_frame (bell : option AudioElement)
    (inputs : list Signal) (N : Z) (plays : Z -> bool) (fuel : nat) :
  let m := handleAll inputs (newChimes bell) in
  isChiming m = false -> 0 <= N -> (3 * Z.to_nat N <= fuel)%nat ->
  let m' := drain fuel plays (testChime N m) in
  running m' = []
  /\ (exists seq, log m' = log m ++ seq
        /\ Z.of_nat (strikes seq) = (if present bell then N else 0))
  /\ forall n, lastChimeHour (drain n plays (testChime N m)) = lastChimeHour m.
Proof.
  intros m Hc HN Hf m'.
  pose proof (handleAll_sequenced bell inputs) as Hs.
  pose proof (handleAll_audioBell bell inputs) as Ha. fold m in Hs, Ha.
  assert (Hr : running m = []) by now apply sequenced_idle.
  split; [|split].
  - destruct (present bell) eqn:Hb.
    + destruct (chime_uninterrupted m N plays fuel) as (? & _);
        try assumption. now rewrite Ha.
    + subst m'. unfold testChime, chime. rewrite Hc, Ha, Hb. simpl.
      now rewrite drain_idle.
  - destruct (present bell) eqn:Hb.
    + destruct (chime_uninterrupted m N plays fuel)
        as (_ & _ & _ & seq & Hl & Hn & _); try assumption.
      { now rewrite Ha. }
      exists seq. split; [exact Hl|]. rewrite Hn. lia.
    + exists []. subst m'. unfold testChime, chime. rewrite Hc, Ha, Hb. simpl.
      rewrite drain_idle by exact Hr. now rewrite app_nil_r.
  - intros n. unfold testChime.
    now rewrite drain_lastChimeHour, spawn_chime_lastChimeHour.
Qed.

Lemma testChime_strikes_and_frame_witness :
  lastChimeHour
    (drain 9 (fun _ => true)
       (testChime 3
          (handleAll [CheckTime 9 30]
             (newChimes (Some {| src := "audio/bell.mp3"; error := false |})))))
  = -1.
Proof.
  exact (proj2 (proj2 (testChime_strikes_and_frame
                         (Some {| src := "audio/bell.mp3"; error := false |})
                         [CheckTime 9 30] 3 (fun _ => true) 9
                         eq_refl ltac:(lia) ltac:(simpl; lia))) 9%nat).
Defined.

(** C9 as stated fails on a page without the bell element: the test
    trigger with count 3, invoked while not chiming, plays no strike. *)
Lemma testChime_absent_bell_counterexample :
  isChiming (newChimes None) = false
  /\ strikes (log (drain 9 (fun _ => true) (testChime 3 (newChimes None)))) <> 3%nat.
Proof. split; [reflexivity|]. vm_compute. discriminate. Qed.

(** C10: without the bell element [chime] returns at once, leaving the
    manager (its log, [isChiming], the indicator it would have shown)
    untouched: no strike, no synthesized bell; the hourly check then
    changes nothing but [lastChimeHour].  The fallback to the
    synthesized bell is taken inside [playBell] only. *)
Theorem chime_without_bell_element (m : ChimesManager) (count : Z) :
  audioBell m = None ->
  chime count m = (m, None)
  /\ testChime count m = m
  /\ (forall h mi, let m' := checkTime h mi m in
        log m' = log m /\ isChiming m' = isChiming m /\ running m' = running m)
  /\ (forall i c, playBell i c m = (note [Strike; SynthBell] m, AwaitRing i c)).
Proof.
  intros Hb.
  assert (Hch : forall c m0, audioBell m0 = None -> chime c m0 = (m0, None)).
  { intros c m0 H0. unfold chime. rewrite H0. simpl. now rewrite orb_true_r. }
  split; [now apply Hch|]. split; [unfold testChime; now rewrite Hch|].
  split.
  - intros h mi. unfold checkTime. simpl.
    destruct (_ && _); [|auto]. rewrite Hch by exact Hb. simpl. auto.
  - intros i c. unfold playBell. now rewrite Hb.
Qed.

Lemma chime_without_bell_element_witness :
  chime 12 (newChimes None) = (newChimes None, None)
  /\ testChime 12 (newChimes None) = newChimes None.
Proof.
  destruct (chime_without_bell_element (newChimes None) 12 eq_refl) as (H1 & H2 & _).
  exact (conj H1 H2).
Defined.

End ChimesProps.

(** * Properties of the coordinator *)

Module AppProps.
Import App.

(** ** Counting suspended calls *)

Lemma filter_length_delete {A} (f : A -> bool) (l : list A) (n : nat) (x : A) :
  l !! n = Some x ->
  length (List.filter f l)
  = ((if f x then 1 else 0) + length (List.filter f (delete n l)))%nat.
Proof.
  revert n. induction l as [|y l IH]; intros [|n] H; simpl in *; try discriminate.
  - injection H as ->. destruct (f x); reflexivity.
  - destruct (f y); simpl; rewrite (IH n H); destruct (f x); lia.
Qed.

Lemma episodes_snoc ts t :
  episodes (ts ++ [t]) = (episodes ts + if holdsEpisode t then 1 else 0)%nat.
Proof.
  unfold episodes. rewrite List.filter_app, length_app. simpl.
  destruct (holdsEpisode t); reflexivity.
Qed.

Lemma fades_snoc ts t :
  fades (ts ++ [t]) = (fades ts + if holdsEpisode t then 0 else 1)%nat.
Proof.
  unfold fades. rewrite List.filter_app, length_app. simpl.
  destruct (holdsEpisode t); reflexivity.
Qed.

Lemma episodes_delete ts n t :
  ts !! n = Some t ->
  episodes ts = ((if holdsEpisode t then 1 else 0) + episodes (delete n ts))%nat.
Proof. apply filter_length_delete. Qed.

Lemma fades_delete ts n t :
  ts !! n = Some t ->
  fades ts = ((if holdsEpisode t then 0 else 1) + fades (delete n ts))%nat.
Proof.
  intros H. unfold fades. rewrite (filter_length_delete _ _ _ _ H).
  destruct (holdsEpisode t); reflexivity.
Qed.

(** ** The trackers of a trace *)

Lemma flashStep_none tr : fold_left flashStep tr None = None.
Proof. induction tr; simpl; auto. Qed.

Lemma owedStep_none tr : fold_left owedStep tr None = None.
Proof. induction tr; simpl; auto. Qed.

Lemma flashTrack_snoc tr es :
  flashTrack (tr ++ es) = fold_left flashStep es (flashTrack tr).
Proof. unfold flashTrack. apply fold_left_app. Qed.

Lemma owed_snoc tr es : owed (tr ++ es) = fold_left owedStep es (owed tr).
Proof. unfold owed. apply fold_left_app. Qed.

Lemma lastCommitted_snoc tr es :
  lastCommitted (tr ++ es)
  = fold_left (fun acc e => match e with Commit k _ => k | _ => acc end)
      es (lastCommitted tr).
Proof. unfold lastCommitted. apply fold_left_app. Qed.

Lemma flashTrack_hidden pre :
  flashTrack pre = Some Hidden ->
  exists pre', pre = pre' ++ [FlashSettled; WormholeHidden].
Proof.
  destruct pre as [|e pre _] using rev_ind; [discriminate|].
  rewrite flashTrack_snoc. simpl.
  destruct (flashTrack pre) as [ph|] eqn:Hpre; [|discriminate].
  destruct e as [|d| | | | | |k a|f ms|f fs|h k|]; simpl; try discriminate.
  - (* WormholeHidden, after FlashSettled *)
    destruct ph; try discriminate. intros _.
    destruct pre as [|e pre _] using rev_ind; [discriminate|].
    rewrite flashTrack_snoc in Hpre. simpl in Hpre.
    destruct (flashTrack pre) as [ph|]; [|discriminate].
    destruct e as [|d| | | | | |k a|f ms|f fs|h k|]; simpl in Hpre; try discriminate.
    + exists pre. now rewrite <- app_assoc.
    + destruct ph; discriminate.
    + destruct a, ph; discriminate.
  - destruct a, ph; discriminate.
Qed.

Lemma flashTrack_commit pre k post :
  flashTrack (pre ++ Commit k true :: post) <> None ->
  exists pre', pre = pre' ++ [FlashSettled; WormholeHidden].
Proof.
  rewrite flashTrack_snoc. simpl. intros H.
  apply flashTrack_hidden.
  destruct (flashTrack pre) as [[]|]; simpl in H;
    try reflexivity; now rewrite flashStep_none in H.
Qed.

Lemma owed_counts tr : forall n,
  owed tr = Some n -> commits tr = (loads tr + n)%nat.
Proof.
  induction tr as [|e tr IH] using rev_ind; intros n.
  - intros [= <-]. reflexivity.
  - rewrite owed_snoc. simpl. unfold commits, loads in *.
    rewrite !List.filter_app, !length_app.
    destruct (owed tr) as [m|]; [|discriminate].
    specialize (IH m eq_refl).
    destruct e; simpl; try (intros [= <-]; lia).
    destruct m; [discriminate|]. intros [= <-]. lia.
Qed.

Lemma owed_load pre f ms post :
  owed (pre ++ LoadYear f ms :: post) <> None ->
  (loads pre < commits pre)%nat.
Proof.
  rewrite owed_snoc. simpl. intros H.
  destruct (owed pre) as [[|n]|] eqn:Hpre; simpl in H;
    try now rewrite owedStep_none in H.
  rewrite (owed_counts pre _ Hpre). lia.
Qed.

(** ** Every reachable world is sound *)

Lemma flash_neutral es : forall acc,
  forallb neutral es = true -> acc <> None ->
  fold_left flashStep es acc <> None.
Proof.
  induction es as [|e es IH]; intros acc; simpl; [auto|].
  intros [He Hes]%andb_prop Hacc. apply IH; [exact Hes|].
  destruct acc as [ph|]; [|congruence].
  destruct e; simpl; try discriminate He; try destruct ph; discriminate.
Qed.

Lemma owed_neutral es : forall acc,
  forallb neutral es = true -> fold_left owedStep es acc = acc.
Proof.
  induction es as [|e es IH]; intros acc; simpl; [auto|].
  intros [He Hes]%andb_prop. rewrite IH by exact Hes.
  destruct acc as [n|]; [|reflexivity].
  destruct e; simpl; try discriminate He; reflexivity.
Qed.

Lemma lastCommitted_neutral es : forall acc,
  forallb neutral es = true ->
  fold_left (fun acc e => match e with Commit k _ => k | _ => acc end) es acc = acc.
Proof.
  induction es as [|e es IH]; intros acc; simpl; [auto|].
  intros [He Hes]%andb_prop. rewrite IH by exact Hes.
  destruct e; simpl; try discriminate He; reflexivity.
Qed.

(** A step that neither moves the episode nor commits nor reloads keeps
    the world sound. *)
Lemma sound_frame (w w' : World) (es : list Event) :
  forallb neutral es = true ->
  trace w' = trace w ++ es -> tasks w' = tasks w ->
  wormhole w' = wormhole w ->
  pendingYearKey (tm w') = pendingYearKey (tm w) ->
  currentYearKey (tm w') = currentYearKey (tm w) ->
  sound w -> sound w'.
Proof.
  intros Hn Htr Hts Hwh Hp Hc [H1 H2 H3 H4]. split.
  - unfold coherent in *. now rewrite Hwh, Hp, Hts.
  - rewrite Htr, flashTrack_snoc. now apply flash_neutral.
  - rewrite Htr, owed_snoc, Hts, owed_neutral; assumption.
  - rewrite Htr, lastCommitted_snoc, Hc, lastCommitted_neutral; assumption.
Qed.

Lemma sound_set_chimes c w : sound w -> sound (set_chimes c w).
Proof.
  apply (sound_frame w _ []); try reflexivity. simpl. now rewrite app_nil_r.
Qed.

Lemma sound_glitch w : sound w -> sound (emit [Glitch] w).
Proof. apply (sound_frame w _ [Glitch]); reflexivity. Qed.

Lemma sound_set_lastScheduledHour h w :
  sound w -> sound (set_lastScheduledHour h w).
Proof.
  apply (sound_frame w _ []); try reflexivity. simpl. now rewrite app_nil_r.
Qed.

Lemma sound_initiateTimeTravel k w : sound w -> sound (initiateTimeTravel k w).
Proof.
  intros Hs. unfold initiateTimeTravel.
  destruct (Wormhole.isRunning (wormhole w)) eqn:Hrun; [exact Hs|].
  destruct (years !! k) as [d|] eqn:Hk; [|exact Hs].
  destruct Hs as [H1 H2 H3 H4].
  unfold Wormhole.isRunning in Hrun. unfold coherent in H1. rewrite Hrun in H1.
  destruct H1 as [Hp He].
  unfold startWormhole, Wormhole.start. simpl. rewrite Hrun. split; simpl.
  - unfold coherent. simpl. left. rewrite Hk. split; [eauto|exact He].
  - rewrite <- app_assoc, flashTrack_snoc. now apply flash_neutral.
  - rewrite <- app_assoc, owed_snoc, owed_neutral; auto.
  - rewrite <- app_assoc, lastCommitted_snoc, lastCommitted_neutral; auto.
Qed.

Lemma sound_goToYear k w :
  Wormhole.isActive (wormhole w) = false ->
  pendingYearKey (tm w) = None -> episodes (tasks w) = O ->
  flashTrack (trace w) = Some Hidden ->
  owed (trace w) = Some (fades (tasks w)) ->
  currentYearKey (tm w) = lastCommitted (trace w) ->
  sound (goToYear k true w).
Proof.
  intros Ha Hp He Hf Ho Hc. unfold goToYear.
  destruct (years !! k) as [cfg|]; split; simpl;
    unfold coherent; simpl; rewrite ?Ha, ?Hp, ?episodes_snoc, ?fades_snoc, ?He;
    rewrite ?flashTrack_snoc, ?owed_snoc, ?lastCommitted_snoc, ?Hf, ?Ho;
    simpl; auto; try congruence.
  f_equal. lia.
Qed.

Lemma sound_stopThenGo manual k w :
  Wormhole.isActive (wormhole w) = true ->
  pendingYearKey (tm w) = None -> episodes (tasks w) = O ->
  flashTrack (trace w) <> None ->
  owed (trace w) = Some (fades (tasks w)) ->
  currentYearKey (tm w) = lastCommitted (trace w) ->
  sound (stopThenGo manual k w).
Proof.
  intros Ha Hp He Hf Ho Hc. unfold stopThenGo, Wormhole.stopBegin.
  rewrite Ha. simpl. split; simpl.
  - unfold coherent. simpl. rewrite Ha, Hp, episodes_snoc, He. now right.
  - rewrite flashTrack_snoc. now apply flash_neutral.
  - rewrite owed_snoc, owed_neutral, fades_snoc by reflexivity.
    simpl. rewrite Ho. f_equal. lia.
  - rewrite lastCommitted_snoc, lastCommitted_neutral by reflexivity. exact Hc.
Qed.

Lemma sound_completeTimeTravel w :
  Wormhole.isActive (wormhole w) = true -> sound w -> sound (completeTimeTravel w).
Proof.
  intros Ha Hs. unfold completeTimeTravel.
  destruct (noPending (pendingYearKey (tm w))); [exact Hs|].
  destruct (pendingYearKey (tm w)) as [k|] eqn:Hp; [|exact Hs].
  destruct Hs as [H1 H2 H3 H4]. unfold coherent in H1. rewrite Ha, Hp in H1.
  destruct H1 as [[_ He]|[? _]]; [|discriminate].
  apply sound_stopThenGo; simpl; auto.
Qed.

Lemma sound_checkScheduledTravel h w : sound w -> sound (checkScheduledTravel h w).
Proof.
  intros Hs. unfold checkScheduledTravel.
  destruct (Wormhole.isRunning (wormhole w)) eqn:Hrun; [exact Hs|].
  destruct (schedule !! h) as [k|]; [|now apply sound_set_lastScheduledHour].
  destruct (bool_decide _); [exact Hs|].
  destruct (_ =? _); [now apply sound_set_lastScheduledHour|].
  unfold initiateAutomaticTimeTravel.
  destruct (years !! k) as [d|].
  - destruct Hs as [H1 H2 H3 H4].
    unfold Wormhole.isRunning in Hrun. unfold coherent in H1. rewrite Hrun in H1.
    destruct H1 as [Hp He].
    unfold startWormhole, Wormhole.start. simpl. rewrite Hrun. split; simpl.
    + unfold coherent. simpl. rewrite Hp, episodes_snoc, He. now right.
    + rewrite <- !app_assoc, flashTrack_snoc. now apply flash_neutral.
    + rewrite <- !app_assoc, owed_snoc, owed_neutral, fades_snoc by reflexivity.
      simpl. rewrite H3. f_equal. lia.
    + rewrite <- !app_assoc, lastCommitted_snoc, lastCommitted_neutral; auto.
  - apply (sound_frame w _ [ScheduledTravel h k]); auto.
Qed.

Lemma sound_onKeyDown e hours w : sound w -> sound (onKeyDown e hours w).
Proof.
  intros Hs. unfold onKeyDown.
  repeat match goal with
         | |- sound (if ?c then _ else _) => destruct c eqn:?
         | |- sound (set_chimes _ _) => apply sound_set_chimes
         | |- sound (emit [Glitch] _) => apply sound_glitch
         | |- sound (completeTimeTravel _) => apply sound_completeTimeTravel; [assumption|]
         | |- sound (initiateTimeTravel _ _) => apply sound_initiateTimeTravel
         | |- sound (let x := _ in _) => cbv zeta
         end; try exact Hs.
Qed.

Lemma sound_resume t n w :
  tasks w !! n = Some t -> sound w ->
  sound (resume t (set_tasks (delete n (tasks w)) w)).
Proof.
  intros Hn [H1 H2 H3 H4].
  pose proof (episodes_delete _ _ _ Hn) as He.
  pose proof (fades_delete _ _ _ Hn) as Hf.
  unfold coherent in H1.
  destruct t as [k|manual k|k cfg]; simpl in *.
  - destruct (Wormhole.isActive (wormhole w)) eqn:Ha;
      [destruct H1 as [[_ H1]|[Hp H1]]|destruct H1 as [_ H1]]; try lia.
    apply sound_stopThenGo; simpl; auto; try lia. rewrite H3. f_equal. exact Hf.
  - destruct (Wormhole.isActive (wormhole w)) eqn:Ha;
      [destruct H1 as [[_ H1]|[Hp H1]]|destruct H1 as [_ H1]]; try lia.
    apply sound_goToYear; simpl; auto; try lia.
    + rewrite flashTrack_snoc. simpl.
      destruct (flashTrack (trace w)) as [ph|]; [reflexivity|congruence].
    + rewrite owed_snoc, H3. simpl. f_equal. exact Hf.
    + rewrite lastCommitted_snoc. simpl. exact H4.
  - unfold showYear. split; simpl.
    + unfold coherent. simpl.
      replace (episodes (delete n (tasks w))) with (episodes (tasks w)) by lia.
      exact H1.
    + rewrite flashTrack_snoc. simpl.
      destruct (flashTrack (trace w)); [discriminate|congruence].
    + rewrite owed_snoc, H3, Hf. reflexivity.
    + rewrite lastCommitted_snoc. simpl. exact H4.
Qed.

Lemma sound_step w i : sound w -> sound (step w i).
Proof.
  intros Hs. destruct i as [e hours|hours|n|c]; simpl.
  - now apply sound_onKeyDown.
  - now apply sound_checkScheduledTravel.
  - destruct (tasks w !! n) as [t|] eqn:Hn; [|exact Hs].
    now apply sound_resume.
  - now apply sound_set_chimes.
Qed.

Lemma run_snoc inputs i w : run (inputs ++ [i]) w = step (run inputs w) i.
Proof. unfold run. now rewrite fold_left_app. Qed.

Lemma sound_fresh bell : sound (fresh bell).
Proof. split; simpl; unfold coherent; simpl; auto; discriminate. Qed.

Lemma sound_goToYear_at_once k w : sound w -> sound (goToYear k false w).
Proof.
  intros [H1 H2 H3 H4]. unfold goToYear.
  destruct (years !! k) as [cfg|]; [|split; assumption].
  unfold showYear. split; simpl.
  - exact H1.
  - rewrite <- app_assoc, flashTrack_snoc. simpl.
    destruct (flashTrack (trace w)); [discriminate|congruence].
  - rewrite <- app_assoc, owed_snoc, H3. reflexivity.
  - rewrite <- app_assoc, lastCommitted_snoc. reflexivity.
Qed.

Lemma sound_booted b : sound (booted b).
Proof.
  unfold booted, init.
  apply sound_goToYear_at_once, sound_checkScheduledTravel, sound_set_chimes.
  apply (sound_frame (fresh (bell b)) _ []);
    try (destruct (fetchedManifest b); reflexivity).
  apply sound_fresh.
Qed.

Lemma sound_run inputs : forall w, sound w -> sound (run inputs w).
Proof.
  induction inputs as [|i inputs IH]; intros w Hs; simpl; [exact Hs|].
  apply IH. now apply sound_step.
Qed.

(** ** Every reload has a commit of its own *)

Import Readings.

Lemma owedOfStep_none f tr : fold_left (owedOfStep f) tr None = None.
Proof. induction tr; simpl; auto. Qed.

Lemma owedOf_snoc f tr es :
  owedOf f (tr ++ es) = fold_left (owedOfStep f) es (owedOf f tr).
Proof. unfold owedOf. apply fold_left_app. Qed.

Lemma owedOf_neutral f es : forall acc,
  forallb neutral es = true -> fold_left (owedOfStep f) es acc = acc.
Proof.
  induction es as [|e es IH]; intros acc; simpl; [auto|].
  intros [He Hes]%andb_prop. rewrite IH by exact Hes.
  destruct acc as [n|]; [|reflexivity].
  destruct e; simpl; try discriminate He; reflexivity.
Qed.

Lemma owedOf_counts f tr : forall n,
  owedOf f tr = Some n -> commitsOf f tr = (loadsOf f tr + n)%nat.
Proof.
  induction tr as [|e tr IH] using rev_ind; intros n.
  - intros [= <-]. reflexivity.
  - rewrite owedOf_snoc. simpl. unfold commitsOf, loadsOf in *.
    rewrite !List.filter_app, !length_app.
    destruct (owedOf f tr) as [m|]; [|discriminate].
    specialize (IH m eq_refl). simpl.
    destruct (commitsFolder f e) eqn:Hc.
    + assert (Hl : loadsFolder f e = false) by (destruct e; try reflexivity; discriminate Hc).
      rewrite Hl. simpl. intros [= <-]. lia.
    + destruct (loadsFolder f e); simpl.
      * destruct m; [discriminate|]. intros [= <-]. lia.
      * intros [= <-]. lia.
Qed.

Lemma owedOfStep_load f n ms :
  owedOfStep f (Some n) (LoadYear f ms)
  = match n with O => None | S n' => Some n' end.
Proof.
  unfold owedOfStep, commitsFolder, loadsFolder.
  now rewrite bool_decide_eq_true_2 by reflexivity.
Qed.

Lemma owedOfStep_load_other f f' n ms :
  f' <> f -> owedOfStep f (Some n) (LoadYear f' ms) = Some n.
Proof.
  intros H. unfold owedOfStep, commitsFolder, loadsFolder.
  now rewrite bool_decide_eq_false_2 by exact H.
Qed.

Lemma owedOf_load f pre ms post :
  owedOf f (pre ++ LoadYear f ms :: post) <> None ->
  (loadsOf f pre < commitsOf f pre)%nat.
Proof.
  rewrite owedOf_snoc. cbn [fold_left]. intros H.
  destruct (owedOf f pre) as [n|] eqn:Hpre;
    [|cbn [owedOfStep] in H; now rewrite owedOfStep_none in H].
  rewrite owedOfStep_load in H.
  destruct n as [|n]; [now rewrite owedOfStep_none in H|].
  rewrite (owedOf_counts f pre _ Hpre). lia.
Qed.

Lemma fadesOf_snoc f ts t :
  fadesOf f (ts ++ [t]) = (fadesOf f ts + if fadesFolder f t then 1 else 0)%nat.
Proof.
  unfold fadesOf. rewrite List.filter_app, length_app. simpl.
  destruct (fadesFolder f t); reflexivity.
Qed.

Lemma fadesOf_delete f ts n t :
  ts !! n = Some t ->
  fadesOf f ts = ((if fadesFolder f t then 1 else 0) + fadesOf f (delete n ts))%nat.
Proof. apply filter_length_delete. Qed.

(** A commit counted in a trace is in the trace. *)
Lemma commitsOf_split f tr :
  (0 < commitsOf f tr)%nat ->
  exists p1 k a p2, tr = p1 ++ Commit k a :: p2 /\ folderOf k = Some f.
Proof.
  unfold commitsOf. induction tr as [|e tr IH]; simpl; [lia|].
  destruct (commitsFolder f e) eqn:He.
  - intros _. destruct e; try discriminate He.
    exists [], yearKey, animate, tr. split; [reflexivity|].
    simpl in He. now apply bool_decide_eq_true in He.
  - intros H. destruct (IH H) as (p1 & k & a & p2 & -> & Hk).
    exists (e :: p1), k, a, p2. auto.
Qed.

(** A step that neither commits nor reloads nor touches the fades. *)
Lemma reloadsOwed_frame (w w' : World) (es : list Event) :
  forallb neutral es = true ->
  trace w' = trace w ++ es ->
  (forall f, fadesOf f (tasks w') = fadesOf f (tasks w)) ->
  reloadsOwed w -> reloadsOwed w'.
Proof.
  intros Hn Htr Hts Hw f.
  rewrite Htr, owedOf_snoc, Hts, owedOf_neutral; [apply Hw|exact Hn].
Qed.

Lemma reloadsOwed_showYear cfg ts w :
  (forall f, fadesOf f (tasks w)
             = ((if bool_decide (folder cfg = f) then 1 else 0) + fadesOf f ts)%nat) ->
  reloadsOwed w -> reloadsOwed (showYear cfg (set_tasks ts w)).
Proof.
  intros Hts Hw f. unfold showYear. simpl.
  rewrite owedOf_snoc, (Hw f), (Hts f). simpl.
  destruct (bool_decide (folder cfg = f)); reflexivity.
Qed.

Lemma reloadsOwed_goToYear k a w : reloadsOwed w -> reloadsOwed (goToYear k a w).
Proof.
  intros Hw. unfold goToYear.
  destruct (years !! k) as [cfg|] eqn:Hk; [|exact Hw].
  assert (Hc : forall f, commitsFolder f (Commit k a) = bool_decide (folder cfg = f)).
  { intros f. simpl. unfold folderOf. rewrite Hk. simpl.
    apply bool_decide_ext. split; [now intros [= ->]|now intros ->]. }
  destruct a; intros f.
  - simpl. rewrite owedOf_snoc, fadesOf_snoc, (Hw f). cbn [fold_left owedOfStep].
    rewrite Hc. simpl. destruct (bool_decide (folder cfg = f)); f_equal; lia.
  - unfold showYear. simpl. rewrite <- app_assoc, owedOf_snoc, (Hw f).
    cbn [fold_left app]. unfold owedOfStep at 3. rewrite Hc.
    case_bool_decide as Hf.
    + subst f. now rewrite owedOfStep_load.
    + cbn [loadsFolder]. now rewrite owedOfStep_load_other by exact Hf.
Qed.


Lemma reloadsOwed_same w w' :
  trace w' = trace w -> tasks w' = tasks w -> reloadsOwed w -> reloadsOwed w'.
Proof.
  intros Htr Hts Hw. apply (reloadsOwed_frame w w' []); auto.
  - now rewrite app_nil_r.
  - intros f. now rewrite Hts.
Qed.

Lemma reloadsOwed_stopThenGo manual k w :
  reloadsOwed w -> reloadsOwed (stopThenGo manual k w).
Proof.
  intros Hw. unfold stopThenGo, Wormhole.stopBegin.
  destruct (Wormhole.isActive (wormhole w)); simpl.
  - apply (reloadsOwed_frame w _ [EffectsHalted; ArrivalSound; FlashBegun]);
      [reflexivity|reflexivity| |exact Hw].
    intros f. simpl. now rewrite fadesOf_snoc, Nat.add_0_r.
  - apply reloadsOwed_goToYear.
    apply (reloadsOwed_same w); [simpl; now rewrite app_nil_r|reflexivity|exact Hw].
Qed.

Lemma reloadsOwed_initiateTimeTravel k w :
  reloadsOwed w -> reloadsOwed (initiateTimeTravel k w).
Proof.
  intros Hw. unfold initiateTimeTravel.
  destruct (Wormhole.isRunning (wormhole w)); [exact Hw|].
  destruct (years !! k) as [cfg|]; [|exact Hw].
  unfold startWormhole, Wormhole.start. simpl.
  destruct (Wormhole.isActive (wormhole w)); simpl.
  - apply (reloadsOwed_frame w _ [SlideshowPaused]); auto.
    simpl. now rewrite app_nil_r.
  - apply (reloadsOwed_frame w _ [SlideshowPaused; WormholeShown (display cfg)]); auto.
    simpl. now rewrite <- app_assoc.
Qed.

Lemma reloadsOwed_completeTimeTravel w :
  reloadsOwed w -> reloadsOwed (completeTimeTravel w).
Proof.
  intros Hw. unfold completeTimeTravel.
  destruct (noPending (pendingYearKey (tm w))); [exact Hw|].
  destruct (pendingYearKey (tm w)) as [k|]; [|exact Hw].
  apply reloadsOwed_stopThenGo. now apply (reloadsOwed_same w).
Qed.

Lemma reloadsOwed_checkScheduledTravel h w :
  reloadsOwed w -> reloadsOwed (checkScheduledTravel h w).
Proof.
  intros Hw. unfold checkScheduledTravel.
  destruct (Wormhole.isRunning (wormhole w)); [exact Hw|].
  destruct (schedule !! h) as [k|]; [|now apply (reloadsOwed_same w)].
  case_bool_decide; [exact Hw|].
  destruct (_ =? _); [now apply (reloadsOwed_same w)|].
  unfold initiateAutomaticTimeTravel.
  destruct (years !! k) as [cfg|].
  - unfold startWormhole, Wormhole.start. simpl.
    destruct (Wormhole.isActive (wormhole w)); simpl.
    + apply (reloadsOwed_frame w _ [ScheduledTravel h k; SlideshowPaused]);
        [reflexivity|simpl; now rewrite <- !app_assoc| |exact Hw].
      intros f. simpl. now rewrite fadesOf_snoc, Nat.add_0_r.
    + apply (reloadsOwed_frame w _ [ScheduledTravel h k; SlideshowPaused;
                                    WormholeShown (display cfg)]);
        [reflexivity|simpl; now rewrite <- !app_assoc| |exact Hw].
      intros f. simpl. now rewrite fadesOf_snoc, Nat.add_0_r.
  - apply (reloadsOwed_frame w _ [ScheduledTravel h k]); auto.
Qed.

Lemma reloadsOwed_onKeyDown e hours w :
  reloadsOwed w -> reloadsOwed (onKeyDown e hours w).
Proof.
  intros Hw. unfold onKeyDown. cbv zeta.
  repeat match goal with
         | |- reloadsOwed (if ?c then _ else _) => destruct c
         | |- reloadsOwed (emit [Glitch] ?w4) =>
             apply (reloadsOwed_frame w4 _ [Glitch]);
             [reflexivity|reflexivity|reflexivity|]
         | |- reloadsOwed (set_chimes _ ?w2) =>
             apply (reloadsOwed_same w2); [reflexivity|reflexivity|]
         | |- reloadsOwed (completeTimeTravel _) => apply reloadsOwed_completeTimeTravel
         | |- reloadsOwed (initiateTimeTravel _ _) => apply reloadsOwed_initiateTimeTravel
         end; exact Hw.
Qed.

Lemma reloadsOwed_resume t n w :
  tasks w !! n = Some t -> reloadsOwed w ->
  reloadsOwed (resume t (set_tasks (delete n (tasks w)) w)).
Proof.
  intros Hn Hw.
  assert (Hkept : holdsEpisode t = true ->
                  reloadsOwed (set_tasks (delete n (tasks w)) w)).
  { intros Ht f. simpl. rewrite (Hw f), (fadesOf_delete f _ _ _ Hn).
    destruct t; try discriminate Ht; reflexivity. }
  destruct t as [k|manual k|k cfg]; simpl.
  - apply reloadsOwed_stopThenGo. now apply Hkept.
  - apply reloadsOwed_goToYear.
    apply (reloadsOwed_frame (set_tasks (delete n (tasks w)) w) _
             [FlashSettled; WormholeHidden]); auto.
  - apply reloadsOwed_showYear; [|exact Hw].
    intros f. apply (fadesOf_delete f _ _ _ Hn).
Qed.

Lemma reloadsOwed_step w i : reloadsOwed w -> reloadsOwed (step w i).
Proof.
  intros Hw. destruct i as [e hours|hours|n|c]; simpl.
  - now apply reloadsOwed_onKeyDown.
  - now apply reloadsOwed_checkScheduledTravel.
  - destruct (tasks w !! n) as [t|] eqn:Hn; [|exact Hw].
    now apply reloadsOwed_resume.
  - now apply (reloadsOwed_same w).
Qed.

Lemma reloadsOwed_booted b : reloadsOwed (booted b).
Proof.
  unfold booted, init. cbv zeta.
  apply reloadsOwed_goToYear, reloadsOwed_checkScheduledTravel.
  intros f. destruct (fetchedManifest b); reflexivity.
Qed.

Lemma reloadsOwed_run inputs : forall w, reloadsOwed w -> reloadsOwed (run inputs w).
Proof.
  induction inputs as [|i inputs IH]; intros w Hw; simpl; [exact Hw|].
  apply IH. now apply reloadsOwed_step.
Qed.

(** ** The flash before the commit *)

(** C2, amended: in every trace the page can produce, the commit that
    ends a transition ([Commit _ true], made by the [goToYear(_, true)]
    of both completion paths) comes directly after [FlashSettled;
    WormholeHidden], the end of the wormhole's stop() sequence; and
    every media reload ([LoadYear f]) has a commit of its own before
    it: the commits of a period with folder [f] so far outnumber the
    reloads of [f], so that one of them, which when it ends a
    transition follows its settled flash, precedes the reload.  The
    coordinator thus commits a period, and reloads the media of that
    period, only once the arrival flash of the transition towards it
    has settled.  The field [currentYearKey] is the key of the last
    commit of the trace.  (The one other commit is that of [init()],
    [goToYear(1, false)], before any transition.) *)
Theorem flash_settles_before_commit (b : Boot) (inputs : list Input)
    (pre post : list Event) (e : Event) :
  let w := run inputs (booted b) in
  trace w = pre ++ e :: post ->
  currentYearKey (tm w) = lastCommitted (trace w)
  /\ match e with
     | Commit _ true => exists pre', pre = pre' ++ [FlashSettled; WormholeHidden]
     | LoadYear f _ =>
         (loads pre < commits pre)%nat
         /\ (loadsOf f pre < commitsOf f pre)%nat
         /\ exists p1 k a p2,
              pre = p1 ++ Commit k a :: p2
              /\ folderOf k = Some f
              /\ (a = true -> exists p0, p1 = p0 ++ [FlashSettled; WormholeHidden])
     | _ => True
     end.
Proof.
  intros w Htr.
  destruct (sound_run inputs (booted b) (sound_booted b)) as [_ H2 H3 H4].
  pose proof (reloadsOwed_run inputs _ (reloadsOwed_booted b)) as H5.
  fold w in H2, H3, H4, H5. split; [exact H4|].
  destruct e as [|d| | | | | |k a|f ms|f fs|h k|]; try exact I.
  - destruct a; [|exact I]. rewrite Htr in H2. now apply flashTrack_commit in H2.
  - split; [rewrite Htr in H3; eapply owed_load; rewrite H3; discriminate|].
    assert (Hlt : (loadsOf f pre < commitsOf f pre)%nat).
    { apply (owedOf_load f pre ms post). rewrite <- Htr, (H5 f). discriminate. }
    split; [exact Hlt|].
    destruct (commitsOf_split f pre) as (p1 & k & a & p2 & Hpre & Hk); [lia|].
    exists p1, k, a, p2. split; [exact Hpre|]. split; [exact Hk|].
    intros ->. rewrite Htr, Hpre, <- app_assoc in H2. simpl in H2.
    now apply flashTrack_commit in H2.
Qed.

(** Key 3, space bar, end of the flash, end of the fade: the commit of
    period 3 follows the settled flash. *)
Lemma flash_settles_before_commit_witness :
  exists pre',
    [Commit 1 false; LoadYear "2025" [];
     TickerBuilt "2025" [Facts.unavailable];
     SlideshowPaused; WormholeShown "1751 CE"; EffectsHalted; ArrivalSound;
     FlashBegun; FlashSettled; WormholeHidden]
    = pre' ++ [FlashSettled; WormholeHidden].
Proof.
  exact (proj2 (flash_settles_before_commit bareBoot
                  [KeyDown digit3 13; KeyDown spaceBar 13; TimerFires 0; TimerFires 0]
                  [Commit 1 false; LoadYear "2025" [];
                   TickerBuilt "2025" [Facts.unavailable];
                   SlideshowPaused; WormholeShown "1751 CE"; EffectsHalted;
                   ArrivalSound; FlashBegun; FlashSettled; WormholeHidden]
                  [LoadYear "1751" []; TickerBuilt "1751" [Facts.unavailable]]
                  (Commit 3 true) eq_refl)).
Defined.

(** C2 as stated fails when a journey starts within the fade of the
    last arrival.  Key 3, space bar and the end of the flash commit
    period 3 and leave its fade suspended; key 2 and the space bar then
    start the flash of the next transition; the fade ends while that
    flash is pending (its call is still suspended, no [FlashSettled]
    follows the last [FlashBegun]) and the media of 1751 are reloaded. *)
Lemma reload_before_flash_settles_counterexample :
  let b := {| bell := None;
              fetchedManifest := Some (<["1751"%string := ["a.jpg"%string]]> ∅);
              fetchFacts := fun _ => Facts.Rejected;
              chimeHours := 13; chimeMinutes := 30; clockHours := 13 |} in
  let w := run [KeyDown digit3 13; KeyDown spaceBar 13; TimerFires 0;
                KeyDown {| key := "2"; code := "Digit2" |} 13; KeyDown spaceBar 13;
                TimerFires 0] (booted b) in
  trace w
  = trace (booted b)
    ++ [SlideshowPaused; WormholeShown "1751 CE"; EffectsHalted; ArrivalSound;
        FlashBegun; FlashSettled; WormholeHidden; Commit 3 true;
        SlideshowPaused; WormholeShown "1969 CE"; EffectsHalted; ArrivalSound;
        FlashBegun;
        LoadYear "1751" ["a.jpg"%string]; TickerBuilt "1751" [Facts.unavailable]]
  /\ tasks w = [Arriving true 2]
  /\ Wormhole.isActive (wormhole w) = true
  /\ Slideshow.intervalId (slideshow w) = true.
Proof. repeat split. Qed.

(** ** Who writes the pending destination *)

Lemma pending_goToYear k a w :
  pendingYearKey (tm (goToYear k a w)) = pendingYearKey (tm w).
Proof.
  unfold goToYear. destruct (years !! k); [destruct a|]; reflexivity.
Qed.

Lemma pending_stopThenGo manual k w :
  pendingYearKey (tm (stopThenGo manual k w)) = pendingYearKey (tm w).
Proof.
  unfold stopThenGo, Wormhole.stopBegin.
  destruct (Wormhole.isActive (wormhole w)); simpl;
    [reflexivity|now rewrite pending_goToYear].
Qed.

Lemma pending_resume t w :
  pendingYearKey (tm (resume t w)) = pendingYearKey (tm w).
Proof.
  destruct t; simpl.
  - apply pending_stopThenGo.
  - now rewrite pending_goToYear.
  - reflexivity.
Qed.

Lemma pending_checkScheduledTravel h w :
  pendingYearKey (tm (checkScheduledTravel h w)) = pendingYearKey (tm w).
Proof.
  unfold checkScheduledTravel, initiateAutomaticTimeTravel, startWormhole,
    Wormhole.start.
  simpl.
  repeat match goal with
         | |- context [if ?c then _ else _] => destruct c
         | |- context [match ?c with Some _ => _ | None => _ end] => destruct c
         end; reflexivity.
Qed.

Lemma episodes_In t ts :
  In t ts -> holdsEpisode t = true -> (1 <= episodes ts)%nat.
Proof.
  intros Hin Ht. unfold episodes.
  assert (In t (List.filter holdsEpisode ts)) as H by (apply filter_In; auto).
  destruct (List.filter holdsEpisode ts); [destruct H|simpl; lia].
Qed.

(** C1, amended: in every reachable world the pending destination is
    non-empty only while the wormhole is active; a manual start stores
    its destination there; the completion of a manual transition clears
    it and hands the cleared key to the commit that follows the flash;
    an automatic episode never uses it: while its timer is awaited
    nothing is pending, and no clock tick, timer or chime input writes
    [pendingYearKey]. *)
Theorem pending_only_in_manual_episode (b : Boot) (inputs : list Input)
    (k : Z) (i : Input) :
  let w := run inputs (booted b) in
  (pendingYearKey (tm w) = None \/ Wormhole.isActive (wormhole w) = true)
  /\ (Wormhole.isActive (wormhole w) = false -> is_Some (years !! k) ->
      pendingYearKey (tm (initiateTimeTravel k w)) = Some k
      /\ Wormhole.isActive (wormhole (initiateTimeTravel k w)) = true)
  /\ (pendingYearKey (tm w) = Some k ->
      pendingYearKey (tm (completeTimeTravel w)) = None
      /\ tasks (completeTimeTravel w) = tasks w ++ [Arriving true k]
      /\ forall w0, currentYearKey (tm (resume (Arriving true k) w0)) = k)
  /\ (In (AutoHold k) (tasks w) -> pendingYearKey (tm w) = None)
  /\ match i with
     | KeyDown _ _ => True
     | _ => pendingYearKey (tm (step w i)) = pendingYearKey (tm w)
     end.
Proof.
  intros w.
  destruct (sound_run inputs (booted b) (sound_booted b)) as [H1 _ _ _].
  fold w in H1. unfold coherent in H1.
  split; [|split; [|split; [|split]]].
  - destruct (Wormhole.isActive (wormhole w)); [now right|now left].
  - intros Ha [d Hd]. unfold initiateTimeTravel, Wormhole.isRunning.
    rewrite Ha, Hd. unfold startWormhole, Wormhole.start. simpl.
    rewrite Ha. simpl. auto.
  - intros Hp. rewrite Hp in H1. simpl in H1.
    destruct (Wormhole.isActive (wormhole w)) eqn:Ha;
      [destruct H1 as [[[d Hd] _]|[? _]]|destruct H1 as [? _]]; try discriminate.
    assert (k <> 0) as Hk0 by (intros ->; discriminate Hd).
    unfold completeTimeTravel. rewrite Hp. simpl.
    apply Z.eqb_neq in Hk0. rewrite Hk0.
    unfold stopThenGo, Wormhole.stopBegin. simpl. rewrite Ha. simpl.
    repeat split.
    intros w0. unfold goToYear. rewrite Hd. reflexivity.
  - intros Hin. pose proof (episodes_In _ _ Hin eq_refl) as He.
    destruct (Wormhole.isActive (wormhole w));
      [destruct H1 as [[_ H1]|[Hp _]]|destruct H1 as [Hp _]]; auto; lia.
  - destruct i as [e hours|hours|n|c]; simpl; auto.
    + apply pending_checkScheduledTravel.
    + destruct (tasks w !! n); [|reflexivity]. now rewrite pending_resume.
Qed.

(** On the bare page, the manual start towards period 3. *)
Lemma pending_only_in_manual_episode_witness :
  pendingYearKey (tm (initiateTimeTravel 3 (run [] (booted bareBoot)))) = Some 3
  /\ Wormhole.isActive (wormhole (initiateTimeTravel 3 (run [] (booted bareBoot))))
     = true.
Proof.
  exact (proj1 (proj2 (pending_only_in_manual_episode bareBoot [] 3 (ClockTick 21)))
           eq_refl (ex_intro _ _ eq_refl)).
Defined.

(** C1 as stated fails for an automatic episode: the tick of 21h on the
    bare page starts the wormhole towards period 2 and leaves the
    pending destination empty. *)
Lemma automatic_start_pending_counterexample :
  Wormhole.isActive (wormhole (run [ClockTick 21] (booted bareBoot))) = true
  /\ tasks (run [ClockTick 21] (booted bareBoot)) = [AutoHold 2]
  /\ pendingYearKey (tm (run [ClockTick 21] (booted bareBoot))) = None.
Proof. repeat split. Qed.

(** ** The keyboard *)

Ltac eval_key_tests :=
  repeat match goal with
         | |- context [String.leb ?a ?b] =>
             let v := eval vm_compute in (String.leb a b) in
             change (String.leb a b) with v
         | |- context [String.eqb ?a ?b] =>
             let v := eval vm_compute in (String.eqb a b) in
             change (String.eqb a b) with v
         end.

Lemma years_digit P : 1 <= P <= 5 -> is_Some (years !! P).
Proof.
  intros H.
  assert (P = 1 \/ P = 2 \/ P = 3 \/ P = 4 \/ P = 5) as Hc by lia.
  destruct Hc as [->|[->|[->|[->| ->]]]]; eexists; reflexivity.
Qed.

(** A digit key from 1 to 5 selects its period and does nothing else. *)
Lemma onKeyDown_digit P e hours w :
  1 <= P <= 5 -> key e = digitKey P -> code e <> "Space"%string ->
  onKeyDown e hours w
  = if P =? currentYearKey (tm w) then w else initiateTimeTravel P w.
Proof.
  intros HP Hk Hc. apply String.eqb_neq in Hc.
  assert (bool_decide (is_Some (years !! P)) = true) as Hy
    by (apply bool_decide_eq_true_2, years_digit, HP).
  assert (P = 1 \/ P = 2 \/ P = 3 \/ P = 4 \/ P = 5) as Hcase by lia.
  unfold onKeyDown. rewrite Hk, Hc.
  destruct Hcase as [->|[->|[->|[->| ->]]]];
    eval_key_tests; cbv beta iota zeta;
    match goal with
    | |- context [parseInt ?s] =>
        let v := eval vm_compute in (parseInt s) in
        change (parseInt s) with v
    end;
    rewrite Hy;
    match goal with
    | |- context [Z.eqb ?a (currentYearKey ?t)] =>
        destruct (Z.eqb a (currentYearKey t))
    end; reflexivity.
Qed.

(** The space bar completes the transition in flight and does nothing
    else. *)
Lemma onKeyDown_space e hours w :
  key e = " "%string ->
  onKeyDown e hours w
  = if Wormhole.isRunning (wormhole w) then completeTimeTravel w else w.
Proof.
  intros Hk. unfold onKeyDown. rewrite Hk.
  eval_key_tests. cbv beta iota zeta. simpl.
  destruct (Wormhole.isRunning (wormhole w)); reflexivity.
Qed.

(** C3: for a period key P from 1 to 5, the key event of the digit P
    starts a transition (slideshow paused, P pending, wormhole active)
    when the wormhole is idle and P is not the current period, and
    otherwise leaves the whole world as it is; the space key is
    accepted, clearing the pending period Q and starting the wormhole's
    stop sequence, exactly when the wormhole is active and a period is
    pending, and otherwise leaves the whole world as it is.  The digit
    event is one that is not also the space bar by its [code]. *)
Theorem manual_trigger_contract (w : World) (P Q : Z) (e sp : KeyboardEvent)
    (hours : Z) :
  1 <= P <= 5 -> key e = digitKey P -> code e <> "Space"%string ->
  key sp = " "%string ->
  (Wormhole.isRunning (wormhole w) = false -> P <> currentYearKey (tm w) ->
   exists d, years !! P = Some d
     /\ pendingYearKey (tm (onKeyDown e hours w)) = Some P
     /\ Wormhole.isRunning (wormhole (onKeyDown e hours w)) = true
     /\ currentYearKey (tm (onKeyDown e hours w)) = currentYearKey (tm w)
     /\ trace (onKeyDown e hours w)
        = trace w ++ [SlideshowPaused; WormholeShown (display d)])
  /\ (Wormhole.isRunning (wormhole w) = true \/ P = currentYearKey (tm w) ->
      onKeyDown e hours w = w)
  /\ (Wormhole.isRunning (wormhole w) = true ->
      pendingYearKey (tm w) = Some Q -> is_Some (years !! Q) ->
      pendingYearKey (tm (onKeyDown sp hours w)) = None
      /\ tasks (onKeyDown sp hours w) = tasks w ++ [Arriving true Q]
      /\ trace (onKeyDown sp hours w)
         = trace w ++ [EffectsHalted; ArrivalSound; FlashBegun]
      /\ currentYearKey (tm (onKeyDown sp hours w)) = currentYearKey (tm w))
  /\ (Wormhole.isRunning (wormhole w) = false \/ pendingYearKey (tm w) = None ->
      onKeyDown sp hours w = w).
Proof.
  intros HP Hk Hc Hsp.
  rewrite (onKeyDown_digit P e hours w HP Hk Hc), (onKeyDown_space sp hours w Hsp).
  unfold Wormhole.isRunning.
  split; [|split; [|split]].
  - intros Hrun Hne. apply Z.eqb_neq in Hne. rewrite Hne.
    destruct (years_digit P HP) as [d Hd]. exists d. split; [exact Hd|].
    unfold initiateTimeTravel, Wormhole.isRunning, startWormhole, Wormhole.start.
    rewrite Hrun, Hd. simpl. rewrite Hrun. simpl.
    rewrite <- app_assoc. auto.
  - intros [Hrun| ->].
    + unfold initiateTimeTravel, Wormhole.isRunning. rewrite Hrun.
      destruct (_ =? _); reflexivity.
    + now rewrite Z.eqb_refl.
  - intros Hrun Hp [d Hd]. rewrite Hrun.
    unfold completeTimeTravel. rewrite Hp. simpl.
    assert ((Q =? 0) = false) as -> by (apply Z.eqb_neq; intros ->; discriminate Hd).
    unfold stopThenGo, Wormhole.stopBegin. simpl. rewrite Hrun. simpl. auto.
  - intros [Hrun|Hp].
    + now rewrite Hrun.
    + unfold completeTimeTravel. rewrite Hp. simpl.
      destruct (Wormhole.isActive (wormhole w)); reflexivity.
Qed.

(** Key 3 on the bare page. *)
Lemma manual_trigger_contract_witness :
  exists d, years !! 3 = Some d
    /\ pendingYearKey (tm (onKeyDown digit3 13 (booted bareBoot))) = Some 3
    /\ Wormhole.isRunning (wormhole (onKeyDown digit3 13 (booted bareBoot))) = true
    /\ currentYearKey (tm (onKeyDown digit3 13 (booted bareBoot))) = 1
    /\ trace (onKeyDown digit3 13 (booted bareBoot))
       = trace (booted bareBoot) ++ [SlideshowPaused; WormholeShown (display d)].
Proof.
  refine (proj1 (manual_trigger_contract (booted bareBoot) 3 3 digit3 spaceBar 13
                   _ eq_refl _ eq_refl) eq_refl _).
  - lia.
  - discriminate.
  - discriminate.
Defined.

(** ** Scheduled travel *)

Lemma scheduledTravels_app l1 l2 :
  scheduledTravels (l1 ++ l2) = (scheduledTravels l1 + scheduledTravels l2)%nat.
Proof. unfold scheduledTravels. now rewrite List.filter_app, length_app. Qed.

Lemma sameSchedule_refl w : sameSchedule w w.
Proof. split; reflexivity. Qed.

Lemma sameSchedule_trans w1 w2 w3 :
  sameSchedule w1 w2 -> sameSchedule w2 w3 -> sameSchedule w1 w3.
Proof. intros [? ?] [? ?]. split; congruence. Qed.

Lemma sameSchedule_goToYear k a w : sameSchedule w (goToYear k a w).
Proof.
  unfold goToYear. destruct (years !! k); [destruct a|]; split; simpl;
    rewrite ?scheduledTravels_app; unfold scheduledTravels; simpl; auto; lia.
Qed.

Lemma sameSchedule_stopThenGo manual k w : sameSchedule w (stopThenGo manual k w).
Proof.
  unfold stopThenGo, Wormhole.stopBegin.
  destruct (Wormhole.isActive (wormhole w)); simpl.
  - split; simpl; rewrite ?scheduledTravels_app; unfold scheduledTravels; simpl; auto; lia.
  - eapply sameSchedule_trans; [|apply sameSchedule_goToYear].
    split; simpl; rewrite ?scheduledTravels_app; unfold scheduledTravels; simpl; auto; lia.
Qed.

Lemma sameSchedule_initiateTimeTravel k w : sameSchedule w (initiateTimeTravel k w).
Proof.
  unfold initiateTimeTravel, startWormhole, Wormhole.start. simpl.
  destruct (Wormhole.isRunning (wormhole w)) eqn:Hr; [apply sameSchedule_refl|].
  destruct (years !! k); [|apply sameSchedule_refl].
  unfold Wormhole.isRunning in Hr. rewrite Hr.
  split; simpl; rewrite ?scheduledTravels_app; unfold scheduledTravels; simpl; auto; lia.
Qed.

Lemma sameSchedule_completeTimeTravel w : sameSchedule w (completeTimeTravel w).
Proof.
  unfold completeTimeTravel.
  destruct (noPending _); [apply sameSchedule_refl|].
  destruct (pendingYearKey (tm w)); [|apply sameSchedule_refl].
  eapply sameSchedule_trans; [|apply sameSchedule_stopThenGo].
  split; reflexivity.
Qed.

Lemma sameSchedule_set_chimes c w : sameSchedule w (set_chimes c w).
Proof. split; reflexivity. Qed.

Lemma sameSchedule_onKeyDown e hours w : sameSchedule w (onKeyDown e hours w).
Proof.
  unfold onKeyDown.
  repeat match goal with
         | |- sameSchedule ?a ?a => apply sameSchedule_refl
         | |- sameSchedule _ (if ?c then _ else _) => destruct c
         | |- sameSchedule _ (set_chimes _ _) =>
             eapply sameSchedule_trans; [|apply sameSchedule_set_chimes]
         | |- sameSchedule _ (emit [Glitch] _) =>
             eapply sameSchedule_trans;
             [|split; simpl; rewrite ?scheduledTravels_app;
               unfold scheduledTravels; simpl; [reflexivity|lia]]
         | |- sameSchedule _ (completeTimeTravel _) =>
             eapply sameSchedule_trans; [|apply sameSchedule_completeTimeTravel]
         | |- sameSchedule _ (initiateTimeTravel _ _) =>
             apply sameSchedule_initiateTimeTravel
         end.
Qed.

Lemma sameSchedule_resume t w : sameSchedule w (resume t w).
Proof.
  destruct t; simpl.
  - apply sameSchedule_stopThenGo.
  - eapply sameSchedule_trans; [|apply sameSchedule_goToYear].
    split; simpl; rewrite ?scheduledTravels_app; unfold scheduledTravels; simpl; auto; lia.
  - split; simpl; rewrite ?scheduledTravels_app; unfold scheduledTravels; simpl; auto; lia.
Qed.

(** Only a clock tick moves the schedule cursor or triggers a scheduled
    travel. *)
Lemma sameSchedule_step w i :
  match i with ClockTick _ => True | _ => sameSchedule w (step w i) end.
Proof.
  destruct i as [e hours|hours|n|c]; simpl; auto.
  - apply sameSchedule_onKeyDown.
  - destruct (tasks w !! n) as [t|]; [|apply sameSchedule_refl].
    eapply sameSchedule_trans; [|apply sameSchedule_resume].
    split; reflexivity.
  - split; reflexivity.
Qed.

(** A tick at an hour that is already marked changes nothing. *)
Lemma tick_marked h w :
  lastScheduledHour (tm w) = Some h -> is_Some (schedule !! h) ->
  updateClock h w = w.
Proof.
  intros Hl [k Hk]. unfold updateClock, checkScheduledTravel.
  destruct (Wormhole.isRunning (wormhole w)); [reflexivity|].
  rewrite Hk, Hl. now rewrite bool_decide_eq_true_2.
Qed.

(** A tick either triggers nothing, or triggers once and marks its hour. *)
Lemma tick_triggers h w :
  sameSchedule w (updateClock h w)
  \/ scheduledTravels (trace (updateClock h w)) = scheduledTravels (trace w)
  \/ (scheduledTravels (trace (updateClock h w)) = S (scheduledTravels (trace w))
      /\ lastScheduledHour (tm (updateClock h w)) = Some h
      /\ is_Some (schedule !! h)).
Proof.
  unfold updateClock, checkScheduledTravel.
  destruct (Wormhole.isRunning (wormhole w)) eqn:Hr;
    [left; apply sameSchedule_refl|].
  destruct (schedule !! h) as [k|] eqn:Hk; [|right; left; reflexivity].
  destruct (bool_decide _); [left; apply sameSchedule_refl|].
  destruct (_ =? _); [right; left; reflexivity|].
  right; right. unfold initiateAutomaticTimeTravel, startWormhole, Wormhole.start.
  unfold Wormhole.isRunning in Hr.
  destruct (years !! k); simpl; rewrite ?Hr; simpl;
    rewrite ?scheduledTravels_app; unfold scheduledTravels; simpl;
    repeat split; eauto; lia.
Qed.

Lemma ticksAt_cons h i inputs :
  ticksAt h (i :: inputs) ->
  ticksAt h inputs /\ match i with ClockTick h' => h' = h | _ => True end.
Proof.
  intros H. split.
  - intros h' Hin. apply H. now right.
  - destruct i; auto. apply H. now left.
Qed.

(** Once the hour is marked, no run of ticks at that hour triggers again. *)
Lemma marked_stays h inputs : forall w,
  ticksAt h inputs ->
  lastScheduledHour (tm w) = Some h -> is_Some (schedule !! h) ->
  sameSchedule w (run inputs w).
Proof.
  induction inputs as [|i inputs IH]; intros w Ht Hl Hs; simpl.
  - apply sameSchedule_refl.
  - apply ticksAt_cons in Ht as [Ht Hi].
    pose proof (sameSchedule_step w i) as Hstep.
    destruct i as [e hours|hours|n|c]; try subst hours.
    2: { simpl. rewrite tick_marked by assumption. now apply IH. }
    all: eapply sameSchedule_trans; [exact Hstep|];
      apply IH; auto; destruct Hstep as [-> _]; exact Hl.
Qed.

Lemma scheduled_at_most_once h inputs : forall w,
  ticksAt h inputs ->
  (scheduledTravels (trace (run inputs w)) <= S (scheduledTravels (trace w)))%nat.
Proof.
  induction inputs as [|i inputs IH]; intros w Ht; simpl; [lia|].
  apply ticksAt_cons in Ht as [Ht Hi].
  pose proof (sameSchedule_step w i) as Hstep.
  destruct i as [e hours|hours|n|c]; try subst hours.
  2: { simpl. destruct (tick_triggers h w) as [[_ H]|[H|(H & Hl & Hs)]].
       - rewrite <- H. now apply IH.
       - rewrite <- H. now apply IH.
       - destruct (marked_stays h inputs _ Ht Hl Hs) as [_ ->]. lia. }
  all: destruct Hstep as [_ <-]; now apply IH.
Qed.

Lemma lastScheduledHour_initiateAutomaticTimeTravel k w :
  lastScheduledHour (tm (initiateAutomaticTimeTravel k w)) = lastScheduledHour (tm w).
Proof.
  unfold initiateAutomaticTimeTravel, startWormhole, Wormhole.start. simpl.
  destruct (years !! k); [|reflexivity].
  destruct (Wormhole.isActive (wormhole w)); reflexivity.
Qed.

Lemma tick_marks h w :
  Wormhole.isRunning (wormhole w) = false -> is_Some (schedule !! h) ->
  lastScheduledHour (tm (updateClock h w)) = Some h.
Proof.
  intros Hr [k Hk]. unfold updateClock, checkScheduledTravel. rewrite Hr, Hk.
  case_bool_decide as Hl; [exact Hl|].
  destruct (_ =? _); [reflexivity|].
  now rewrite lastScheduledHour_initiateAutomaticTimeTravel.
Qed.

Lemma tick_at_marked_hour h w :
  lastScheduledHour (tm w) = Some h ->
  wormhole (updateClock h w) = wormhole w
  /\ slideshow (updateClock h w) = slideshow w
  /\ tasks (updateClock h w) = tasks w
  /\ trace (updateClock h w) = trace w.
Proof.
  intros Hl. unfold updateClock, checkScheduledTravel.
  destruct (Wormhole.isRunning (wormhole w)); [auto|].
  destruct (schedule !! h); [|auto].
  rewrite Hl. now rewrite bool_decide_eq_true_2.
Qed.

(** C4, amended: while the clock keeps showing the hour h, whatever keys,
    timers and chimes come in between, at most one scheduled travel is
    triggered; a tick taken while the wormhole is idle at an hour with a
    schedule entry leaves that hour marked; a tick at the marked hour
    starts nothing, and with a schedule entry for h no later input
    triggers again; on a tick whose hour has no schedule entry
    [lastScheduledHour] is reset to empty when the wormhole is idle and
    kept when it is active. *)
Theorem scheduled_travel_once (w : World) (h : Z) (inputs : list Input) :
  ticksAt h inputs ->
  (scheduledTravels (trace (run inputs w)) <= S (scheduledTravels (trace w)))%nat
  /\ (Wormhole.isRunning (wormhole w) = false -> is_Some (schedule !! h) ->
      lastScheduledHour (tm (updateClock h w)) = Some h)
  /\ (lastScheduledHour (tm w) = Some h ->
      wormhole (updateClock h w) = wormhole w
      /\ slideshow (updateClock h w) = slideshow w
      /\ tasks (updateClock h w) = tasks w
      /\ trace (updateClock h w) = trace w
      /\ (is_Some (schedule !! h) ->
          scheduledTravels (trace (run inputs w)) = scheduledTravels (trace w)))
  /\ (schedule !! h = None ->
      lastScheduledHour (tm (updateClock h w))
      = if Wormhole.isRunning (wormhole w) then lastScheduledHour (tm w) else None).
Proof.
  intros Ht. split; [|split; [|split]].
  - now apply scheduled_at_most_once with (h := h).
  - apply tick_marks.
  - intros Hl. destruct (tick_at_marked_hour h w Hl) as (? & ? & ? & ?).
    repeat split; try assumption.
    intros Hs. now destruct (marked_stays h inputs w Ht Hl Hs).
  - intros Hn. unfold updateClock, checkScheduledTravel. rewrite Hn.
    destruct (Wormhole.isRunning (wormhole w)); reflexivity.
Qed.

(** Two ticks of 21h on the bare page trigger at most once. *)
Lemma scheduled_travel_once_witness :
  (scheduledTravels (trace (run [ClockTick 21; ClockTick 21] (booted bareBoot)))
   <= S (scheduledTravels (trace (booted bareBoot))))%nat.
Proof.
  refine (proj1 (scheduled_travel_once (booted bareBoot) 21
                   [ClockTick 21; ClockTick 21] _)).
  intros h' [H|[H|[]]]; injection H; auto.
Defined.

(** C4 as stated fails in its last clause: after the scheduled travel of
    12h has completed, key 3 starts a manual transition; a tick of 13h,
    an hour without schedule entry, taken while that transition is in
    flight leaves [lastScheduledHour] at 12. *)
Lemma tick_while_travelling_keeps_cursor_counterexample :
  schedule !! 13 = None
  /\ lastScheduledHour
       (tm (updateClock 13
              (run [ClockTick 12; TimerFires 0; TimerFires 0; KeyDown digit3 12]
                 (booted bareBoot))))
     = Some 12.
Proof. split; reflexivity. Qed.

(** C5, amended: on a clock tick taken while the wormhole is idle, at an
    hour whose schedule entry is the current period, the hour is marked
    ([lastScheduledHour] is that hour) and nothing else moves: the
    wormhole is not started, the slideshow is not paused, no call is
    suspended, nothing is logged, [currentYearKey] keeps its value. *)
Theorem scheduled_target_is_current (w : World) (h k : Z) :
  Wormhole.isRunning (wormhole w) = false ->
  schedule !! h = Some k -> currentYearKey (tm w) = k ->
  lastScheduledHour (tm (updateClock h w)) = Some h
  /\ wormhole (updateClock h w) = wormhole w
  /\ slideshow (updateClock h w) = slideshow w
  /\ currentYearKey (tm (updateClock h w)) = currentYearKey (tm w)
  /\ pendingYearKey (tm (updateClock h w)) = pendingYearKey (tm w)
  /\ tasks (updateClock h w) = tasks w
  /\ trace (updateClock h w) = trace w.
Proof.
  intros Hr Hk Hc. unfold updateClock, checkScheduledTravel. rewrite Hr, Hk.
  case_bool_decide as Hl; [auto 10|].
  apply Z.eqb_eq in Hc. rewrite Hc. simpl. auto 10.
Qed.

(** 20h on the bare page, whose period 1 is the entry of 20h. *)
Lemma scheduled_target_is_current_witness :
  lastScheduledHour (tm (updateClock 20 (booted bareBoot))) = Some 20
  /\ wormhole (updateClock 20 (booted bareBoot)) = wormhole (booted bareBoot).
Proof.
  destruct (scheduled_target_is_current (booted bareBoot) 20 1 eq_refl eq_refl eq_refl)
    as (H1 & H2 & _).
  exact (conj H1 H2).
Defined.

(** C5 as stated fails while a transition is in flight: after key 3 on
    the bare page, the tick of 20h, whose entry is the current period
    1, does not mark the hour. *)
Lemma tick_while_travelling_unmarked_counterexample :
  schedule !! 20
  = Some (currentYearKey (tm (run [KeyDown digit3 20] (booted bareBoot))))
  /\ lastScheduledHour
       (tm (updateClock 20 (run [KeyDown digit3 20] (booted bareBoot))))
     <> Some 20.
Proof. split; [reflexivity|discriminate]. Qed.

End AppProps.

(** * Properties of the facts *)

Module FactsProps.
Import Facts.


(** What [loadAllFacts] leaves for each of the five folders. *)
Lemma loadAllFacts_lookup fetch (facts : gmap string (list (list N))) folder :
  In folder folders ->
  loadAllFacts fetch facts !! folder
  = Some (match fetch ("facts/" +:+ folder +:+ ".txt") with
          | Text text => factLines text
          | Rejected => [unavailable]
          end).
Proof.
  intros Hin. unfold loadAllFacts.
  set (entry := fun folder => match fetch ("facts/" +:+ folder +:+ ".txt") with
                              | Text text => factLines text
                              | Rejected => [unavailable]
                              end).
  assert (Hstep : forall (m : gmap string (list (list N))) f,
             match fetch ("facts/" +:+ f +:+ ".txt") with
             | Text text => <[f := factLines text]> m
             | Rejected => <[f := [unavailable]]> m
             end = <[f := entry f]> m).
  { intros m f. unfold entry. destruct (fetch _); reflexivity. }
  change (fold_left
            (fun m f => match fetch ("facts/" +:+ f +:+ ".txt") with
                        | Text text => <[f := factLines text]> m
                        | Rejected => <[f := [unavailable]]> m
                        end) folders facts !! folder = Some (entry folder)).
  unfold folders. simpl. rewrite !Hstep.
  simpl in Hin.
  destruct Hin as [<-|[<-|[<-|[<-|[<-|[]]]]]]; by simplify_map_eq.
Qed.

(** C8, at the failing input: when the fetch of facts/1969.txt yields an
    empty body (and every other fetch is rejected), the facts of 1969
    are the empty list, not a default line, and the ticker of 1969 is
    rendered from that empty set: both spans hold the separator alone;
    on the page booted with these fetches, travelling to 1969 (key 2,
    space bar, end of the flash, end of the fade) ends in the ticker
    built from no fact.  The rejected fetch of 2025 does leave the
    single default line. *)
Theorem empty_body_leaves_no_fact (rnd : nat -> nat) :
  let fetch := fun url =>
    if String.eqb url "facts/1969.txt" then Text [] else Rejected in
  let facts := loadAllFacts fetch ∅ in
  let page := App.booted {| App.bell := None; App.fetchedManifest := None;
                            App.fetchFacts := fetch; App.chimeHours := 13;
                            App.chimeMinutes := 30; App.clockHours := 13 |} in
  facts !! "1969"%string = Some []
  /\ facts !! "2025"%string = Some [unavailable]
  /\ tickerFacts facts "1969" = []
  /\ spans (startFactsRotation rnd facts "1969") = [separator; separator]
  /\ last (App.trace
             (App.run [App.KeyDown {| App.key := "2"; App.code := "Digit2" |} 13;
                       App.KeyDown App.spaceBar 13;
                       App.TimerFires 0; App.TimerFires 0] page))
     = Some (TickerBuilt "1969" []).
Proof.
  intros fetch facts page.
  assert (H69 : facts !! "1969"%string = Some []).
  { unfold facts. rewrite loadAllFacts_lookup by (simpl; auto). reflexivity. }
  assert (H25 : facts !! "2025"%string = Some [unavailable]).
  { unfold facts. rewrite loadAllFacts_lookup by (simpl; auto). reflexivity. }
  split; [exact H69|]. split; [exact H25|]. split; [|split].
  - unfold tickerFacts. now rewrite H69.
  - unfold startFactsRotation, tickerFacts. rewrite H69. reflexivity.
  - vm_compute. reflexivity.
Qed.

(** A rejected fetch leaves the single default line, for each folder. *)
Lemma rejected_fetch_default_line fetch (facts : gmap string (list (list N))) folder :
  In folder folders ->
  fetch ("facts/" +:+ folder +:+ ".txt") = Rejected ->
  loadAllFacts fetch facts !! folder = Some [unavailable].
Proof.
  intros Hin Hf. rewrite loadAllFacts_lookup by exact Hin. now rewrite Hf.
Qed.

(** A fetched text without a visible character leaves no fact at all. *)
Lemma blank_text_no_fact text :
  forallb (fun c => JsString.isWhiteSpace c) text = true -> factLines text = [].
Proof.
  unfold factLines. intros Hb.
  assert (Hall : forall pieces,
             Forall (fun line => forallb JsString.isWhiteSpace line = true) pieces ->
             List.filter (fun line => (0 <? length line)%nat)
               (map JsString.trim pieces) = []).
  { induction 1 as [|line pieces Hl _ IH]; simpl; [reflexivity|].
    assert (JsString.trim line = []) as ->; [|exact IH].
    assert (Hts : JsString.trimStart line = []).
    { induction line as [|ch line IHl]; simpl in *; [reflexivity|].
      apply andb_prop in Hl as [-> Hl]. now apply IHl. }
    unfold JsString.trim. now rewrite Hts. }
  apply Hall. clear Hall.
  induction text as [|ch text IH]; simpl.
  - repeat constructor.
  - simpl in Hb. apply andb_prop in Hb as [Hc Hb]. specialize (IH Hb).
    destruct (ch =? 10)%N.
    + constructor; [reflexivity|exact IH].
    + destruct (JsString.split 10 text) as [|piece pieces].
      * repeat constructor. simpl. now rewrite Hc.
      * inversion IH as [|? ? Hp Hps]; subst. constructor; [|exact Hps].
        simpl. now rewrite Hc, Hp.
Qed.

End FactsProps.

(** * Further properties of the chimes manager *)

Module ChimesMore.
Import Chimes ChimesProps Readings.

Lemma getChimeCount_range h : 0 <= h <= 23 -> 1 <= getChimeCount h <= 12.
Proof.
  intros Hh. unfold getChimeCount.
  rewrite Z.rem_mod_nonneg by lia.
  pose proof (Z.mod_pos_bound h 12 ltac:(lia)).
  destruct (Z.eqb_spec (h mod 12) 0); lia.
Qed.

(** X13: the hourly chime from start to end.  At minute 0 of an hour
    [h] that has not chimed yet, a page with a bell element that is not
    chiming rings the hour: left alone, the sequence ends, its strikes
    are the hour on a twelve-hour dial with one wait less than
    strikes, the hour is marked, and a further check in the same hour
    starts nothing. *)
Theorem hourly_chime_rings_the_hour (bell : option AudioElement)
    (inputs : list Signal) (h : Z) (plays : Z -> bool) (fuel : nat) :
  let m := handleAll inputs (newChimes bell) in
  present bell = true -> isChiming m = false -> lastChimeHour m <> h ->
  0 <= h <= 23 -> (36 <= fuel)%nat ->
  let m' := drain fuel plays (checkTime h 0 m) in
  running m' = [] /\ isChiming m' = false /\ lastChimeHour m' = h
  /\ (exists seq, log m' = log m ++ seq
        /\ Z.of_nat (strikes seq) = (if h mod 12 =? 0 then 12 else h mod 12)
        /\ (waits seq + 1 = strikes seq)%nat
        /\ waitsAre 1920 seq = true)
  /\ forall mi, checkTime h mi m' = m'.
Proof.
  intros m Hb Hc Hl Hh Hf m'.
  pose proof (handleAll_sequenced bell inputs) as Hs.
  pose proof (handleAll_audioBell bell inputs) as Ha. fold m in Hs, Ha.
  assert (Hr : running m = []) by now apply sequenced_idle.
  assert (Hd : bellDelay m = 1920) by apply Hs.
  pose proof (getChimeCount_range h Hh) as Hn.
  assert (Hm' : m' = drain fuel plays
                       (suspend (chime (getChimeCount h) (set_lastChimeHour h m)))).
  { unfold m', checkTime. rewrite Hc. simpl.
    apply Z.eqb_neq in Hl. rewrite Z.eqb_sym in Hl. now rewrite Hl. }
  destruct (chime_uninterrupted (set_lastChimeHour h m) (getChimeCount h) plays fuel)
    as (Hr' & Hc' & Hl' & seq & Hlog & Hst & Hw & Hwa & _);
    try (simpl; assumption); try lia.
  { simpl. now rewrite Ha. }
  rewrite <- Hm' in Hr', Hc', Hl', Hlog. simpl in Hl', Hlog, Hwa.
  split; [exact Hr'|]. split; [exact Hc'|]. split; [exact Hl'|]. split.
  - exists seq. split; [exact Hlog|]. rewrite Hst, Hw.
    split; [|split; [lia|now rewrite <- Hd]].
    unfold getChimeCount in *. rewrite Z.rem_mod_nonneg in * by lia. lia.
  - intros mi. unfold checkTime. rewrite Hl', Z.eqb_refl.
    now rewrite andb_false_r.
Qed.

Lemma hourly_chime_rings_the_hour_witness :
  exists seq,
    log (drain 36 (fun _ => true)
           (checkTime 15 0 (newChimes (Some {| src := "bell.mp3"; error := false |}))))
    = [] ++ seq
    /\ Z.of_nat (strikes seq) = 3.
Proof.
  destruct (hourly_chime_rings_the_hour (Some {| src := "bell.mp3"; error := false |})
              [] 15 (fun _ => true) 36 eq_refl eq_refl ltac:(discriminate)
              ltac:(lia) ltac:(lia))
    as (_ & _ & _ & (seq & Hlog & Hst & _) & _).
  exists seq. split; [exact Hlog|exact Hst].
Defined.

Lemma shows_app l1 l2 : shows (l1 ++ l2) = (shows l1 + shows l2)%nat.
Proof. unfold shows. now rewrite List.filter_app, length_app. Qed.

Ltac count_shows :=
  rewrite ?shows_app;
  repeat match goal with
         | |- context [shows (?e :: ?l)] =>
             let v := eval cbv in (shows (e :: l)) in
             change (shows (e :: l)) with v
         end;
  lia.

Lemma shows_settle n ok m : shows (log (settle n ok m)) = shows (log m).
Proof.
  unfold settle. destruct (running m !! n) as [p|]; [|reflexivity].
  destruct p; simpl; unfold loopHead, playBell;
    repeat match goal with |- context [if ?c then _ else _] => destruct c; simpl end;
    count_shows.
Qed.

(** A check of the time starts at most one sequence, and none in an
    hour that is marked. *)
Lemma shows_checkTime h mi m :
  (lastChimeHour m = h -> checkTime h mi m = m)
  /\ (checkTime h mi m = m
      \/ lastChimeHour (checkTime h mi m) = h
         /\ (shows (log (checkTime h mi m)) <= shows (log m) + 1)%nat).
Proof.
  unfold checkTime. split.
  - intros ->. rewrite Z.eqb_refl. now rewrite andb_false_r.
  - destruct (_ && _); [right|now left].
    rewrite spawn_chime_lastChimeHour. split; [reflexivity|].
    unfold chime, loopHead, playBell, suspend.
    repeat match goal with |- context [if ?c then _ else _] => destruct c; simpl end;
      count_shows.
Qed.

(** X14: the hourly chime rings at most once an hour.  Over whatever
    checks of the time within one hour [h] and whatever settlements of
    promises and timers, with no manual test in between, at most one
    chime sequence starts, and none when the hour is marked already. *)
Theorem hourly_chime_once_an_hour (h : Z) (es : list Signal) : forall m,
  Forall (fun e => match e with
                   | CheckTime h' _ => h' = h
                   | TestChime _ => False
                   | Settle _ _ => True
                   end) es ->
  (shows (log (handleAll es m)) <= shows (log m) + 1)%nat
  /\ (lastChimeHour m = h -> shows (log (handleAll es m)) = shows (log m)).
Proof.
  assert (Hmarked : forall es m,
            Forall (fun e => match e with
                             | CheckTime h' _ => h' = h
                             | TestChime _ => False
                             | Settle _ _ => True
                             end) es ->
            lastChimeHour m = h -> shows (log (handleAll es m)) = shows (log m)).
  { clear es. induction es as [|e es IH]; intros m Hall Hl; [reflexivity|].
    inversion Hall as [|? ? He Hes]; subst. simpl.
    destruct e as [h' mi|c|n ok]; simpl.
    - subst h'. now rewrite (proj1 (shows_checkTime _ mi m) eq_refl), IH.
    - destruct He.
    - rewrite IH by (try assumption; apply settle_lastChimeHour).
      apply shows_settle. }
  induction es as [|e es IH]; intros m Hall; [simpl; split; [lia|reflexivity]|].
  split; [|now apply Hmarked].
  inversion Hall as [|? ? He Hes]; subst. simpl.
  destruct e as [h' mi|c|n ok]; simpl.
  - subst h'. destruct (proj2 (shows_checkTime h mi m)) as [->|[Hl Hle]].
    + now apply IH.
    + rewrite (Hmarked es _ Hes Hl). exact Hle.
  - destruct He.
  - destruct (IH (settle n ok m) Hes) as [Hle _].
    now rewrite shows_settle in Hle.
Qed.

Lemma hourly_chime_once_an_hour_witness :
  (shows (log (handleAll [CheckTime 15 0; Settle 0 true; CheckTime 15 0]
                 (newChimes (Some {| src := "bell.mp3"; error := false |}))))
   <= shows (log (newChimes (Some {| src := "bell.mp3"; error := false |}))) + 1)%nat.
Proof.
  apply (hourly_chime_once_an_hour 15
           [CheckTime 15 0; Settle 0 true; CheckTime 15 0]).
  repeat constructor.
Defined.

End ChimesMore.

(** * Further properties of the coordinator *)

Module AppMore.
Import App AppProps Readings.

(** ** The two tables *)

Lemma years_cases k cfg :
  years !! k = Some cfg ->
  1 <= k <= 5 /\ In (folder cfg) Facts.folders.
Proof.
  unfold years. intros H.
  repeat (rewrite lookup_insert in H; case_decide; subst;
          [injection H as <-; simpl; split; [lia|tauto]|]).
  now rewrite lookup_empty in H.
Qed.

Lemma schedule_cases h k :
  schedule !! h = Some k -> 0 <= h <= 23 /\ is_Some (years !! k).
Proof.
  unfold schedule. intros H.
  repeat (rewrite lookup_insert in H; case_decide; subst;
          [injection H as <-; split; [lia|eexists; reflexivity]|]).
  now rewrite lookup_empty in H.
Qed.

(** ** What a step can do to the coordinator's fields *)

Lemma evolves_refl w : evolves w w.
Proof. repeat split; auto. Qed.

Lemma evolves_trans w1 w2 w3 : evolves w1 w2 -> evolves w2 w3 -> evolves w1 w3.
Proof.
  intros (Hm1 & Hf1 & Hc1 & Hl1) (Hm2 & Hf2 & Hc2 & Hl2).
  split; [congruence|]. split; [congruence|]. split.
  - destruct Hc2 as [Hc2|Hc2]; [|now right].
    destruct Hc1 as [Hc1|Hc1]; [left; congruence|right; now rewrite Hc2].
  - destruct Hl2 as [Hl2|[Hl2|Hl2]]; [|now right; left|now right; right].
    destruct Hl1 as [Hl1|[Hl1|(h & Hl1 & Hs)]].
    + left. congruence.
    + right; left. congruence.
    + right; right. exists h. split; [congruence|exact Hs].
Qed.

(** A change that leaves the coordinator's own fields alone. *)
Lemma evolves_same_tm w w' :
  currentYearKey (tm w') = currentYearKey (tm w) ->
  lastScheduledHour (tm w') = lastScheduledHour (tm w) ->
  manifest (tm w') = manifest (tm w) -> facts (tm w') = facts (tm w) ->
  evolves w w'.
Proof. intros. repeat split; auto. Qed.

Lemma evolves_goToYear k a w : evolves w (goToYear k a w).
Proof.
  unfold goToYear. destruct (years !! k) as [cfg|] eqn:Hk; [|apply evolves_refl].
  destruct a; repeat split; simpl; auto; right; rewrite Hk; eauto.
Qed.

Lemma evolves_stopThenGo manual k w : evolves w (stopThenGo manual k w).
Proof.
  unfold stopThenGo, Wormhole.stopBegin.
  destruct (Wormhole.isActive (wormhole w)); simpl.
  - now apply evolves_same_tm.
  - eapply evolves_trans; [|apply evolves_goToYear]. now apply evolves_same_tm.
Qed.

Lemma evolves_initiateTimeTravel k w : evolves w (initiateTimeTravel k w).
Proof.
  unfold initiateTimeTravel, startWormhole, Wormhole.start. simpl.
  destruct (Wormhole.isRunning (wormhole w)) eqn:Hr; [apply evolves_refl|].
  destruct (years !! k); [|apply evolves_refl].
  unfold Wormhole.isRunning in Hr. rewrite Hr. now apply evolves_same_tm.
Qed.

Lemma evolves_completeTimeTravel w : evolves w (completeTimeTravel w).
Proof.
  unfold completeTimeTravel.
  destruct (noPending _); [apply evolves_refl|].
  destruct (pendingYearKey (tm w)); [|apply evolves_refl].
  eapply evolves_trans; [|apply evolves_stopThenGo]. now apply evolves_same_tm.
Qed.

Lemma evolves_checkScheduledTravel h w : evolves w (checkScheduledTravel h w).
Proof.
  unfold checkScheduledTravel.
  destruct (Wormhole.isRunning (wormhole w)) eqn:Hr; [apply evolves_refl|].
  destruct (schedule !! h) as [k|] eqn:Hk.
  - destruct (bool_decide _); [apply evolves_refl|].
    assert (Hmark : forall w', currentYearKey (tm w') = currentYearKey (tm w) ->
               lastScheduledHour (tm w') = Some h ->
               manifest (tm w') = manifest (tm w) -> facts (tm w') = facts (tm w) ->
               evolves w w').
    { intros w' ? Hl ? ?. repeat split; auto. right; right. exists h. split; eauto. }
    destruct (_ =? _); [now apply Hmark|].
    unfold initiateAutomaticTimeTravel, startWormhole, Wormhole.start. simpl.
    unfold Wormhole.isRunning in Hr. rewrite Hr.
    destruct (years !! k); now apply Hmark.
  - repeat split; simpl; auto.
Qed.

Lemma evolves_set_chimes c w w' : evolves w w' -> evolves w (set_chimes c w').
Proof. intros H. eapply evolves_trans; [exact H|]. now apply evolves_same_tm. Qed.

Lemma evolves_emit es w w' : evolves w w' -> evolves w (emit es w').
Proof. intros H. eapply evolves_trans; [exact H|]. now apply evolves_same_tm. Qed.

Lemma evolves_onKeyDown e hours w : evolves w (onKeyDown e hours w).
Proof.
  unfold onKeyDown.
  repeat match goal with
         | |- evolves ?a ?a => apply evolves_refl
         | |- evolves _ (if ?c then _ else _) => destruct c
         | |- evolves _ (set_chimes _ _) => apply evolves_set_chimes
         | |- evolves _ (emit [Glitch] _) => apply evolves_emit
         | |- evolves _ (completeTimeTravel _) =>
             eapply evolves_trans; [|apply evolves_completeTimeTravel]
         | |- evolves _ (initiateTimeTravel _ _) =>
             apply evolves_initiateTimeTravel
         end.
Qed.

Lemma evolves_resume t w : evolves w (resume t w).
Proof.
  destruct t; simpl.
  - apply evolves_stopThenGo.
  - eapply evolves_trans; [|apply evolves_goToYear]. now apply evolves_same_tm.
  - now apply evolves_same_tm.
Qed.

Lemma evolves_step w i : evolves w (step w i).
Proof.
  destruct i as [e hours|hours|n|c]; simpl.
  - apply evolves_onKeyDown.
  - apply evolves_checkScheduledTravel.
  - destruct (tasks w !! n) as [t|]; [|apply evolves_refl].
    eapply evolves_trans; [|apply evolves_resume]. now apply evolves_same_tm.
  - now apply evolves_same_tm.
Qed.

Lemma evolves_run inputs : forall w, evolves w (run inputs w).
Proof.
  induction inputs as [|i inputs IH]; intros w; simpl; [apply evolves_refl|].
  eapply evolves_trans; [apply evolves_step|apply IH].
Qed.

Lemma settled_evolves w w' : settled w -> evolves w w' -> settled w'.
Proof.
  intros [Hc Hl] (_ & _ & Hc' & Hl'). split.
  - destruct Hc' as [->|Hc']; assumption.
  - destruct Hl' as [->|[->|(h & -> & Hs)]]; auto.
Qed.

Lemma settled_booted b : settled (booted b).
Proof.
  unfold booted, init.
  eapply settled_evolves; [|eapply evolves_trans;
                             [apply evolves_checkScheduledTravel|apply evolves_goToYear]].
  split; simpl.
  - destruct (fetchedManifest b); simpl; eexists; reflexivity.
  - destruct (fetchedManifest b); exact I.
Qed.

(** ** The state always names real periods and scheduled hours *)

(** X5: whatever the page is fed after its start, the current period is
    one of the five keys of the year table, a pending destination is
    one too, and the schedule cursor, when set, is an hour of the day
    that the schedule holds. *)
Theorem state_names_are_valid (b : Boot) (inputs : list Input) :
  let w := run inputs (booted b) in
  1 <= currentYearKey (tm w) <= 5
  /\ is_Some (years !! currentYearKey (tm w))
  /\ match pendingYearKey (tm w) with
     | Some k => 1 <= k <= 5 /\ is_Some (years !! k)
     | None => True
     end
  /\ match lastScheduledHour (tm w) with
     | Some h => 0 <= h <= 23 /\ is_Some (schedule !! h)
     | None => True
     end.
Proof.
  intros w.
  destruct (settled_evolves _ _ (settled_booted b) (evolves_run inputs (booted b)))
    as [Hc Hl]. fold w in Hc, Hl.
  destruct (sound_run inputs (booted b) (sound_booted b)) as [Hcoh _ _ _].
  fold w in Hcoh.
  split; [destruct Hc as [cfg Hc]; now apply years_cases in Hc|].
  split; [exact Hc|]. split.
  - unfold coherent in Hcoh.
    destruct (pendingYearKey (tm w)) as [k|]; [|exact I].
    assert (is_Some (years !! k)) as Hk.
    { destruct (Wormhole.isActive (wormhole w));
        [destruct Hcoh as [[H _]|[H _]]|destruct Hcoh as [H _]];
        try discriminate. exact H. }
    split; [|exact Hk]. destruct Hk as [cfg Hk]. now apply years_cases in Hk.
  - destruct (lastScheduledHour (tm w)) as [h|]; [|exact I].
    split; [|exact Hl]. destruct Hl as [k Hk]. now apply schedule_cases in Hk.
Qed.

(** ** The loaded data *)

Lemma booted_data b :
  manifest (tm (booted b))
  = manifest (tm (loadManifest (fetchedManifest b) (fresh (bell b))))
  /\ facts (tm (booted b)) = Facts.loadAllFacts (fetchFacts b) ∅.
Proof.
  unfold booted, init. cbv zeta.
  match goal with
  | |- context [goToYear 1 false ?w4] =>
      destruct (evolves_goToYear 1 false w4) as (-> & -> & _)
  end.
  unfold updateClock.
  match goal with
  | |- context [checkScheduledTravel ?h ?w3] =>
      destruct (evolves_checkScheduledTravel h w3) as (-> & -> & _)
  end.
  simpl. destruct (fetchedManifest b); split; reflexivity.
Qed.

(** X6: the facts loaded at the start are never changed or lost: at any
    later time the fact set of each period of the year table is what
    its own file gave, its kept lines or, when the fetch was rejected,
    the one line that says so; the fallback for a missing set is
    never reached. *)
Theorem every_period_has_its_facts (b : Boot) (inputs : list Input)
    (k : Z) (cfg : Year) :
  years !! k = Some cfg ->
  Facts.tickerFacts (facts (tm (run inputs (booted b)))) (folder cfg)
  = match fetchFacts b ("facts/" +:+ folder cfg +:+ ".txt") with
    | Facts.Text text => Facts.factLines text
    | Facts.Rejected => [Facts.unavailable]
    end.
Proof.
  intros Hk. apply years_cases in Hk as [_ Hin].
  destruct (evolves_run inputs (booted b)) as (_ & -> & _).
  destruct (booted_data b) as [_ ->].
  unfold Facts.tickerFacts.
  now rewrite (FactsProps.loadAllFacts_lookup _ _ _ Hin).
Qed.

Lemma every_period_has_its_facts_witness :
  Facts.tickerFacts (facts (tm (run [ClockTick 21] (booted bareBoot)))) "1751"
  = [Facts.unavailable].
Proof.
  exact (every_period_has_its_facts bareBoot [ClockTick 21] 3
           {| year := "1751"; era := "CE"; folder := "1751"; display := "1751 CE" |}
           eq_refl).
Defined.

(** ** One episode at a time *)

(** X8: transitions never overlap.  At most one call awaits the hold
    timer or the arrival flash, none when the wormhole is closed; and
    while one does, the wormhole is open, nothing is pending, and the
    space bar, the digit keys and the clock ticks change nothing. *)
Theorem one_episode_at_a_time (b : Boot) (inputs : list Input)
    (t : Task) (e : KeyboardEvent) (hours : Z) :
  let w := run inputs (booted b) in
  (episodes (tasks w) <= 1)%nat
  /\ (Wormhole.isActive (wormhole w) = false -> episodes (tasks w) = O)
  /\ (In t (tasks w) -> holdsEpisode t = true ->
      Wormhole.isActive (wormhole w) = true
      /\ pendingYearKey (tm w) = None
      /\ episodes (tasks w) = 1%nat
      /\ (key e = " "%string -> onKeyDown e hours w = w)
      /\ (forall P, 1 <= P <= 5 -> key e = digitKey P ->
          code e <> "Space"%string -> onKeyDown e hours w = w)
      /\ forall h, updateClock h w = w).
Proof.
  intros w.
  destruct (sound_run inputs (booted b) (sound_booted b)) as [Hcoh _ _ _].
  fold w in Hcoh. unfold coherent in Hcoh.
  split; [|split].
  - destruct (Wormhole.isActive (wormhole w));
      [destruct Hcoh as [[_ ->]|[_ ->]]|destruct Hcoh as [_ ->]]; lia.
  - intros Ha. rewrite Ha in Hcoh. tauto.
  - intros Hin Ht. pose proof (episodes_In _ _ Hin Ht) as He.
    destruct (Wormhole.isActive (wormhole w)) eqn:Ha;
      [destruct Hcoh as [[_ H]|[Hp H]]|destruct Hcoh as [_ H]]; try lia.
    split; [reflexivity|]. split; [exact Hp|]. split; [exact H|].
    split; [|split].
    + intros Hk. rewrite (onKeyDown_space e hours w Hk).
      unfold Wormhole.isRunning. rewrite Ha.
      unfold completeTimeTravel. now rewrite Hp.
    + intros P HP Hk Hc. rewrite (onKeyDown_digit P e hours w HP Hk Hc).
      unfold initiateTimeTravel, Wormhole.isRunning. rewrite Ha.
      now destruct (_ =? _).
    + intros h. unfold updateClock, checkScheduledTravel, Wormhole.isRunning.
      now rewrite Ha.
Qed.

Lemma one_episode_at_a_time_witness :
  Wormhole.isActive (wormhole (run [ClockTick 21] (booted bareBoot))) = true
  /\ pendingYearKey (tm (run [ClockTick 21] (booted bareBoot))) = None.
Proof.
  destruct (one_episode_at_a_time bareBoot [ClockTick 21] (AutoHold 2) spaceBar 21)
    as (_ & _ & H).
  destruct (H (or_introl eq_refl) eq_refl) as (H1 & H2 & _).
  exact (conj H1 H2).
Defined.

(** ** A whole journey *)

Lemma fire_last t ts w :
  tasks w = ts ++ [t] ->
  step w (TimerFires (length ts)) = resume t (set_tasks ts w).
Proof.
  intros Ht. simpl. rewrite Ht.
  rewrite (list_lookup_middle ts [] t (length ts) eq_refl).
  now rewrite delete_middle, app_nil_r.
Qed.

(** The world right after an accepted manual start and its completion
    key: the arrival flash is awaited. *)
Lemma manual_start_and_complete (w : World) (P : Z) (cfg : Year) :
  Wormhole.isRunning (wormhole w) = false -> years !! P = Some cfg ->
  let w2 := completeTimeTravel (initiateTimeTravel P w) in
  tasks w2 = tasks w ++ [Arriving true P]
  /\ Wormhole.isActive (wormhole w2) = true
  /\ currentYearKey (tm w2) = currentYearKey (tm w)
  /\ pendingYearKey (tm w2) = None
  /\ trace w2 = trace w ++ [SlideshowPaused; WormholeShown (display cfg);
                            EffectsHalted; ArrivalSound; FlashBegun]
  /\ Wormhole.isRunning (wormhole (initiateTimeTravel P w)) = true.
Proof.
  intros Hrun Hcfg.
  assert (HP0 : (P =? 0) = false).
  { apply Z.eqb_neq. intros ->. discriminate Hcfg. }
  unfold initiateTimeTravel, startWormhole, Wormhole.start, Wormhole.isRunning in *.
  rewrite Hrun, Hcfg. simpl. rewrite Hrun. simpl.
  unfold completeTimeTravel. simpl. rewrite HP0.
  unfold stopThenGo, Wormhole.stopBegin. simpl.
  rewrite <- !app_assoc. repeat split.
Qed.

(** The arrival: the flash has finished. *)
Lemma arrival (w2 : World) (ts : list Task) (manual : bool) (P : Z) (cfg : Year) :
  tasks w2 = ts ++ [Arriving manual P] -> years !! P = Some cfg ->
  let w3 := step w2 (TimerFires (length ts)) in
  tasks w3 = ts ++ [FadeOut P cfg]
  /\ Wormhole.isActive (wormhole w3) = false
  /\ currentYearKey (tm w3) = P
  /\ pendingYearKey (tm w3) = pendingYearKey (tm w2)
  /\ lastScheduledHour (tm w3) = lastScheduledHour (tm w2)
  /\ trace w3 = trace w2 ++ [FlashSettled; WormholeHidden; Commit P true].
Proof.
  intros Hts Hcfg w3. unfold w3. rewrite (fire_last _ _ _ Hts).
  simpl. unfold goToYear. rewrite Hcfg. simpl.
  rewrite <- !app_assoc. repeat split.
Qed.

(** The end of the fade: the media of the period are loaded. *)
Lemma fade_end (w3 : World) (ts : list Task) (P : Z) (cfg : Year) :
  tasks w3 = ts ++ [FadeOut P cfg] ->
  let w4 := step w3 (TimerFires (length ts)) in
  tasks w4 = ts
  /\ wormhole w4 = wormhole w3
  /\ currentYearKey (tm w4) = currentYearKey (tm w3)
  /\ pendingYearKey (tm w4) = pendingYearKey (tm w3)
  /\ Slideshow.currentYear (slideshow w4) = Some (folder cfg)
  /\ trace w4
     = trace w3 ++ [LoadYear (folder cfg) (default [] (manifest (tm w3) !! folder cfg));
                    TickerBuilt (folder cfg)
                      (Facts.tickerFacts (facts (tm w3)) (folder cfg))].
Proof.
  intros Hts w4. unfold w4. rewrite (fire_last _ _ _ Hts).
  simpl. repeat split.
Qed.

(** X9: a manual journey from start to end.  In a page whose wormhole
    is closed, the key of another period, the space bar and the end of
    the flash bring the page to that period: the trace gains, in this
    order, the pause of the slideshow, the wormhole, the halt of its
    effects, the arrival sound, the flash from start to end, the
    hiding of the wormhole and the commit; the fade that follows loads
    the media of the period.  Calls suspended before are untouched. *)
Theorem manual_journey_arrives (w : World) (P : Z) (e sp : KeyboardEvent)
    (h1 h2 : Z) :
  1 <= P <= 5 -> key e = digitKey P -> code e <> "Space"%string ->
  key sp = " "%string ->
  Wormhole.isRunning (wormhole w) = false -> P <> currentYearKey (tm w) ->
  let n := length (tasks w) in
  let arrived := run [KeyDown e h1; KeyDown sp h2; TimerFires n] w in
  let shown := step arrived (TimerFires n) in
  exists cfg, years !! P = Some cfg
    /\ currentYearKey (tm arrived) = P
    /\ pendingYearKey (tm arrived) = None
    /\ Wormhole.isRunning (wormhole arrived) = false
    /\ tasks arrived = tasks w ++ [FadeOut P cfg]
    /\ trace arrived
       = trace w ++ [SlideshowPaused; WormholeShown (display cfg);
                     EffectsHalted; ArrivalSound; FlashBegun;
                     FlashSettled; WormholeHidden; Commit P true]
    /\ tasks shown = tasks w
    /\ Slideshow.currentYear (slideshow shown) = Some (folder cfg)
    /\ currentYearKey (tm shown) = P.
Proof.
  intros HP Hk Hc Hsp Hrun Hne n arrived shown.
  destruct (years_digit P HP) as [cfg Hcfg]. exists cfg. split; [exact Hcfg|].
  destruct (manual_start_and_complete w P cfg Hrun Hcfg)
    as (Ht2 & Ha2 & Hc2 & Hp2 & Htr2 & Hact).
  assert (Harr : arrived
                 = step (completeTimeTravel (initiateTimeTravel P w))
                     (TimerFires (length (tasks w)))).
  { change arrived
      with (step (onKeyDown sp h2 (onKeyDown e h1 w)) (TimerFires (length (tasks w)))).
    rewrite (onKeyDown_digit P e h1 w HP Hk Hc).
    apply Z.eqb_neq in Hne. rewrite Hne.
    now rewrite (onKeyDown_space sp h2 _ Hsp), Hact. }
  destruct (arrival _ _ _ _ _ Ht2 Hcfg) as (Ht3 & Ha3 & Hc3 & Hp3 & _ & Htr3).
  rewrite <- Harr in Ht3, Ha3, Hc3, Hp3, Htr3.
  destruct (fade_end _ _ _ _ Ht3) as (Ht4 & _ & Hc4 & _ & Hs4 & _).
  fold n in Ht4, Hc4, Hs4. fold shown in Ht4, Hc4, Hs4.
  repeat split; try assumption; try congruence.
  rewrite Htr3, Htr2, <- app_assoc. reflexivity.
Qed.

(** The wormhole of a scheduled travel opens and is held. *)
Lemma scheduled_start (w : World) (h k : Z) (cfg : Year) :
  schedule !! h = Some k -> years !! k = Some cfg ->
  Wormhole.isRunning (wormhole w) = false ->
  lastScheduledHour (tm w) <> Some h -> currentYearKey (tm w) <> k ->
  let w1 := step w (ClockTick h) in
  tasks w1 = tasks w ++ [AutoHold k]
  /\ Wormhole.isActive (wormhole w1) = true
  /\ currentYearKey (tm w1) = currentYearKey (tm w)
  /\ pendingYearKey (tm w1) = pendingYearKey (tm w)
  /\ lastScheduledHour (tm w1) = Some h
  /\ Slideshow.intervalId (slideshow w1) = false
  /\ trace w1 = trace w ++ [ScheduledTravel h k; SlideshowPaused;
                            WormholeShown (display cfg)].
Proof.
  intros Hs Hcfg Hrun Hl Hc. simpl. unfold updateClock, checkScheduledTravel.
  rewrite Hrun, Hs.
  assert (Hd : bool_decide (lastScheduledHour (tm w) = Some h) = false)
    by now apply bool_decide_eq_false_2.
  rewrite Hd. apply Z.eqb_neq in Hc. rewrite Hc.
  unfold initiateAutomaticTimeTravel. rewrite Hcfg.
  unfold startWormhole, Wormhole.start, Wormhole.isRunning in *. simpl.
  rewrite Hrun. simpl. rewrite <- !app_assoc. repeat split.
Qed.

(** The hold of a scheduled travel ends: the arrival flash is awaited. *)
Lemma hold_end (w1 : World) (ts : list Task) (k : Z) :
  tasks w1 = ts ++ [AutoHold k] -> Wormhole.isActive (wormhole w1) = true ->
  let w2 := step w1 (TimerFires (length ts)) in
  tasks w2 = ts ++ [Arriving false k]
  /\ wormhole w2 = wormhole w1
  /\ tm w2 = tm w1
  /\ trace w2 = trace w1 ++ [EffectsHalted; ArrivalSound; FlashBegun].
Proof.
  intros Hts Ha w2. unfold w2. rewrite (fire_last _ _ _ Hts).
  simpl. unfold stopThenGo, Wormhole.stopBegin. simpl. rewrite Ha. simpl.
  repeat split.
Qed.

(** X10: a scheduled journey from start to end.  A clock tick at a
    scheduled hour that is not marked yet, the wormhole closed and the
    period not the scheduled one, opens the wormhole without a pending
    destination; the end of the hold and the end of the flash bring
    the page to the scheduled period with the same events as a manual
    journey, and the hour is marked. *)
Theorem scheduled_journey_arrives (w : World) (h k : Z) :
  schedule !! h = Some k ->
  Wormhole.isRunning (wormhole w) = false ->
  lastScheduledHour (tm w) <> Some h -> currentYearKey (tm w) <> k ->
  let n := length (tasks w) in
  let held := step w (ClockTick h) in
  let arrived := run [TimerFires n; TimerFires n] held in
  let shown := step arrived (TimerFires n) in
  exists cfg, years !! k = Some cfg
    /\ tasks held = tasks w ++ [AutoHold k]
    /\ Wormhole.isRunning (wormhole held) = true
    /\ pendingYearKey (tm held) = pendingYearKey (tm w)
    /\ currentYearKey (tm arrived) = k
    /\ pendingYearKey (tm arrived) = pendingYearKey (tm w)
    /\ lastScheduledHour (tm arrived) = Some h
    /\ Wormhole.isRunning (wormhole arrived) = false
    /\ tasks arrived = tasks w ++ [FadeOut k cfg]
    /\ trace arrived
       = trace w ++ [ScheduledTravel h k; SlideshowPaused;
                     WormholeShown (display cfg);
                     EffectsHalted; ArrivalSound; FlashBegun;
                     FlashSettled; WormholeHidden; Commit k true]
    /\ tasks shown = tasks w
    /\ Slideshow.currentYear (slideshow shown) = Some (folder cfg).
Proof.
  intros Hs Hrun Hl Hc n held arrived shown.
  destruct (schedule_cases h k Hs) as [_ [cfg Hcfg]]. exists cfg.
  split; [exact Hcfg|].
  destruct (scheduled_start w h k cfg Hs Hcfg Hrun Hl Hc)
    as (Ht1 & Ha1 & Hc1 & Hp1 & Hl1 & _ & Htr1).
  fold held in Ht1, Ha1, Hc1, Hp1, Hl1, Htr1.
  destruct (hold_end held _ k Ht1 Ha1) as (Ht2 & Hw2 & Htm2 & Htr2).
  destruct (arrival _ _ _ _ _ Ht2 Hcfg) as (Ht3 & Ha3 & Hc3 & Hp3 & Hl3 & Htr3).
  change (step (step held (TimerFires (length (tasks w))))
            (TimerFires (length (tasks w)))) with arrived in *.
  destruct (fade_end _ _ _ _ Ht3) as (Ht4 & _ & _ & _ & Hs4 & _).
  fold n in Ht4, Hs4. fold shown in Ht4, Hs4.
  rewrite Htm2 in Hp3, Hl3.
  repeat split; try assumption; try congruence.
  rewrite Htr3, Htr2, Htr1, <- !app_assoc. reflexivity.
Qed.

Lemma manual_journey_arrives_witness :
  let w := booted bareBoot in
  let n := length (tasks w) in
  currentYearKey
    (tm (run [KeyDown digit3 13; KeyDown spaceBar 13; TimerFires n] w)) = 3.
Proof.
  intros w n.
  destruct (manual_journey_arrives w 3 digit3 spaceBar 13 13
              ltac:(lia) eq_refl ltac:(discriminate) eq_refl eq_refl
              ltac:(discriminate))
    as (cfg & _ & H & _).
  exact H.
Defined.

Lemma scheduled_journey_arrives_witness :
  let w := booted bareBoot in
  let n := length (tasks w) in
  currentYearKey
    (tm (run [TimerFires n; TimerFires n] (step w (ClockTick 21)))) = 2.
Proof.
  intros w n.
  destruct (scheduled_journey_arrives w 21 2
              eq_refl eq_refl ltac:(discriminate) ltac:(discriminate))
    as (cfg & _ & _ & _ & _ & H & _).
  exact H.
Defined.

(** ** A page without manifest *)

Lemma mediaFree_frame w w' es :
  mediaFree w ->
  manifest (tm w') = manifest (tm w) ->
  (slideshow w' = slideshow w \/ slideshow w' = Slideshow.pause (slideshow w)) ->
  trace w' = trace w ++ es ->
  (forall f l, In (LoadYear f l) es -> l = []) ->
  mediaFree w'.
Proof.
  intros (Hm & Hi & Hc & Ht) Hm' Hs Htr Hes.
  assert (Hsl : Slideshow.intervalId (slideshow w') = false
                /\ Slideshow.mediaCount (slideshow w') = O)
    by (destruct Hs as [-> | ->]; simpl; auto).
  destruct Hsl as [Hi' Hc'].
  split; [now rewrite Hm'|]. split; [exact Hi'|]. split; [exact Hc'|].
  intros f l Hin. rewrite Htr in Hin. apply in_app_or in Hin as [Hin|Hin].
  - now apply (Ht f).
  - now apply (Hes f).
Qed.

Ltac no_load :=
  let f := fresh "f" in let l := fresh "l" in let H := fresh "H" in
  intros f l H; simpl in H;
  repeat (destruct H as [H|H]; [discriminate H|]); destruct H.

Ltac framed w es :=
  apply (mediaFree_frame w _ es);
  [ | reflexivity | first [left; reflexivity | right; reflexivity]
    | simpl; rewrite ?app_nil_r; reflexivity | no_load ].

Lemma mediaFree_showYear cfg w : mediaFree w -> mediaFree (showYear cfg w).
Proof.
  intros (Hm & Hi & Hc & Ht). unfold showYear. rewrite Hm.
  split; [exact Hm|]. split; [reflexivity|]. split; [reflexivity|].
  simpl. intros f l Hin. apply in_app_or in Hin as [Hin|Hin].
  - now apply (Ht f).
  - simpl in Hin. destruct Hin as [Hin|[Hin|[]]]; [|discriminate Hin].
    now injection Hin as _ <-.
Qed.

Lemma mediaFree_goToYear k a w : mediaFree w -> mediaFree (goToYear k a w).
Proof.
  intros Hw. unfold goToYear.
  destruct (years !! k) as [cfg|]; [|exact Hw].
  assert (H1 : mediaFree (emit [Commit k a] (set_currentYearKey k w)))
    by (framed w [Commit k a]; exact Hw).
  destruct a; [|now apply mediaFree_showYear].
  unfold spawn.
  match goal with |- mediaFree (set_tasks _ ?w1) => framed w1 (@nil Event) end.
  exact H1.
Qed.

Lemma mediaFree_stopThenGo manual k w :
  mediaFree w -> mediaFree (stopThenGo manual k w).
Proof.
  intros Hw. unfold stopThenGo, Wormhole.stopBegin.
  destruct (Wormhole.isActive (wormhole w)); simpl.
  - framed w [EffectsHalted; ArrivalSound; FlashBegun]. exact Hw.
  - apply mediaFree_goToYear. framed w (@nil Event). exact Hw.
Qed.

Lemma mediaFree_startWormhole d w :
  mediaFree w -> mediaFree (startWormhole d w).
Proof.
  intros Hw. unfold startWormhole, Wormhole.start.
  destruct (Wormhole.isActive (wormhole w)).
  - framed w (@nil Event). exact Hw.
  - framed w [WormholeShown d]. exact Hw.
Qed.

Lemma mediaFree_pauseSlideshow w : mediaFree w -> mediaFree (pauseSlideshow w).
Proof. intros Hw. framed w [SlideshowPaused]. exact Hw. Qed.

Lemma mediaFree_initiateTimeTravel k w :
  mediaFree w -> mediaFree (initiateTimeTravel k w).
Proof.
  intros Hw. unfold initiateTimeTravel.
  destruct (Wormhole.isRunning (wormhole w)); [exact Hw|].
  destruct (years !! k) as [cfg|]; [|exact Hw].
  apply mediaFree_startWormhole.
  framed (pauseSlideshow w) (@nil Event). now apply mediaFree_pauseSlideshow.
Qed.

Lemma mediaFree_completeTimeTravel w :
  mediaFree w -> mediaFree (completeTimeTravel w).
Proof.
  intros Hw. unfold completeTimeTravel.
  destruct (noPending (pendingYearKey (tm w))); [exact Hw|].
  destruct (pendingYearKey (tm w)) as [k|]; [|exact Hw].
  apply mediaFree_stopThenGo. framed w (@nil Event). exact Hw.
Qed.

Lemma mediaFree_checkScheduledTravel h w :
  mediaFree w -> mediaFree (checkScheduledTravel h w).
Proof.
  intros Hw. unfold checkScheduledTravel.
  destruct (Wormhole.isRunning (wormhole w)); [exact Hw|].
  destruct (schedule !! h) as [k|]; [|framed w (@nil Event); exact Hw].
  case_bool_decide; [exact Hw|].
  destruct (_ =? _); [framed w (@nil Event); exact Hw|].
  unfold initiateAutomaticTimeTravel.
  assert (H1 : mediaFree (set_lastScheduledHour (Some h)
                            (emit [ScheduledTravel h k] w)))
    by (framed w [ScheduledTravel h k]; exact Hw).
  destruct (years !! k) as [cfg|]; [|exact H1].
  unfold spawn.
  match goal with |- mediaFree (set_tasks _ ?w1) => framed w1 (@nil Event) end.
  apply mediaFree_startWormhole, mediaFree_pauseSlideshow, H1.
Qed.

Lemma mediaFree_onKeyDown e hours w :
  mediaFree w -> mediaFree (onKeyDown e hours w).
Proof.
  intros Hw. unfold onKeyDown. cbv zeta.
  repeat match goal with
         | |- mediaFree (if ?c then _ else _) => destruct c
         | |- mediaFree (emit [Glitch] ?w4) => framed w4 [Glitch]
         | |- mediaFree (set_chimes _ ?w2) => framed w2 (@nil Event)
         | |- mediaFree (completeTimeTravel _) => apply mediaFree_completeTimeTravel
         | |- mediaFree (initiateTimeTravel _ _) => apply mediaFree_initiateTimeTravel
         end; exact Hw.
Qed.

Lemma mediaFree_resume t w : mediaFree w -> mediaFree (resume t w).
Proof.
  intros Hw. destruct t as [k|manual k|k cfg]; simpl.
  - now apply mediaFree_stopThenGo.
  - apply mediaFree_goToYear. framed w [FlashSettled; WormholeHidden]. exact Hw.
  - now apply mediaFree_showYear.
Qed.

Lemma mediaFree_step w i : mediaFree w -> mediaFree (step w i).
Proof.
  intros Hw. destruct i as [e hours|hours|n|c]; simpl.
  - now apply mediaFree_onKeyDown.
  - now apply mediaFree_checkScheduledTravel.
  - destruct (tasks w !! n) as [t|]; [|exact Hw].
    apply mediaFree_resume. framed w (@nil Event). exact Hw.
  - framed w (@nil Event). exact Hw.
Qed.

Lemma mediaFree_booted b : fetchedManifest b = None -> mediaFree (booted b).
Proof.
  intros Hn. unfold booted, init. cbv zeta.
  apply mediaFree_goToYear. unfold updateClock. apply mediaFree_checkScheduledTravel.
  rewrite Hn. split; [|split; [reflexivity|split; [reflexivity|intros f l []]]].
  intros f. simpl.
  repeat (rewrite lookup_insert; case_decide; [reflexivity|]).
  now rewrite lookup_empty.
Qed.

(** X7: when the manifest cannot be loaded the page never shows media:
    at any later time every period the slideshow was given came with
    an empty list, the slideshow holds no item and its auto-advance
    timer is off. *)
Theorem failed_manifest_never_shows_media (b : Boot) (inputs : list Input) :
  fetchedManifest b = None ->
  let w := run inputs (booted b) in
  Slideshow.intervalId (slideshow w) = false
  /\ Slideshow.mediaCount (slideshow w) = O
  /\ (forall f l, In (LoadYear f l) (trace w) -> l = []).
Proof.
  intros Hn w.
  assert (Hf : forall inputs w0, mediaFree w0 -> mediaFree (run inputs w0)).
  { clear. induction inputs as [|i inputs IH]; intros w0 H0; simpl; [exact H0|].
    now apply IH, mediaFree_step. }
  destruct (Hf inputs _ (mediaFree_booted b Hn)) as (_ & Hi & Hc & Ht).
  fold w in Hi, Hc, Ht. repeat split; assumption.
Qed.

Lemma failed_manifest_never_shows_media_witness :
  Slideshow.mediaCount
    (slideshow (run [KeyDown digit3 13; KeyDown spaceBar 13; TimerFires 0; TimerFires 0]
                  (booted bareBoot))) = O.
Proof.
  exact (proj1 (proj2 (failed_manifest_never_shows_media bareBoot
                         [KeyDown digit3 13; KeyDown spaceBar 13;
                          TimerFires 0; TimerFires 0] eq_refl))).
Defined.

(** ** The slideshow under the wormhole *)

Lemma opensPaused_frame w w1 w2 :
  opensPaused w w1 ->
  wormhole w2 = wormhole w1 -> slideshow w2 = slideshow w1 ->
  (exists es, trace w2 = trace w1 ++ es) ->
  opensPaused w w2.
Proof.
  intros [H|(Hi & pre & d & post & Ht)] Hw Hs (es & He); [left; congruence|].
  right. split; [congruence|].
  exists pre, d, (post ++ es). rewrite He, Ht.
  now rewrite <- !app_assoc.
Qed.

Lemma goToYear_animated_frame k w :
  wormhole (goToYear k true w) = wormhole w
  /\ slideshow (goToYear k true w) = slideshow w
  /\ exists es, trace (goToYear k true w) = trace w ++ es.
Proof.
  unfold goToYear. destruct (years !! k) as [cfg|]; simpl.
  - repeat split. eauto.
  - repeat split. exists []. now rewrite app_nil_r.
Qed.

Lemma completeTimeTravel_frame w :
  wormhole (completeTimeTravel w) = wormhole w
  /\ slideshow (completeTimeTravel w) = slideshow w
  /\ exists es, trace (completeTimeTravel w) = trace w ++ es.
Proof.
  assert (Hsame : exists es : list Event, trace w = trace w ++ es)
    by (exists []; now rewrite app_nil_r).
  unfold completeTimeTravel.
  destruct (noPending (pendingYearKey (tm w))); [auto|].
  destruct (pendingYearKey (tm w)) as [k|]; [|auto].
  unfold stopThenGo, Wormhole.stopBegin. simpl.
  destruct (Wormhole.isActive (wormhole w)); simpl.
  - repeat split. eauto.
  - match goal with
    | |- context [goToYear k true ?w0] =>
        destruct (goToYear_animated_frame k w0) as (-> & -> & es & ->)
    end.
    simpl. rewrite app_nil_r. repeat split. eauto.
Qed.

Lemma opensPaused_initiateTimeTravel k w :
  Wormhole.isActive (wormhole w) = false -> opensPaused w (initiateTimeTravel k w).
Proof.
  intros Ha. unfold initiateTimeTravel, Wormhole.isRunning. rewrite Ha.
  destruct (years !! k) as [cfg|]; [|now left].
  unfold startWormhole, Wormhole.start. simpl. rewrite Ha. simpl.
  right. split; [reflexivity|]. exists [], (display cfg), [].
  simpl. rewrite <- ?app_assoc. reflexivity.
Qed.

Lemma opensPaused_checkScheduledTravel h w :
  Wormhole.isActive (wormhole w) = false -> opensPaused w (checkScheduledTravel h w).
Proof.
  intros Ha. unfold checkScheduledTravel, Wormhole.isRunning. rewrite Ha.
  destruct (schedule !! h) as [k|]; [|now left].
  case_bool_decide; [now left|].
  destruct (_ =? _); [now left|].
  unfold initiateAutomaticTimeTravel.
  destruct (years !! k) as [cfg|]; [|now left].
  unfold startWormhole, Wormhole.start. simpl. rewrite Ha. simpl.
  right. split; [reflexivity|]. exists [ScheduledTravel h k], (display cfg), [].
  simpl. rewrite <- ?app_assoc. reflexivity.
Qed.

Lemma opensPaused_onKeyDown e hours w :
  Wormhole.isActive (wormhole w) = false -> opensPaused w (onKeyDown e hours w).
Proof.
  intros Ha. unfold onKeyDown. cbv zeta.
  assert (Hw : opensPaused w w) by now left.
  set (w1 := if String.leb "1" (key e) && String.leb (key e) "5"
             then if bool_decide (is_Some (years !! parseInt (key e)))
                     && negb (parseInt (key e) =? currentYearKey (tm w))
                  then initiateTimeTravel (parseInt (key e)) w else w
             else w).
  assert (H1 : opensPaused w w1).
  { unfold w1. repeat match goal with
                      | |- opensPaused _ (if ?c then _ else _) => destruct c
                      end; auto using opensPaused_initiateTimeTravel. }
  clearbody w1.
  set (w2 := if String.eqb (key e) " " || String.eqb (code e) "Space"
             then if Wormhole.isRunning (wormhole w1)
                  then completeTimeTravel w1 else w1
             else w1).
  assert (H2 : opensPaused w w2).
  { unfold w2. repeat match goal with
                      | |- opensPaused _ (if ?c then _ else _) => destruct c
                      end; auto.
    destruct (completeTimeTravel_frame w1) as (Hwh & Hs & Ht).
    now apply (opensPaused_frame w w1). }
  clearbody w2.
  repeat match goal with
         | |- opensPaused _ (if ?c then _ else _) => destruct c
         | |- opensPaused _ (emit ?es ?w4) =>
             apply (opensPaused_frame w w4);
             [|reflexivity|reflexivity|exists es; reflexivity]
         | |- opensPaused _ (set_chimes _ ?w3) =>
             apply (opensPaused_frame w w3);
             [|reflexivity|reflexivity|exists []; simpl; now rewrite app_nil_r]
         end; exact H2.
Qed.

Lemma opensPaused_resume t ts w :
  Wormhole.isActive (wormhole w) = false ->
  opensPaused w (resume t (set_tasks ts w)).
Proof.
  intros Ha. left. destruct t as [k|manual k|k cfg]; simpl.
  - unfold stopThenGo, Wormhole.stopBegin. simpl. rewrite Ha. simpl.
    match goal with
    | |- context [goToYear k true ?w0] =>
        destruct (goToYear_animated_frame k w0) as (-> & _)
    end. exact Ha.
  - match goal with
    | |- context [goToYear k true ?w0] =>
        destruct (goToYear_animated_frame k w0) as (-> & _)
    end. reflexivity.
  - exact Ha.
Qed.

(** X11: the wormhole never opens over a running slideshow: whatever
    input opens it, a key or a clock tick, the auto-advance timer is
    off when the input has been handled, and the trace shows the pause
    of the slideshow right before the wormhole. *)
Theorem wormhole_opens_on_paused_slideshow (w : World) (i : Input) :
  Wormhole.isActive (wormhole w) = false ->
  Wormhole.isActive (wormhole (step w i)) = true ->
  Slideshow.intervalId (slideshow (step w i)) = false
  /\ exists pre d post,
       trace (step w i) = trace w ++ pre ++ [SlideshowPaused; WormholeShown d] ++ post.
Proof.
  intros Ha.
  assert (H : opensPaused w (step w i)).
  { destruct i as [e hours|hours|n|c]; simpl.
    - now apply opensPaused_onKeyDown.
    - now apply opensPaused_checkScheduledTravel.
    - destruct (tasks w !! n) as [t|]; [|now left].
      now apply opensPaused_resume.
    - left. exact Ha. }
  intros Hact. destruct H as [H|H]; [congruence|exact H].
Qed.

Lemma wormhole_opens_on_paused_slideshow_witness :
  Slideshow.intervalId (slideshow (step (booted bareBoot) (ClockTick 21))) = false.
Proof.
  exact (proj1 (wormhole_opens_on_paused_slideshow (booted bareBoot) (ClockTick 21)
                  eq_refl eq_refl)).
Defined.

(** X12: a fade that is still awaited when the next journey starts
    reloads the slideshow under the open wormhole.  When the fade of
    an arrival is pending, the wormhole closed, and the key of another
    period is pressed, the end of the fade loads the media of the
    period just left behind and, when there are any, sets the
    auto-advance timer although the wormhole is open and the new
    destination pending. *)
Theorem pending_fade_reloads_under_wormhole (w : World) (n : nat) (k P : Z)
    (cfg : Year) (e : KeyboardEvent) (hours : Z) (media : list string) :
  tasks w !! n = Some (FadeOut k cfg) ->
  Wormhole.isRunning (wormhole w) = false ->
  1 <= P <= 5 -> key e = digitKey P -> code e <> "Space"%string ->
  P <> currentYearKey (tm w) ->
  manifest (tm w) !! folder cfg = Some media -> media <> [] ->
  let w' := run [KeyDown e hours; TimerFires n] w in
  Wormhole.isRunning (wormhole w') = true
  /\ pendingYearKey (tm w') = Some P
  /\ Slideshow.intervalId (slideshow w') = true
  /\ Slideshow.currentYear (slideshow w') = Some (folder cfg)
  /\ exists d, trace w'
       = trace w ++ [SlideshowPaused; WormholeShown d;
                     LoadYear (folder cfg) media;
                     TickerBuilt (folder cfg)
                       (Facts.tickerFacts (facts (tm w)) (folder cfg))].
Proof.
  intros Ht Hrun HP Hk Hc Hne Hm Hmedia w'. unfold w'. simpl.
  rewrite (onKeyDown_digit P e hours w HP Hk Hc).
  apply Z.eqb_neq in Hne. rewrite Hne.
  destruct (years_digit P HP) as [cfgP HcfgP].
  unfold initiateTimeTravel. rewrite Hrun, HcfgP.
  unfold startWormhole, Wormhole.start, Wormhole.isRunning in *. simpl.
  rewrite Hrun. simpl. rewrite Ht. simpl. unfold showYear. simpl.
  rewrite Hm. simpl.
  assert (Hlen : (length media =? 0)%nat = false)
    by (destruct media; [congruence|reflexivity]).
  rewrite Hlen. repeat split. exists (display cfgP).
  now rewrite <- !app_assoc.
Qed.

Lemma pending_fade_reloads_under_wormhole_witness :
  let b := {| bell := None;
              fetchedManifest := Some (<["1751"%string := ["a.jpg"%string]]> ∅);
              fetchFacts := fun _ => Facts.Rejected;
              chimeHours := 13; chimeMinutes := 30; clockHours := 13 |} in
  let w := run [KeyDown digit3 13; KeyDown spaceBar 13; TimerFires 0] (booted b) in
  Slideshow.intervalId
    (slideshow (run [KeyDown {| key := "2"; code := "Digit2" |} 13; TimerFires 0] w))
  = true.
Proof.
  intros b w.
  refine (proj1 (proj2 (proj2
            (pending_fade_reloads_under_wormhole w 0 3 2
               {| year := "1751"; era := "CE"; folder := "1751"; display := "1751 CE" |}
               {| key := "2"; code := "Digit2" |} 13 ["a.jpg"%string]
               _ _ _ _ _ _ _ _)))).
  - vm_compute. reflexivity.
  - vm_compute. reflexivity.
  - lia.
  - reflexivity.
  - discriminate.
  - vm_compute. discriminate.
  - vm_compute. reflexivity.
  - discriminate.
Defined.

End AppMore.

(** * Further properties of the facts and of the shuffle *)

Module FactsMore.
Import JsString Facts Readings.
(** ** The shuffle *)

Lemma insert_Permutation {A} (l : list A) (i : nat) (x y : A) :
  l !! i = Some x -> <[i := y]> l ≡ₚ y :: delete i l.
Proof.
  intros Hi. pose proof (lookup_lt_Some _ _ _ Hi) as Hlt.
  rewrite insert_take_drop by exact Hlt. rewrite delete_take_drop.
  symmetry. apply Permutation_middle.
Qed.

Lemma swap_Permutation {A} (i j : nat) (l : list A) : swap i j l ≡ₚ l.
Proof.
  unfold swap.
  destruct (l !! i) as [x|] eqn:Hi; [|reflexivity].
  destruct (l !! j) as [y|] eqn:Hj; [|reflexivity].
  assert (Hj' : <[i := y]> l !! j = Some y).
  { destruct (decide (i = j)) as [->|Hne].
    - apply list_lookup_insert_eq. eapply lookup_lt_Some, Hi.
    - now rewrite list_lookup_insert_ne. }
  rewrite (insert_Permutation _ _ _ x Hj').
  pose proof (delete_Permutation _ _ _ Hj') as H1.
  pose proof (insert_Permutation l i x y Hi) as H2.
  rewrite H2 in H1 at 1. apply Permutation_cons_inv in H1.
  rewrite <- H1. symmetry. now apply delete_Permutation.
Qed.

Lemma shuffleFrom_Permutation {A} (rnd : nat -> nat) (n : nat) : forall l : list A,
  shuffleFrom n rnd l ≡ₚ l.
Proof.
  induction n as [|i IH]; intros l; simpl; [reflexivity|].
  destruct i; [reflexivity|].
  rewrite IH. apply swap_Permutation.
Qed.

(** X1: the Fisher-Yates shuffle only reorders: whatever the random
    draws are, the shuffled array holds the same elements the same
    number of times, and has the same length. *)
Theorem shuffleArray_permutes {A} (rnd : nat -> nat) (l : list A) :
  shuffleArray rnd l ≡ₚ l /\ length (shuffleArray rnd l) = length l.
Proof.
  assert (H : shuffleArray rnd l ≡ₚ l) by apply shuffleFrom_Permutation.
  split; [exact H|]. now rewrite H.
Qed.

(** ** The ticker *)





(** ** The lines of a facts file *)

Lemma trimStart_head s :
  match trimStart s with
  | [] => True
  | c :: _ => isWhiteSpace c = false
  end.
Proof.
  induction s as [|c s IH]; simpl; [exact I|].
  destruct (isWhiteSpace c) eqn:Hc; [exact IH|exact Hc].
Qed.

Lemma trimStart_suffix s : exists ws, s = ws ++ trimStart s.
Proof.
  induction s as [|c s [ws IH]]; simpl; [now exists []|].
  destruct (isWhiteSpace c).
  - exists (c :: ws). simpl. now f_equal.
  - now exists [].
Qed.

Lemma trimStart_keeps c s :
  In c s -> isWhiteSpace c = false -> In c (trimStart s).
Proof.
  induction s as [|d s IH]; simpl; [tauto|].
  intros [->|Hin] Hc.
  - rewrite Hc. now left.
  - destruct (isWhiteSpace d); [now apply IH|now right].
Qed.

Lemma trimStart_incl c s : In c (trimStart s) -> In c s.
Proof.
  destruct (trimStart_suffix s) as [ws Hs]. intros H. rewrite Hs.
  apply in_or_app. now right.
Qed.

Lemma trim_incl c s : In c (trim s) -> In c s.
Proof.
  unfold trim. intros H. rewrite <- in_rev in H.
  apply trimStart_incl in H. rewrite <- in_rev in H. now apply trimStart_incl.
Qed.

Lemma trim_keeps c s : In c s -> isWhiteSpace c = false -> In c (trim s).
Proof.
  unfold trim. intros H Hc. rewrite <- in_rev.
  apply trimStart_keeps; [|exact Hc]. rewrite <- in_rev.
  now apply trimStart_keeps.
Qed.

(** A trimmed string neither starts nor ends with white space. *)
Lemma trim_ends s :
  match trim s with
  | [] => True
  | c :: _ => isWhiteSpace c = false
  end
  /\ match rev (trim s) with
     | [] => True
     | c :: _ => isWhiteSpace c = false
     end.
Proof.
  unfold trim. rewrite rev_involutive. split; [|apply trimStart_head].
  destruct (trimStart_suffix (rev (trimStart s))) as [ws Hs].
  set (t := trimStart (rev (trimStart s))) in *.
  assert (Hr : trimStart s = rev t ++ rev ws).
  { rewrite <- rev_app_distr, <- Hs. now rewrite rev_involutive. }
  pose proof (trimStart_head s) as Hh. rewrite Hr in Hh.
  destruct (rev t) as [|c r]; [exact I|exact Hh].
Qed.

Lemma split_pieces sep s :
  Forall (fun piece => ~ In sep piece) (split sep s).
Proof.
  induction s as [|c s IH]; simpl.
  - constructor; [tauto|constructor].
  - destruct (N.eqb_spec c sep) as [->|Hne].
    + constructor; [tauto|exact IH].
    + destruct (split sep s) as [|piece pieces]; simpl.
      * constructor; [|constructor]. simpl. intros [H|[]]. congruence.
      * inversion IH as [|? ? Hp Hps]; subst. constructor; [|exact Hps].
        simpl. intros [H|H]; [congruence|tauto].
Qed.

Lemma split_covers sep c s :
  In c s -> c <> sep -> exists piece, In piece (split sep s) /\ In c piece.
Proof.
  induction s as [|d s IH]; simpl; [tauto|].
  intros Hin Hne.
  destruct (N.eqb_spec d sep) as [->|Hd].
  - destruct Hin as [->|Hin]; [congruence|].
    destruct (IH Hin Hne) as (piece & Hp & Hc). exists piece. split; [now right|exact Hc].
  - destruct Hin as [->|Hin].
    + destruct (split sep s) as [|piece pieces]; eexists; split;
        try (left; reflexivity); now left.
    + destruct (IH Hin Hne) as (piece & Hp & Hc).
      destruct (split sep s) as [|p ps]; [destruct Hp|].
      destruct Hp as [->|Hp].
      * exists (d :: piece). split; [now left|now right].
      * exists piece. split; [now right|exact Hc].
Qed.

(** X3: every fact kept of a fetched text is a non-empty line without
    line feed that neither starts nor ends with white space. *)
Theorem factLines_clean (text : list N) (line : list N) :
  In line (factLines text) ->
  line <> []
  /\ ~ In 10%N line
  /\ match line with [] => True | c :: _ => isWhiteSpace c = false end
  /\ match rev line with [] => True | c :: _ => isWhiteSpace c = false end.
Proof.
  unfold factLines. intros Hin. apply filter_In in Hin as [Hin Hlen].
  apply in_map_iff in Hin as (piece & <- & Hp).
  split; [intros H; rewrite H in Hlen; discriminate|].
  split.
  - intros H10. apply trim_incl in H10.
    pose proof (split_pieces 10%N text) as Hall.
    exact (proj1 (List.Forall_forall _ _) Hall piece Hp H10).
  - apply trim_ends.
Qed.

Lemma factLines_clean_witness :
  In (ofAscii "Moon landing") (factLines (32 :: ofAscii "Moon landing" ++ [13; 10; 9; 10])%N)
  /\ ~ In 10%N (ofAscii "Moon landing").
Proof.
  assert (Hin : In (ofAscii "Moon landing")
                  (factLines (32 :: ofAscii "Moon landing" ++ [13; 10; 9; 10])%N))
    by (vm_compute; now left).
  split; [exact Hin|].
  exact (proj1 (proj2 (factLines_clean _ _ Hin))).
Defined.

(** X4: a fetched text leaves no fact at all exactly when it consists
    of white space and line terminators only. *)
Theorem factLines_empty_iff_blank (text : list N) :
  factLines text = [] <-> forallb isWhiteSpace text = true.
Proof.
  split.
  - intros He. apply forallb_forall. intros c Hc.
    destruct (isWhiteSpace c) eqn:Hw; [reflexivity|exfalso].
    assert (c <> 10%N) as Hne by (intros ->; discriminate Hw).
    destruct (split_covers 10%N c text Hc Hne) as (piece & Hp & Hcp).
    assert (In (trim piece) (factLines text)) as Hin.
    { unfold factLines. apply filter_In. split.
      - apply in_map. exact Hp.
      - pose proof (trim_keeps c piece Hcp Hw) as Hk.
        destruct (trim piece); [destruct Hk|reflexivity]. }
    rewrite He in Hin. destruct Hin.
  - apply FactsProps.blank_text_no_fact.
Qed.

End FactsMore.

(** * Properties of the clock *)

Module ClockProps.
Import Clock.

(** A number of at most two digits, padded, is its two decimal digits. *)
Lemma padStart_two_digits (n : Z) :
  0 <= n <= 99 ->
  exists a b, padStart 2 "0" (toString n) = String a (String b EmptyString)
    /\ App.digitValue a = Some (n / 10) /\ App.digitValue b = Some (n mod 10).
Proof.
  intros Hn.
  assert (Hk : exists k, n = Z.of_nat k /\ (k < 100)%nat)
    by (exists (Z.to_nat n); lia).
  destruct Hk as (k & -> & Hk). clear Hn.
  do 100 (destruct k as [|k];
          [eexists _, _; vm_compute; repeat split; reflexivity|]).
  lia.
Qed.

Lemma parseInt_two_digits a b x y :
  App.digitValue a = Some x -> App.digitValue b = Some y ->
  App.parseInt (String a (String b EmptyString)) = 10 * x + y.
Proof.
  intros Ha Hb. unfold App.parseInt. cbn [App.parseDigits].
  rewrite Ha, Hb. lia.
Qed.

(** A text of three two-digit fields reads back field by field. *)
Lemma fields_read_back (a b c d e f : ascii) (x y z : Z) :
  App.parseInt (String a (String b EmptyString)) = x ->
  App.parseInt (String c (String d EmptyString)) = y ->
  App.parseInt (String e (String f EmptyString)) = z ->
  let text := (String a (String b EmptyString) ++ ":"
               ++ String c (String d EmptyString) ++ ":"
               ++ String e (String f EmptyString))%string in
  String.length text = 8%nat
  /\ field 0 text = x /\ field 3 text = y /\ field 6 text = z
  /\ substring 2 1 text = ":"%string /\ substring 5 1 text = ":"%string.
Proof.
  intros Hx Hy Hz text. unfold text, field.
  cbv [String.append substring String.length].
  now rewrite Hx, Hy, Hz.
Qed.

(** X15: in the last ten minutes of an hour the clock counts down: its
    text is 00:MM:SS, and MM minutes and SS seconds are exactly the
    time left to the full hour, from 00:10:00 down to 00:00:01. *)
Theorem countdown_shows_time_to_the_hour (now : Moment) :
  50 <= minutes now <= 59 -> 0 <= seconds now <= 59 ->
  let face := clockFace now in
  countdownMode face = true
  /\ String.length (clockTime face) = 8%nat
  /\ substring 0 3 (clockTime face) = "00:"%string
  /\ substring 5 1 (clockTime face) = ":"%string
  /\ 0 <= field 6 (clockTime face) <= 59
  /\ 60 * field 3 (clockTime face) + field 6 (clockTime face)
     = 3600 - (60 * minutes now + seconds now)
  /\ 1 <= 60 * field 3 (clockTime face) + field 6 (clockTime face) <= 600.
Proof.
  intros Hm Hs. unfold clockFace. cbv zeta.
  destruct (Z.leb_spec 50 (minutes now)) as [_|]; [|lia].
  set (dm := if 60 - seconds now =? 60 then 59 - minutes now + 1
             else 59 - minutes now).
  set (ds := if 60 - seconds now =? 60 then 0 else 60 - seconds now).
  assert (Hd : 0 <= dm <= 99 /\ 0 <= ds <= 59
               /\ 60 * dm + ds = 3600 - (60 * minutes now + seconds now)).
  { unfold dm, ds. destruct (Z.eqb_spec (60 - seconds now) 60); lia. }
  destruct Hd as (Hdm & Hds & Hsum).
  destruct (padStart_two_digits dm Hdm) as (c & d & -> & Hc & Hd).
  destruct (padStart_two_digits ds ltac:(lia)) as (e & f & -> & He & Hf).
  pose proof (parseInt_two_digits _ _ _ _ Hc Hd) as Hy.
  pose proof (parseInt_two_digits _ _ _ _ He Hf) as Hz.
  destruct (fields_read_back "0" "0" c d e f 0 _ _ eq_refl Hy Hz)
    as (Hlen & _ & H3 & H6 & _ & H5).
  cbn [clockTime countdownMode].
  change ("00:" ++ String c (String d "") ++ ":" ++ String e (String f ""))%string
    with ("00" ++ ":" ++ String c (String d "") ++ ":" ++ String e (String f ""))%string.
  rewrite H3, H6.
  pose proof (Z.div_mod dm 10 ltac:(lia)). pose proof (Z.div_mod ds 10 ltac:(lia)).
  repeat split; try assumption; try reflexivity; lia.
Qed.

Lemma countdown_shows_time_to_the_hour_witness :
  clockTime (clockFace {| hours := 23; minutes := 50; seconds := 0 |})
  = "00:10:00"%string
  /\ 60 * field 3 (clockTime (clockFace {| hours := 23; minutes := 50; seconds := 0 |}))
     + field 6 (clockTime (clockFace {| hours := 23; minutes := 50; seconds := 0 |}))
     = 3600 - (60 * 50 + 0).
Proof.
  split; [reflexivity|].
  apply (countdown_shows_time_to_the_hour
           {| hours := 23; minutes := 50; seconds := 0 |}); simpl; lia.
Defined.

(** X16: before minute 50 the clock shows the time of day as HH:MM:SS,
    each field of two digits that read back as the hour, the minute and
    the second, and the countdown class is off. *)
Theorem wall_clock_reads_back (now : Moment) :
  0 <= hours now <= 23 -> 0 <= minutes now < 50 -> 0 <= seconds now <= 59 ->
  let face := clockFace now in
  countdownMode face = false
  /\ String.length (clockTime face) = 8%nat
  /\ substring 2 1 (clockTime face) = ":"%string
  /\ substring 5 1 (clockTime face) = ":"%string
  /\ field 0 (clockTime face) = hours now
  /\ field 3 (clockTime face) = minutes now
  /\ field 6 (clockTime face) = seconds now.
Proof.
  intros Hh Hm Hs. unfold clockFace. cbv zeta.
  destruct (Z.leb_spec 50 (minutes now)) as [|_]; [lia|].
  destruct (padStart_two_digits (hours now) ltac:(lia)) as (a & b & -> & Ha & Hb).
  destruct (padStart_two_digits (minutes now) ltac:(lia)) as (c & d & -> & Hc & Hd).
  destruct (padStart_two_digits (seconds now) ltac:(lia)) as (e & f & -> & He & Hf).
  pose proof (parseInt_two_digits _ _ _ _ Ha Hb) as Hx.
  pose proof (parseInt_two_digits _ _ _ _ Hc Hd) as Hy.
  pose proof (parseInt_two_digits _ _ _ _ He Hf) as Hz.
  destruct (fields_read_back a b c d e f _ _ _ Hx Hy Hz)
    as (Hlen & H0 & H3 & H6 & H2 & H5).
  cbn [clockTime countdownMode]. rewrite H0, H3, H6.
  pose proof (Z.div_mod (hours now) 10 ltac:(lia)).
  pose proof (Z.div_mod (minutes now) 10 ltac:(lia)).
  pose proof (Z.div_mod (seconds now) 10 ltac:(lia)).
  repeat split; try assumption; try reflexivity; lia.
Qed.

Lemma wall_clock_reads_back_witness :
  clockTime (clockFace {| hours := 9; minutes := 5; seconds := 7 |})
  = "09:05:07"%string
  /\ field 3 (clockTime (clockFace {| hours := 9; minutes := 5; seconds := 7 |})) = 5.
Proof.
  split; [reflexivity|].
  apply (wall_clock_reads_back {| hours := 9; minutes := 5; seconds := 7 |});
    simpl; lia.
Defined.

(** X24: the status text after a clock update depends on the minute
    alone: it is the recharging text in the first half of the hour and
    the locked text in the second, whatever the element showed before
    (the transit text the wormhole writes does not outlast a tick of
    the clock), and updates within the same half hour rewrite nothing. *)
Theorem status_text_follows_the_minute (currentMinutes : Z) (shown : string) :
  let status := updateStatusText currentMinutes shown in
  status = (if currentMinutes <? 30 then "TEMPORAL CORE RECHARGING"%string
            else "TEMPORAL COORDINATES LOCKED"%string)
  /\ forall later, (later <? 30) = (currentMinutes <? 30) ->
       updateStatusText later status = status.
Proof.
  assert (H : forall m old,
            updateStatusText m old
            = (if m <? 30 then "TEMPORAL CORE RECHARGING"%string
               else "TEMPORAL COORDINATES LOCKED"%string)).
  { intros m old. unfold updateStatusText. cbv zeta.
    destruct (String.eqb_spec old
                (if m <? 30 then "TEMPORAL CORE RECHARGING"%string
                 else "TEMPORAL COORDINATES LOCKED"%string)) as [->|_];
      reflexivity. }
  intros status. unfold status. split; [apply H|].
  intros later Hl. now rewrite !H, Hl.
Qed.

End ClockProps.

(** * Properties of the text scramble *)

Module GlitchProps.
Import Glitch.

Lemma glitchChars_no_space c : In c glitchChars -> c <> 32%N.
Proof.
  intros Hin ->. unfold glitchChars in Hin. simpl in Hin.
  repeat (destruct Hin as [Hin|Hin]; [discriminate Hin|]). exact Hin.
Qed.

Lemma scrambleChar_cases draw c :
  (scrambleChar draw c = 32%N <-> c = 32%N)
  /\ (scrambleChar draw c = c \/ In (scrambleChar draw c) glitchChars).
Proof.
  unfold scrambleChar. destruct (N.eqb_spec c 32) as [->|Hc].
  - split; [tauto|now left].
  - destruct draw as [k|]; [|split; [tauto|now left]].
    assert (Hin : In (nth (k mod length glitchChars)%nat glitchChars c) glitchChars).
    { apply nth_In. apply Nat.mod_upper_bound. discriminate. }
    split; [|now right].
    split; [|intros; contradiction].
    intros Heq. now apply glitchChars_no_space in Hin.
Qed.

(** X17: a frame of the text scramble has the length of the original
    text, keeps every space where it is and puts none elsewhere, and
    every other position holds the original code unit or one of the
    glitch characters, whatever the random draws are. *)
Theorem frame_keeps_shape (draws : nat -> option nat) (text : list N) :
  length (frame draws text) = length text
  /\ forall i c, text !! i = Some c ->
       exists c', frame draws text !! i = Some c'
         /\ (c' = 32%N <-> c = 32%N)
         /\ (c' = c \/ In c' glitchChars).
Proof.
  unfold frame. split; [apply length_imap|].
  intros i c Hi. exists (scrambleChar (draws i) c).
  rewrite list_lookup_imap, Hi. simpl.
  split; [reflexivity|apply scrambleChar_cases].
Qed.

Lemma firings_tick draws body : firings (Tick O draws :: body) = S (firings body).
Proof. reflexivity. Qed.

Lemma firings_skip a body :
  match a with Tick O _ => False | _ => True end ->
  firings (a :: body) = firings body.
Proof. destruct a as [d|[|n] draws|text|text]; intros H; try reflexivity; contradiction. Qed.

(** While a scramble runs alone on its element, what else happens
    leaves its closure as it is; only its own interval counts on. *)
Lemma scramble_counts_on (o : list N) (it : Z) : forall body t j,
  intervals t = [{| original := o; iterations := it; count := j |}] ->
  scrambling (element t) = true ->
  (firings body = O \/ j + Z.of_nat (firings body) < it) ->
  intervals (acts body t)
  = [{| original := o; iterations := it; count := j + Z.of_nat (firings body) |}]
  /\ scrambling (element (acts body t)) = true.
Proof.
  induction body as [|a body IH]; intros t j Hi Hs Hf.
  - simpl. rewrite Z.add_0_r. auto.
  - destruct a as [d|n draws|text|text]; simpl acts;
      try (rewrite firings_skip in * by exact I).
    + (* the element is picked again: it is scrambling *)
      unfold act, doTextScramble. rewrite Hs. now apply IH.
    + destruct n as [|n]; [|rewrite firings_skip in * by exact I].
      * (* its interval fires *)
        rewrite firings_tick in *.
        assert (Hlt : j + 1 < it) by lia.
        assert (Ht : intervals (tick 0 draws t)
                     = [{| original := o; iterations := it; count := j + 1 |}]
                     /\ scrambling (element (tick 0 draws t)) = true).
        { unfold tick. rewrite Hi. simpl.
          destruct (Z.leb_spec it (j + 1)); [lia|]. simpl. auto. }
        destruct Ht as [Hi' Hs'].
        destruct (IH (tick 0 draws t) (j + 1) Hi' Hs') as [H1 H2]; [lia|].
        unfold act. rewrite H1, H2. split; [|reflexivity].
        do 2 f_equal. lia.
      * (* no such interval *)
        assert (Ht : tick (S n) draws t = t).
        { unfold tick. rewrite Hi. reflexivity. }
        unfold act. rewrite Ht. now apply IH.
    + unfold act. apply IH; assumption.
    + unfold act. apply IH; assumption.
Qed.

(** X18: a text scramble that is let run to its last interval firing
    ends by writing back the text it captured when it started: the
    stored [dataset.originalText] if there is a non-empty one, else the
    text the element showed then.  Whatever was written to the element
    in between, by [goToYear] or by [syncYearDisplay], is overwritten;
    the flag is cleared and no interval is left. *)
Theorem scramble_restores_captured_text (t : Target) (duration : Z)
    (body : list Action) (draws : nat -> option nat) :
  intervals t = [] -> scrambling (element t) = false ->
  firings body = (Z.to_nat (Z.max 1 (duration / 50)) - 1)%nat ->
  let captured :=
    if stored (originalText (element t))
    then default [] (originalText (element t))
    else textContent (element t) in
  let during := acts (Pick duration :: body) t in
  let after := act during (Tick O draws) in
  scrambling (element during) = true
  /\ (exists sc, intervals during = [sc] /\ original sc = captured)
  /\ textContent (element after) = captured
  /\ scrambling (element after) = false
  /\ intervals after = [].
Proof.
  intros Hi Hs Hf captured during after.
  set (t1 := doTextScramble duration t).
  assert (H1 : intervals t1
               = [{| original := captured; iterations := duration / 50; count := 0 |}]
               /\ scrambling (element t1) = true).
  { unfold t1, doTextScramble, scrambleElement. rewrite Hs, Hi. simpl.
    split; [|reflexivity]. unfold captured.
    destruct (stored (originalText (element t))); reflexivity. }
  destruct H1 as [Hi1 Hs1].
  destruct (scramble_counts_on captured (duration / 50) body t1 0 Hi1 Hs1)
    as [Hi2 Hs2]; [lia|].
  change (acts body t1) with during in Hi2, Hs2.
  split; [exact Hs2|]. split; [eexists; split; [exact Hi2|reflexivity]|].
  unfold after, act, tick. rewrite Hi2. simpl.
  destruct (Z.leb_spec (duration / 50) (0 + Z.of_nat (firings body) + 1)); [|lia].
  simpl. auto.
Qed.

Lemma scramble_restores_captured_text_witness :
  let year1751 := JsString.ofAscii "1751" in
  let year1969 := JsString.ofAscii "1969" in
  let t := syncYearDisplay year1751 (plain year1751) in
  textContent
    (element (acts [Pick 50; Write year1969; Tick O (fun _ => Some O)] t))
  = year1751.
Proof.
  apply (scramble_restores_captured_text
           (syncYearDisplay (JsString.ofAscii "1751") (plain (JsString.ofAscii "1751")))
           50 [Write (JsString.ofAscii "1969")] (fun _ => Some O));
    reflexivity.
Defined.

(** The scrambling flag is set exactly while one interval runs. *)
Lemma one_scramble_step t a :
  (intervals t = [] /\ scrambling (element t) = false
   \/ exists sc, intervals t = [sc] /\ scrambling (element t) = true) ->
  intervals (act t a) = [] /\ scrambling (element (act t a)) = false
  \/ exists sc, intervals (act t a) = [sc] /\ scrambling (element (act t a)) = true.
Proof.
  intros [[Hi Hs]|(sc & Hi & Hs)]; destruct a as [d|n draws|text|text]; simpl.
  - right. unfold doTextScramble, scrambleElement. rewrite Hs, Hi. simpl. eauto.
  - left. unfold tick. rewrite Hi. simpl. auto.
  - left. auto.
  - left. auto.
  - right. unfold doTextScramble. rewrite Hs. eauto.
  - unfold tick. rewrite Hi. destruct n as [|n]; simpl; [|right; eauto].
    destruct (iterations sc <=? count sc + 1); simpl; [left|right]; eauto.
  - right. eauto.
  - right. eauto.
Qed.

(** X19: an element is never scrambled twice at once: whatever the page
    does to it, at most one scramble interval runs on it, and its
    scrambling flag is set exactly while one runs. *)
Theorem never_two_scrambles_at_once (text : list N) (l : list Action) :
  let t := acts l (plain text) in
  (length (intervals t) <= 1)%nat
  /\ (scrambling (element t) = true <-> length (intervals t) = 1%nat)
  /\ forall d, scrambling (element t) = true -> act t (Pick d) = t.
Proof.
  intros t.
  assert (H : intervals t = [] /\ scrambling (element t) = false
              \/ exists sc, intervals t = [sc] /\ scrambling (element t) = true).
  { unfold t. induction l as [|a l IH] using rev_ind.
    - left. auto.
    - unfold acts. rewrite fold_left_app. simpl. now apply one_scramble_step. }
  destruct H as [[Hi Hs]|(sc & Hi & Hs)]; rewrite Hi, Hs; simpl.
  - repeat split; try lia; try discriminate.
  - repeat split; try lia; try reflexivity.
    intros d _. unfold doTextScramble. now rewrite Hs.
Qed.

End GlitchProps.

(** * Properties of the slideshow manager *)

Module MediaProps.
Import Media.

Section Classifier.
Variable isVideoFile : string -> bool.

Lemma showCurrent_at s item :
  mediaItems s !! currentIndex s = Some item ->
  exists s', showCurrent s = Some s'
    /\ currentIndex s' = currentIndex s /\ mediaItems s' = mediaItems s
    /\ currentYear s' = currentYear s
    /\ isVideoPlaying s' = isVideo item
    /\ shown s' = shown s ++ [if isVideo item then Video (src item) else Image (src item)]
    /\ intervalId s' = (if isVideo item then false else intervalId s).
Proof.
  intros Hi. unfold showCurrent. rewrite Hi.
  pose proof (lookup_lt_Some _ _ _ Hi) as Hlt.
  destruct (Nat.eqb_spec (length (mediaItems s)) 0) as [H0|_]; [lia|].
  eexists. split; [reflexivity|]. destruct (isVideo item); simpl; auto 10.
Qed.

Lemma consistent_intro s item :
  mediaItems s !! currentIndex s = Some item ->
  isVideoPlaying s = isVideo item -> consistent s.
Proof.
  intros Hi Hv. unfold consistent.
  destruct (mediaItems s) as [|x l]; [discriminate Hi|]. eauto.
Qed.

(** [advance()] never throws: the index it moves to is in the array. *)
Lemma advance_moves s :
  mediaItems s <> [] ->
  exists s' item,
    advance s = Some s'
    /\ currentIndex s' = ((currentIndex s + 1) mod length (mediaItems s))%nat
    /\ mediaItems s !! currentIndex s' = Some item
    /\ mediaItems s' = mediaItems s
    /\ currentYear s' = currentYear s
    /\ isVideoPlaying s' = isVideo item
    /\ shown s' = shown s ++ [if isVideo item then Video (src item) else Image (src item)]
    /\ intervalId s' = (if isVideo item then false else intervalId s).
Proof.
  intros Hne. unfold advance.
  assert (Hlen : (0 < length (mediaItems s))%nat)
    by (destruct (mediaItems s); [congruence|simpl; lia]).
  destruct (Nat.eqb_spec (length (mediaItems s)) 0) as [H0|_]; [lia|].
  set (i := ((currentIndex s + 1) mod length (mediaItems s))%nat).
  assert (Hi : (i < length (mediaItems s))%nat)
    by (apply Nat.mod_upper_bound; lia).
  destruct (lookup_lt_is_Some_2 _ _ Hi) as [item Hitem].
  destruct (showCurrent_at (set_currentIndex i s) item Hitem)
    as (s' & -> & Hc & Hm & Hy & Hv & Hs & Hint).
  exists s', item. simpl in *. rewrite Hc, Hm.
  repeat split; try assumption; reflexivity.
Qed.

Lemma advance_consistent s :
  (mediaItems s = [] -> consistent s) ->
  exists s', advance s = Some s' /\ consistent s'
             /\ mediaItems s' = mediaItems s.
Proof.
  intros Hc. destruct (mediaItems s) as [|x l] eqn:Hm.
  - exists s. unfold advance. rewrite Hm. simpl. auto.
  - destruct (advance_moves s) as (s' & item & -> & _ & Hi & Hm' & _ & Hv & _);
      [congruence|].
    exists s'. rewrite Hm', <- Hm. split; [reflexivity|]. split; [|reflexivity].
    apply (consistent_intro s' item); [|exact Hv].
    rewrite Hm'. exact Hi.
Qed.

Lemma consistent_frame s s' :
  currentIndex s' = currentIndex s -> mediaItems s' = mediaItems s ->
  isVideoPlaying s' = isVideoPlaying s -> consistent s -> consistent s'.
Proof. unfold consistent. intros -> -> ->. auto. Qed.

Lemma loadYear_consistent rnd yearKey manifest s :
  exists s', loadYear isVideoFile rnd yearKey manifest s = Some s'
    /\ consistent s'
    /\ currentIndex s' = O
    /\ mediaItems s'
       = Facts.shuffleArray rnd (map (item isVideoFile yearKey) manifest)
    /\ currentYear s' = Some yearKey
    /\ intervalId s' = negb (Nat.eqb (length manifest) 0)
    /\ shown s'
       = shown s ++ [match mediaItems s' !! O with
                     | Some first =>
                         if isVideo first then Video (src first) else Image (src first)
                     | None => Placeholder
                     end].
Proof.
  unfold loadYear. cbv zeta.
  set (items := Facts.shuffleArray rnd (map (item isVideoFile yearKey) manifest)).
  assert (Hlen : length items = length manifest).
  { unfold items, Facts.shuffleArray.
    rewrite (FactsMore.shuffleFrom_Permutation rnd _ _). apply length_map. }
  cbn [mediaItems]. rewrite Hlen.
  destruct (Nat.eqb_spec (length manifest) 0) as [H0|H0].
  - eexists. split; [reflexivity|].
    assert (Hnil : items = []) by (apply length_zero_iff_nil; lia).
    simpl. rewrite Hnil. unfold consistent. simpl. auto 10.
  - destruct items as [|first rest] eqn:Hitems; [simpl in Hlen; lia|].
    match goal with
    | |- context [showCurrent ?s2] =>
        destruct (showCurrent_at s2 first eq_refl)
          as (s3 & -> & Hc & Hm & Hy & Hv & Hs & _)
    end.
    simpl in *. eexists. split; [reflexivity|]. simpl.
    rewrite Hc, Hm, Hy, Hs. simpl.
    repeat split; try reflexivity.
    apply (consistent_intro _ first); simpl; [now rewrite Hc, Hm|exact Hv].
Qed.

Lemma happen_consistent s h :
  consistent s -> exists s', happen isVideoFile s h = Some s' /\ consistent s'.
Proof.
  intros Hc. destruct h as [| | | | |rnd yearKey manifest]; simpl.
  - unfold onInterval. destruct (intervalId s); [|eauto].
    destruct (isVideoPlaying s); simpl; [eauto|].
    destruct (advance_consistent s) as (s' & -> & Hc' & _); eauto.
  - unfold onVideoEnded.
    destruct (advance_consistent (set_isVideoPlaying false s)) as (s' & -> & Hc' & _).
    + simpl. intros Hnil. unfold consistent in *. simpl. rewrite Hnil in *. tauto.
    + simpl. eexists. split; [reflexivity|].
      now apply (consistent_frame s').
  - destruct (advance_consistent s) as (s' & -> & Hc' & _); eauto.
  - eexists. split; [reflexivity|]. now apply (consistent_frame s).
  - eexists. split; [reflexivity|]. now apply (consistent_frame s).
  - destruct (loadYear_consistent rnd yearKey manifest s) as (s' & -> & Hc' & _).
    eauto.
Qed.

(** X20: the slideshow never reads past its media: whatever happens to
    it, in whatever order, no call throws, the current index is an
    index of the media array (0 when the array is empty), and the
    video flag is set exactly when the current item is a video. *)
Theorem player_stays_consistent (hs : list Happening) :
  exists s, play isVideoFile hs newPlayer = Some s /\ consistent s.
Proof.
  assert (H : forall s0, consistent s0 ->
                exists s, play isVideoFile hs s0 = Some s /\ consistent s).
  { induction hs as [|h hs IH]; intros s0 Hc; simpl; [eauto|].
    destruct (happen_consistent s0 h Hc) as (s1 & -> & Hc1). simpl.
    now apply IH. }
  apply H. unfold consistent. simpl. auto.
Qed.

(** X21: loading a period puts every file of its list on show once, in
    some order, under the path of the period, starts with the first
    item of that order (the placeholder when there is none), and sets
    the auto-advance timer exactly when there is a file; this is what
    the coordinator's view of the slideshow records. *)
Theorem loadYear_shows_every_file (rnd : nat -> nat) (yearKey : string)
    (manifest : list string) (s : Player) :
  exists s', loadYear isVideoFile rnd yearKey manifest s = Some s'
    /\ mediaItems s' ≡ₚ map (item isVideoFile yearKey) manifest
    /\ currentIndex s' = O
    /\ view s' = Slideshow.loadYear yearKey manifest (view s)
    /\ view (pause s) = Slideshow.pause (view s)
    /\ shown s'
       = shown s ++ [match mediaItems s' !! O with
                     | Some first =>
                         if isVideo first then Video (src first) else Image (src first)
                     | None => Placeholder
                     end].
Proof.
  destruct (loadYear_consistent rnd yearKey manifest s)
    as (s' & Hl & _ & Hi & Hm & Hy & Hint & Hs).
  exists s'. split; [exact Hl|].
  assert (Hp : mediaItems s' ≡ₚ map (item isVideoFile yearKey) manifest).
  { rewrite Hm. apply FactsMore.shuffleFrom_Permutation. }
  repeat split; try assumption.
  unfold view, Slideshow.loadYear. rewrite Hint, Hy, Hp, length_map. reflexivity.
Qed.

Lemma omap_seq_shift {B} (f g : nat -> option B) (k : nat) : forall a,
  (forall j, f (S j) = g j) -> omap f (seq (S a) k) = omap g (seq a k).
Proof.
  induction k as [|k IH]; intros a Hfg; [reflexivity|].
  cbn [seq omap list_omap]. rewrite Hfg, (IH (S a) Hfg). reflexivity.
Qed.

(** X22: over a period of images only the auto-advance timer shows the
    media in turn and wraps around: after [k] firings the index has
    moved [k] places cyclically, and the images shown are those at the
    next [k] places, in that order, nothing else. *)
Theorem images_round_robin (k : nat) : forall s,
  (currentIndex s < length (mediaItems s))%nat ->
  Forall (fun it => isVideo it = false) (mediaItems s) ->
  intervalId s = true -> isVideoPlaying s = false ->
  exists s', play isVideoFile (repeat IntervalFires k) s = Some s'
    /\ mediaItems s' = mediaItems s
    /\ intervalId s' = true /\ isVideoPlaying s' = false
    /\ currentIndex s' = ((currentIndex s + k) mod length (mediaItems s))%nat
    /\ length (shown s') = (length (shown s) + k)%nat
    /\ shown s'
       = shown s
         ++ omap (fun j => (fun it => Image (src it))
                           <$> mediaItems s
                               !! ((currentIndex s + j) mod length (mediaItems s))%nat)
                 (seq 1 k).
Proof.
  induction k as [|k IH]; intros s Hi Hall Hint Hv.
  - exists s. simpl. rewrite app_nil_r, Nat.add_0_r, Nat.mod_small by exact Hi.
    repeat split; try assumption; try lia.
  - assert (Hne : mediaItems s <> []).
    { intros Hnil. rewrite Hnil in Hi. simpl in Hi. lia. }
    destruct (advance_moves s Hne)
      as (s1 & it & Ha & Hc1 & Hit & Hm1 & _ & Hv1 & Hs1 & Hint1).
    assert (Himg : isVideo it = false).
    { exact (Forall_lookup_1 _ _ _ _ Hall Hit). }
    rewrite Himg in Hv1, Hs1, Hint1.
    destruct (IH s1) as (s' & Hp & Hm' & Hint' & Hv' & Hc' & Hlen' & Hs');
      try congruence.
    { rewrite Hm1, Hc1. apply Nat.mod_upper_bound. lia. }
    exists s'. cbn [repeat play]. unfold happen, onInterval.
    rewrite Hint, Hv. cbn [negb]. rewrite Ha. cbn [mbind option_bind].
    rewrite Hm1 in *.
    split; [exact Hp|]. split; [exact Hm'|]. split; [exact Hint'|].
    split; [exact Hv'|].
    assert (Hmod : forall j,
              ((currentIndex s1 + j) mod length (mediaItems s)
               = (currentIndex s + S j) mod length (mediaItems s))%nat).
    { intros j. rewrite Hc1, Nat.Div0.add_mod_idemp_l. f_equal. lia. }
    split; [rewrite Hc'; apply Hmod|].
    split; [rewrite Hlen', Hs1, length_app; simpl; lia|].
    rewrite Hs', Hs1, <- app_assoc. f_equal.
    cbn [seq omap list_omap].
    replace ((currentIndex s + 1) mod length (mediaItems s))%nat
      with (currentIndex s1) by exact Hc1.
    rewrite Hit. cbn [fmap option_fmap option_map app]. f_equal.
    symmetry. apply omap_seq_shift. intros j. now rewrite Hmod.
Qed.

(** X23: the timer never cuts a video short: while a video plays,
    firings of the auto-advance timer, pauses and resumptions leave the
    index, the media and what is on show as they are; only the end of
    the video or a failure to play it moves on. *)
Theorem video_holds_the_stage (hs : list Happening) : forall s,
  isVideoPlaying s = true ->
  (forall h, In h hs -> h = IntervalFires \/ h = Paused \/ h = Resumed) ->
  exists s', play isVideoFile hs s = Some s'
    /\ currentIndex s' = currentIndex s /\ mediaItems s' = mediaItems s
    /\ isVideoPlaying s' = true /\ shown s' = shown s.
Proof.
  induction hs as [|h hs IH]; intros s Hv Hq; [exists s; simpl; auto|].
  assert (H1 : exists s1, happen isVideoFile s h = Some s1
                 /\ currentIndex s1 = currentIndex s /\ mediaItems s1 = mediaItems s
                 /\ isVideoPlaying s1 = true /\ shown s1 = shown s).
  { destruct (Hq h (or_introl eq_refl)) as [->|[->| ->]]; simpl.
    - unfold onInterval. rewrite Hv. destruct (intervalId s); simpl; eauto 10.
    - eexists. split; [reflexivity|]. simpl. auto.
    - eexists. split; [reflexivity|]. simpl. auto. }
  destruct H1 as (s1 & Hh & Hc1 & Hm1 & Hv1 & Hs1).
  destruct (IH s1 Hv1) as (s' & Hp & Hc & Hm & Hv' & Hs).
  { intros h' Hin. apply Hq. now right. }
  exists s'. cbn [play]. rewrite Hh. cbn [mbind option_bind].
  split; [exact Hp|]. repeat split; congruence.
Qed.

End Classifier.

(** A period of two images, the timer running. *)
Lemma images_round_robin_witness :
  let s := {| currentIndex := 1; intervalId := true; currentYear := Some "1969"%string;
              isVideoPlaying := false; shown := [];
              mediaItems := [ {| src := "images/1969/a.jpg"; isVideo := false;
                                 filename := "a.jpg" |};
                              {| src := "images/1969/b.jpg"; isVideo := false;
                                 filename := "b.jpg" |} ] |} in
  exists s', play (fun _ => false) (repeat IntervalFires 3) s = Some s'
    /\ currentIndex s' = O /\ length (shown s') = 3%nat.
Proof.
  intros s.
  destruct (images_round_robin (fun _ => false) 3 s)
    as (s' & Hp & _ & _ & _ & Hc & Hl & _);
    [simpl; lia | repeat constructor | reflexivity | reflexivity |].
  exists s'. split; [exact Hp|]. split; [exact Hc|exact Hl].
Defined.

(** A video on show, the timer running. *)
Lemma video_holds_the_stage_witness :
  let s := {| currentIndex := O; intervalId := true; currentYear := Some "1969"%string;
              isVideoPlaying := true; shown := [Video "images/1969/m.mp4"];
              mediaItems := [ {| src := "images/1969/m.mp4"; isVideo := true;
                                 filename := "m.mp4" |};
                              {| src := "images/1969/b.jpg"; isVideo := false;
                                 filename := "b.jpg" |} ] |} in
  exists s', play (fun _ => true) [IntervalFires; Paused; IntervalFires] s = Some s'
    /\ currentIndex s' = O.
Proof.
  intros s.
  destruct (video_holds_the_stage (fun _ => true) [IntervalFires; Paused; IntervalFires] s)
    as (s' & Hp & Hc & _); [reflexivity| |].
  - simpl. intros h [<-|[<-|[<-|[]]]]; auto.
  - exists s'. split; [exact Hp|exact Hc].
Defined.

End MediaProps.
